(** * Eldritch shield: hand-landmark interpreter and pose stabilizer

    A shallow embedding of the numeric core of the [eldritch-shield]
    application:

    - [HandTracker.onResults]  (components/HandTracker.tsx), the per-frame
      landmark interpreter;
    - [Scene3D.CreateRig_useFrame] (components/Scene3D.tsx), the per-tick
      position / orientation smoothing;
    - [Shield.useFrame] (components/Shield.tsx), the per-tick scale
      animation with its "hide when tiny" cutoff;
    - the methods of three.js ([Vector3], [Quaternion]) those callbacks call.

    JavaScript numbers are kept abstract behind the interface [Number] so
    that every function is written once, as the source has it, and read at
    two instances: IEEE-754 binary64 ([float], what the program runs on, with
    NaN and infinities) and exact real arithmetic ([R], in which limits and
    norms are stated).  A third instance, the reals with every operation
    rounded, stands for the standard model of floating-point arithmetic. *)

From Stdlib Require Import ZArith List Bool Lia.
From Stdlib Require Import Floats.
From Stdlib Require Import Reals Lra.
Import ListNotations.

Set Implicit Arguments.

(** ** JavaScript numbers *)

Module JS.

(** The operations on numbers the program uses.  Comparisons are the
    boolean-valued JavaScript operators: on [float] all three are false as
    soon as an operand is NaN. *)
Class Number (N : Type) : Type := {
  of_Z  : Z -> N;
  nadd  : N -> N -> N;
  nsub  : N -> N -> N;
  nmul  : N -> N -> N;
  ndiv  : N -> N -> N;
  nneg  : N -> N;
  nltb  : N -> N -> bool;   (* a < b   *)
  nleb  : N -> N -> bool;   (* a <= b  *)
  neqb  : N -> N -> bool;   (* a === b *)
  Math_abs  : N -> N;
  Math_sqrt : N -> N;
  Math_pow2 : N -> N        (* Math.pow(a, 2) *)
}.

(** The transcendental part of [Math], used by [Quaternion.slerp] and by
    the spark jitter of the shield. *)
Class Trig (N : Type) : Type := {
  Math_sin   : N -> N;
  Math_atan2 : N -> N -> N
}.

Declare Scope js_scope.
Delimit Scope js_scope with js.
Infix "+" := nadd : js_scope.
Infix "-" := nsub : js_scope.
Infix "*" := nmul : js_scope.
Infix "/" := ndiv : js_scope.
Notation "- a" := (nneg a) : js_scope.
Infix "<?" := nltb : js_scope.
Infix "<=?" := nleb : js_scope.
Infix "===" := neqb (at level 70, no associativity) : js_scope.
Notation "a >? b" := (nltb b a) (at level 70, no associativity) : js_scope.
Notation "a >=? b" := (nleb b a) (at level 70, no associativity) : js_scope.

Section Literals.
Context {N : Type} `{Number N}.

(** The decimal literal [m]e-[k].  On [float] the quotient of two exactly
    representable integers is correctly rounded, which is how a decimal
    literal is read. *)
Definition decimal (m : Z) (k : nat) : N :=
  ndiv (of_Z m) (of_Z (10 ^ Z.of_nat k)).

Definition zero : N := of_Z 0.
Definition one  : N := of_Z 1.
Definition two  : N := of_Z 2.

(** [Number.EPSILON], 2^-52. *)
Definition Number_EPSILON : N := ndiv one (of_Z (2 ^ 52)).

(** Truthiness of a number: every number but 0, -0 and NaN; those three
    are exactly the numbers that are neither below nor above zero. *)
Definition truthy (a : N) : bool := (a <? zero)%js || (zero <? a)%js.

(** [a || d] on numbers. *)
Definition or_else (a d : N) : N := if truthy a then a else d.
End Literals.

(** *** IEEE-754 binary64

    JavaScript numbers as they are.  [Math.pow(a, 2)] is read as the
    correctly rounded square [a * a]. *)

Definition float_of_Z (z : Z) : float :=
  match z with
  | Z0 => PrimFloat.zero
  | Zpos _ => PrimFloat.of_uint63 (Uint63.of_Z z)
  | Zneg p => PrimFloat.opp (PrimFloat.of_uint63 (Uint63.of_Z (Zpos p)))
  end.

#[export] Instance float_Number : Number float := {|
  of_Z  := float_of_Z;
  nadd  := PrimFloat.add;
  nsub  := PrimFloat.sub;
  nmul  := PrimFloat.mul;
  ndiv  := PrimFloat.div;
  nneg  := PrimFloat.opp;
  nltb  := PrimFloat.ltb;
  nleb  := PrimFloat.leb;
  neqb  := PrimFloat.eqb;
  Math_abs  := PrimFloat.abs;
  Math_sqrt := PrimFloat.sqrt;
  Math_pow2 := fun a => PrimFloat.mul a a
|}.

(** The non-finite numbers. *)
Definition isFinite (a : float) : bool :=
  negb (PrimFloat.is_nan a || PrimFloat.is_infinity a).

(** *** Exact real arithmetic *)

Definition Rltb (a b : R) : bool := if Rlt_dec a b then true else false.
Definition Rleb (a b : R) : bool := if Rle_dec a b then true else false.
Definition Reqb (a b : R) : bool := if Req_dec_T a b then true else false.

#[export] Instance R_Number : Number R := {|
  of_Z  := IZR;
  nadd  := Rplus;
  nsub  := Rminus;
  nmul  := Rmult;
  ndiv  := Rdiv;
  nneg  := Ropp;
  nltb  := Rltb;
  nleb  := Rleb;
  neqb  := Reqb;
  Math_abs  := Rabs;
  Math_sqrt := R_sqrt.sqrt;
  Math_pow2 := fun a => Rmult a a
|}.

(** [Math.atan2(b, a)]: the angle of the point [(a, b)], in (-PI, PI]. *)
Definition Ratan2 (b a : R) : R :=
  if Rlt_dec 0 a then atan (b / a)
  else if Rlt_dec a 0 then
    if Rle_dec 0 b then (atan (b / a) + PI)%R else (atan (b / a) - PI)%R
  else if Rlt_dec 0 b then (PI / 2)%R
  else if Rlt_dec b 0 then (- (PI / 2))%R
  else 0%R.

#[export] Instance R_Trig : Trig R := {|
  Math_sin := sin;
  Math_atan2 := Ratan2
|}.

(** *** Rounded real arithmetic

    The standard model of floating-point arithmetic: a number is a real
    (so finite), and every literal and every arithmetic operation returns
    its exact value rounded by [rnd]; sign changes and comparisons are
    exact.  With [rnd] the identity this is [R_Number].  [rounding rnd]
    is what rounding to the nearest binary64 satisfies away from overflow
    and underflow: a relative error of at most 2^-53, and 1 kept as it
    is. *)
Definition Rounded_Number (rnd : R -> R) : Number R := {|
  of_Z  := fun z => rnd (IZR z);
  nadd  := fun a b => rnd (a + b)%R;
  nsub  := fun a b => rnd (a - b)%R;
  nmul  := fun a b => rnd (a * b)%R;
  ndiv  := fun a b => rnd (a / b)%R;
  nneg  := Ropp;
  nltb  := Rltb;
  nleb  := Rleb;
  neqb  := Reqb;
  Math_abs  := Rabs;
  Math_sqrt := fun a => rnd (R_sqrt.sqrt a);
  Math_pow2 := fun a => rnd (a * a)%R
|}.

Definition rounding (rnd : R -> R) : Prop :=
  (forall a : R, Rabs (rnd a - a) <= Rabs a / 9007199254740992)%R /\
  rnd 1%R = 1%R.

(** [x] is [t] up to the relative error [d]. *)
Definition near_rel (d t x : R) : Prop :=
  ((1 - d) * t <= x <= (1 + d) * t)%R.

End JS.
Import JS.

(** ** three.js: Vector3 and Quaternion *)

Module THREE.

Record Vector3 (N : Type) : Type := mkVector3 { x : N; y : N; z : N }.

(** Field names as in three.js ([_x], [_y], [_z], [_w]). *)
Record Quaternion (N : Type) : Type :=
  mkQuaternion { _x : N; _y : N; _z : N; _w : N }.

Arguments mkVector3 {N} _ _ _.
Arguments mkQuaternion {N} _ _ _ _.

Section Methods.
Context {N : Type} `{Number N}.
Local Open Scope js_scope.

(** [new THREE.Quaternion()]: the identity. *)
Definition Quaternion_new : Quaternion N := mkQuaternion zero zero zero one.

Definition Vector3_length (v : Vector3 N) : N :=
  Math_sqrt (x v * x v + y v * y v + z v * z v).

Definition Vector3_dot (a b : Vector3 N) : N :=
  x a * x b + y a * y b + z a * z b.

Definition Vector3_multiplyScalar (v : Vector3 N) (s : N) : Vector3 N :=
  mkVector3 (x v * s) (y v * s) (z v * s).

Definition Vector3_divideScalar (v : Vector3 N) (s : N) : Vector3 N :=
  Vector3_multiplyScalar v (one / s).

(** [normalize() { return this.divideScalar( this.length() || 1 ); }] *)
Definition Vector3_normalize (v : Vector3 N) : Vector3 N :=
  Vector3_divideScalar v (or_else (Vector3_length v) one).

(** [lerp( v, alpha )]: [this.x += ( v.x - this.x ) * alpha], ... *)
Definition Vector3_lerp (this v : Vector3 N) (alpha : N) : Vector3 N :=
  mkVector3 (x this + (x v - x this) * alpha)
            (y this + (y v - y this) * alpha)
            (z this + (z v - z this) * alpha).

Definition Quaternion_lengthSq (q : Quaternion N) : N :=
  _x q * _x q + _y q * _y q + _z q * _z q + _w q * _w q.

Definition Quaternion_length (q : Quaternion N) : N :=
  Math_sqrt (_x q * _x q + _y q * _y q + _z q * _z q + _w q * _w q).

Definition Quaternion_dot (a b : Quaternion N) : N :=
  _x a * _x b + _y a * _y b + _z a * _z b + _w a * _w b.

Definition Quaternion_normalize (q : Quaternion N) : Quaternion N :=
  let l := Quaternion_length q in
  if l === zero then mkQuaternion zero zero zero one
  else
    let l := one / l in
    mkQuaternion (_x q * l) (_y q * l) (_z q * l) (_w q * l).

(** [setFromUnitVectors( vFrom, vTo )]: the shortest-arc rotation taking
    [vFrom] to [vTo]; both are assumed (not checked) to be unit. *)
Definition Quaternion_setFromUnitVectors (vFrom vTo : Vector3 N)
  : Quaternion N :=
  let r := Vector3_dot vFrom vTo + one in
  if r <? Number_EPSILON then
    (* vFrom and vTo point in opposite directions *)
    let r := zero in
    if Math_abs (x vFrom) >? Math_abs (z vFrom) then
      Quaternion_normalize (mkQuaternion (- y vFrom) (x vFrom) zero r)
    else
      Quaternion_normalize (mkQuaternion zero (- z vFrom) (y vFrom) r)
  else
    Quaternion_normalize
      (mkQuaternion (y vFrom * z vTo - z vFrom * y vTo)
                    (z vFrom * x vTo - x vFrom * z vTo)
                    (x vFrom * y vTo - y vFrom * x vTo)
                    r).
End Methods.

Section Slerp.
Context {N : Type} `{Number N} `{Trig N}.
Local Open Scope js_scope.

(** [slerp( qb, t )]: spherical interpolation from [this] toward [qb]. *)
Definition Quaternion_slerp (this qb : Quaternion N) (t : N)
  : Quaternion N :=
  if t === zero then this
  else if t === one then qb
  else
    let x := _x this in let y := _y this in
    let z := _z this in let w := _w this in
    let cosHalfTheta := w * _w qb + x * _x qb + y * _y qb + z * _z qb in
    let negate := cosHalfTheta <? zero in
    let this' :=
      if negate
      then mkQuaternion (- _x qb) (- _y qb) (- _z qb) (- _w qb)
      else qb in
    let cosHalfTheta := if negate then - cosHalfTheta else cosHalfTheta in
    if cosHalfTheta >=? one then this
    else
      let sqrSinHalfTheta := one - cosHalfTheta * cosHalfTheta in
      if sqrSinHalfTheta <=? Number_EPSILON then
        let s := one - t in
        Quaternion_normalize
          (mkQuaternion (s * x + t * _x this') (s * y + t * _y this')
                        (s * z + t * _z this') (s * w + t * _w this'))
      else
        let sinHalfTheta := Math_sqrt sqrSinHalfTheta in
        let halfTheta := Math_atan2 sinHalfTheta cosHalfTheta in
        let ratioA := Math_sin ((one - t) * halfTheta) / sinHalfTheta in
        let ratioB := Math_sin (t * halfTheta) / sinHalfTheta in
        mkQuaternion (x * ratioA + _x this' * ratioB)
                     (y * ratioA + _y this' * ratioB)
                     (z * ratioA + _z this' * ratioB)
                     (w * ratioA + _w this' * ratioB).
End Slerp.

End THREE.
Import THREE.

(** ** HandTracker.tsx *)

Module MediaPipe.
(** A landmark of [@mediapipe/hands]: normalized image coordinates and a
    depth relative to the wrist. *)
Record NormalizedLandmark (N : Type) : Type :=
  mkLandmark { x : N; y : N; z : N }.
Arguments mkLandmark {N} _ _ _.

(** [Results]: [multiHandLandmarks] may be missing; otherwise it holds one
    landmark list per detected hand. *)
Record Results (N : Type) : Type :=
  mkResults { multiHandLandmarks : option (list (list (NormalizedLandmark N))) }.
Arguments mkResults {N} _.
End MediaPipe.

Module HandTracker.
Import MediaPipe.

(** [gesture: 'OPEN' | 'FIST' | 'UNKNOWN'] *)
Inductive Gesture : Type := OPEN | FIST | UNKNOWN.

Definition Gesture_eqb (a b : Gesture) : bool :=
  match a, b with
  | OPEN, OPEN | FIST, FIST | UNKNOWN, UNKNOWN => true
  | _, _ => false
  end.

Record HandData (N : Type) : Type := mkHandData {
  position : Vector3 N;      (* Wrist position mapped to 3D space *)
  rotation : Quaternion N;   (* Orientation *)
  gesture  : Gesture
}.
Arguments mkHandData {N} _ _ _.

(** What one call of [onResults] does: it either hands a value to
    [onHandUpdate] ([null] is [None]), or throws a [TypeError] before
    reaching the callback, when it reads a coordinate of a landmark the
    list does not have. *)
Inductive Outcome (N : Type) : Type :=
| Threw : Outcome N
| Delivered : option (HandData N) -> Outcome N.
Arguments Threw {N}.
Arguments Delivered {N} _.

Section OnResults.
Context {N : Type} `{Number N}.
Local Open Scope js_scope.

(** The multiplier of the gesture test, [1.8]. *)
Definition OPEN_RATIO : N := decimal 18 1.

(** The callback [onResults].  Left out, as they do not reach the value
    handed to [onHandUpdate]: the other fingertip landmarks (read, never
    dereferenced), the helper [isFingerExtended] (never called) and the
    viewport estimate (computed, never used). *)
Definition onResults (results : Results N) : Outcome N :=
  match multiHandLandmarks results with
  | None | Some [] => Delivered None                       (* No hand? *)
  | Some (landmarks :: _) =>                               (* Tracking one hand *)
    match nth_error landmarks 0, nth_error landmarks 9,
          nth_error landmarks 12 with
    | Some wrist, Some middleFingerMCP, Some middleFingerTip =>
      let dWristToMiddleTip :=
        Math_sqrt (Math_pow2 (x middleFingerTip - x wrist)
                   + Math_pow2 (y middleFingerTip - y wrist)) in
      let dWristToMiddleMCP :=
        Math_sqrt (Math_pow2 (x middleFingerMCP - x wrist)
                   + Math_pow2 (y middleFingerMCP - y wrist)) in
      let gesture :=
        if dWristToMiddleTip >? dWristToMiddleMCP * OPEN_RATIO
        then OPEN else FIST in
      let x' := (one - x wrist) * two - one in
      let y' := - (y wrist * two - one) in
      let position := mkVector3 x' y' zero in
      let vDirection :=
        Vector3_normalize
          (mkVector3 ((one - x middleFingerMCP) - (one - x wrist))
                     (- (y middleFingerMCP - y wrist))
                     zero) in
      let dummyUp := mkVector3 zero one zero in
      let quaternion := Quaternion_setFromUnitVectors dummyUp vDirection in
      Delivered (Some (mkHandData position quaternion gesture))
    | _, _, _ => Threw
    end
  end.
End OnResults.
End HandTracker.

(** ** Scene3D.tsx: the rig *)

Module Scene3D.
Import HandTracker.

(** The group the rig drives, as far as the callback touches it. *)
Record Group (N : Type) : Type := mkGroup {
  visible : bool;
  position : Vector3 N;
  quaternion : Quaternion N
}.
Arguments mkGroup {N} _ _ _.

(** [useThree().viewport]: the world-unit extent of the view at z = 0. *)
Record Viewport (N : Type) : Type := mkViewport { width : N; height : N }.
Arguments mkViewport {N} _ _.

(** The three refs of [CreateRig]; [shieldGroupRef.current] is [null]
    until the group is mounted. *)
Record Rig (N : Type) : Type := mkRig {
  shieldGroupRef : option (Group N);
  smoothedPosition : Vector3 N;
  smoothedRotation : Quaternion N
}.
Arguments mkRig {N} _ _ _.

Section CreateRig.
Context {N : Type} `{Number N} `{Trig N}.
Local Open Scope js_scope.

(** The smoothing factor of both interpolations, [0.1]. *)
Definition ALPHA : N := decimal 1 1.

(** The refs at first render; the group is rendered with
    [visible={false}]. *)
Definition Rig_init : Rig N :=
  mkRig None (mkVector3 zero zero zero) Quaternion_new.

Definition isOpen (handData : option (HandData N)) : bool :=
  match handData with
  | Some d => Gesture_eqb (gesture d) OPEN
  | None => false
  end.

(** The [useFrame] callback of [CreateRig]. *)
Definition CreateRig_useFrame (viewport : Viewport N)
    (handData : option (HandData N)) (rig : Rig N) : Rig N :=
  match shieldGroupRef rig with
  | None => rig
  | Some group =>
    match handData with
    | Some d =>
      if Gesture_eqb (gesture d) OPEN then
        let targetX := x (HandTracker.position d) * (width viewport / two) in
        let targetY := y (HandTracker.position d) * (height viewport / two) in
        let targetZ := zero in
        let targetPos := mkVector3 targetX targetY targetZ in
        let smoothedPosition' :=
          Vector3_lerp (smoothedPosition rig) targetPos ALPHA in
        let smoothedRotation' :=
          Quaternion_slerp (smoothedRotation rig) (rotation d) ALPHA in
        mkRig (Some (mkGroup true smoothedPosition' smoothedRotation'))
              smoothedPosition' smoothedRotation'
      else rig
    | None => rig
    end
  end.

(** The [visible] prop [CreateRig] passes to [Shield] when it renders. *)
Definition CreateRig_render_visible (handData : option (HandData N)) : bool :=
  isOpen handData.
End CreateRig.
End Scene3D.

(** ** Shield.tsx: the scale animation *)

Module Shield.

(** The shield's own group, as far as the callback touches it. *)
Record Group (N : Type) : Type := mkGroup {
  scale : Vector3 N;
  visible : bool
}.
Arguments mkGroup {N} _ _.

(** A particle ring; [rotation] holds the Euler angles x, y, z. *)
Record Points (N : Type) : Type := mkPoints { rotation : Vector3 N }.
Arguments mkPoints {N} _.

Record Refs (N : Type) : Type := mkRefs {
  groupRef  : option (Group N);
  innerRef  : option (Points N);
  middleRef : option (Points N);
  outerRef  : option (Points N)
}.
Arguments mkRefs {N} _ _ _ _.

Section UseFrame.
Context {N : Type} `{Number N} `{Trig N}.
Local Open Scope js_scope.

(** The cutoff under which a hidden shield stops being drawn, [0.01]. *)
Definition CUTOFF : N := decimal 1 2.

Definition set_z (p : Points N) (f : N -> N) : Points N :=
  mkPoints (mkVector3 (x (rotation p)) (y (rotation p)) (f (z (rotation p)))).

Definition set_x (p : Points N) (v : N) : Points N :=
  mkPoints (mkVector3 v (y (rotation p)) (z (rotation p))).

(** The [useFrame] callback of [Shield]; [visible] is the prop of the
    render that installed it, [elapsedTime] is [state.clock.elapsedTime]. *)
Definition useFrame (visible : bool) (elapsedTime delta : N)
    (refs : Refs N) : Refs N :=
  match groupRef refs with
  | None => refs
  | Some group =>
    (* 1. Gesture State (Scale Lerp) *)
    let targetScale := if visible then one else zero in
    let scale' :=
      Vector3_lerp (scale group)
                   (mkVector3 targetScale targetScale targetScale)
                   (decimal 1 1) in
    (* Hide completely if tiny to save resources *)
    if (x scale' <? CUTOFF) && negb visible then
      mkRefs (Some (mkGroup scale' false))
             (innerRef refs) (middleRef refs) (outerRef refs)
    else
      (* 2. Rotation Animation *)
      mkRefs (Some (mkGroup scale' true))
        (option_map (fun p => set_z p (fun r => r - delta * decimal 5 1))
                    (innerRef refs))
        (option_map (fun p => set_z p (fun r => r + delta * decimal 3 1))
                    (middleRef refs))
        (option_map
           (fun p => set_x (set_z p (fun r => r - delta * decimal 1 1))
                           (Math_sin elapsedTime * decimal 1 1))
           (outerRef refs))
  end.

(** The refs once the component is mounted: a fresh object has scale
    (1, 1, 1), is visible and is not rotated. *)
Definition Points_new : Points N := mkPoints (mkVector3 zero zero zero).
Definition Refs_mounted : Refs N :=
  mkRefs (Some (mkGroup (mkVector3 one one one) true))
         (Some Points_new) (Some Points_new) (Some Points_new).
End UseFrame.
End Shield.

(** ** App.tsx: the hand-off slot and the render loop *)

Module App.
Import HandTracker.

(** [handDataRef] is the single-slot hand-off written by [onHandUpdate];
    [visibleProp] is the [visible] prop of [Shield], fixed by the latest
    render of [CreateRig]. *)
Record State (N : Type) : Type := mkState {
  handDataRef : option (HandData N);
  visibleProp : bool;
  rig : Scene3D.Rig N;
  shield : Shield.Refs N
}.
Arguments mkState {N} _ _ _ _.

(** What a render tick is given: the viewport, the clock and the time
    since the previous tick. *)
Record Tick (N : Type) : Type := mkTick {
  viewport : Scene3D.Viewport N;
  elapsedTime : N;
  delta : N
}.
Arguments mkTick {N} _ _ _.

Section Loop.
Context {N : Type} `{Number N} `{Trig N}.

(** [handleHandUpdate]: [handDataRef.current = data]. *)
Definition handleHandUpdate (data : option (HandData N)) (s : State N)
  : State N :=
  mkState data (visibleProp s) (rig s) (shield s).

(** A frame delivered by the capture pipeline. *)
Definition onFrame (results : MediaPipe.Results N) (s : State N)
  : State N :=
  match onResults results with
  | Delivered data => handleHandUpdate data s
  | Threw => s
  end.

(** A render of [CreateRig]: the prop of [Shield] is recomputed. *)
Definition render (s : State N) : State N :=
  mkState (handDataRef s) (Scene3D.CreateRig_render_visible (handDataRef s))
          (rig s) (shield s).

(** One render tick: both [useFrame] callbacks run; they touch disjoint
    objects. *)
Definition tick (t : Tick N) (s : State N) : State N :=
  mkState (handDataRef s) (visibleProp s)
          (Scene3D.CreateRig_useFrame (viewport t) (handDataRef s) (rig s))
          (Shield.useFrame (visibleProp s) (elapsedTime t) (delta t)
                           (shield s)).

(** A run of ticks with no frame and no render in between. *)
Fixpoint ticks (ts : list (Tick N)) (s : State N) : State N :=
  match ts with
  | [] => s
  | t :: ts' => ticks ts' (tick t s)
  end.
End Loop.
End App.

(** ** Vocabulary of the specification *)

Module Spec.
Import MediaPipe HandTracker.

Section Interpreter.
Context {N : Type} `{Number N}.
Local Open Scope js_scope.

(** The specification's [planarDistance]: the Euclidean distance in the
    x/y plane, depth ignored. *)
Definition spec_planarDistance (a b : NormalizedLandmark N) : N :=
  Math_sqrt (Math_pow2 (x a - x b) + Math_pow2 (y a - y b)).

(** A frame that reports a hand whose first landmark list has the wrist
    [W] (index 0), the middle-finger base knuckle [M] (index 9) and the
    middle-finger tip [T] (index 12). *)
Definition hand_frame (results : Results N)
    (W M T : NormalizedLandmark N) : Prop :=
  exists landmarks others,
    multiHandLandmarks results = Some (landmarks :: others) /\
    nth_error landmarks 0 = Some W /\
    nth_error landmarks 9 = Some M /\
    nth_error landmarks 12 = Some T.

(** The "no hand" signal. *)
Definition no_hand (results : Results N) : Prop :=
  multiHandLandmarks results = None \/ multiHandLandmarks results = Some [].

(** The specification's position mapping. *)
Definition spec_ndcX (W : NormalizedLandmark N) : N :=
  (one - x W) * two - one.
Definition spec_ndcY (W : NormalizedLandmark N) : N :=
  - (y W * two - one).
End Interpreter.

(** A 21-landmark hand in which every landmark but the knuckle and the tip
    sits at the wrist. *)
Definition hand21 {N : Type} (W M T : NormalizedLandmark N)
  : list (NormalizedLandmark N) :=
  [W; W; W; W; W; W; W; W; W; M; W; W; T; W; W; W; W; W; W; W; W].

Definition frame_of {N : Type} (W M T : NormalizedLandmark N) : Results N :=
  mkResults (Some [hand21 W M T]).

(** Components of a float observation that are NaN or infinite. *)
Definition Vector3_isFinite (v : Vector3 float) : bool :=
  isFinite (THREE.x v) && isFinite (THREE.y v) && isFinite (THREE.z v).
Definition Quaternion_isFinite (q : Quaternion float) : bool :=
  isFinite (_x q) && isFinite (_y q) && isFinite (_z q) && isFinite (_w q).
Definition Landmark_isFinite (l : NormalizedLandmark float) : bool :=
  isFinite (x l) && isFinite (y l).

(** The statement of C3: a frame in which a landmark the interpreter reads
    has a NaN or infinite coordinate is answered with [null]. *)
Definition rejects_non_finite : Prop :=
  forall (results : Results float) W M T,
    hand_frame results W M T ->
    Landmark_isFinite W && Landmark_isFinite M && Landmark_isFinite T = false ->
    onResults results = Delivered None.

(** The statement of the first half of C4 on doubles: every observation
    has a finite orientation whose norm is within 1e-6 of 1. *)
Definition near_unit (q : Quaternion float) : bool :=
  Quaternion_isFinite q &&
  PrimFloat.ltb (PrimFloat.abs (PrimFloat.sub (Quaternion_length q) 1%float))
                (decimal 1 6).
Definition orientation_always_unit : Prop :=
  forall (results : Results float) d,
    onResults results = Delivered (Some d) -> near_unit (rotation d) = true.

Section Stabilizer.
Local Open Scope R_scope.

(** Euclidean distance between two points, and between two quaternions
    read as 4-vectors. *)
Definition Vector3_distance (a b : Vector3 R) : R :=
  Vector3_length
    (mkVector3 (THREE.x a - THREE.x b) (THREE.y a - THREE.y b)
               (THREE.z a - THREE.z b)).
Definition Quaternion_distance (a b : Quaternion R) : R :=
  Quaternion_length
    (mkQuaternion (_x a - _x b) (_y a - _y b) (_z a - _z b) (_w a - _w b)).

Definition origin : Vector3 R := mkVector3 0 0 0.

(** The activation scalar: the x component of the shield's scale. *)
Definition activation (s : App.State R) : option R :=
  option_map (fun g => THREE.x (Shield.scale g))
             (Shield.groupRef (App.shield s)).

(** Both components are mounted. *)
Definition mounted (s : App.State R) : Prop :=
  (exists g, Scene3D.shieldGroupRef (App.rig s) = Some g) /\
  (exists g, Shield.groupRef (App.shield s) = Some g).

(** The position half of C2: with no observation, the smoothed position
    gets within any distance of the origin after enough ticks. *)
Definition position_returns_to_origin : Prop :=
  forall s : App.State R,
    mounted s -> App.handDataRef s = None -> App.visibleProp s = false ->
    forall eps, 0 < eps ->
    exists n0 : nat, forall ts : list (App.Tick R),
      (n0 <= length ts)%nat ->
      Vector3_distance (Scene3D.smoothedPosition (App.rig (App.ticks ts s)))
                       origin < eps.

(** The last clause of C7: on a tick under the cutoff with the shield
    not wanted, the scale is no longer smoothed. *)
Definition cutoff_stops_smoothing : Prop :=
  forall (elapsedTime delta : R) (refs : Shield.Refs R) g,
    Shield.groupRef refs = Some g ->
    THREE.x (Shield.scale g) < 1 / 100 ->
    forall g',
      Shield.groupRef (Shield.useFrame false elapsedTime delta refs)
        = Some g' ->
      Shield.scale g' = Shield.scale g.

(** The two smoothing steps iterated toward a fixed target. *)
Definition lerp_run (target start : Vector3 R) (n : nat) : Vector3 R :=
  Nat.iter n (fun v => Vector3_lerp v target Scene3D.ALPHA) start.
Definition slerp_run (target start : Quaternion R) (n : nat) : Quaternion R :=
  Nat.iter n (fun q => Quaternion_slerp q target Scene3D.ALPHA) start.

(** [v] lies between [a] and [b], on the line and component by component. *)
Definition between (a b v : R) : Prop := Rmin a b <= v <= Rmax a b.
Definition Vector3_between (a b v : Vector3 R) : Prop :=
  between (THREE.x a) (THREE.x b) (THREE.x v) /\
  between (THREE.y a) (THREE.y b) (THREE.y v) /\
  between (THREE.z a) (THREE.z b) (THREE.z v).

(** Unit quaternions; [q] and [-q] stand for the same orientation. *)
Definition unit (q : Quaternion R) : Prop := Quaternion_lengthSq q = 1.
Definition Quaternion_negate (q : Quaternion R) : Quaternion R :=
  mkQuaternion (- _x q) (- _y q) (- _z q) (- _w q).

(** The quaternion that stands for the orientation [target] on the side of
    [start]. *)
Definition toward (start target : Quaternion R) : Quaternion R :=
  if Rlt_dec (Quaternion_dot start target) 0
  then Quaternion_negate target else target.

(** [q] lies on the arc between [a] and [b]: it is a combination of the two
    with non-negative weights. *)
Definition on_arc (a b q : Quaternion R) : Prop :=
  exists wa wb : R, 0 <= wa /\ 0 <= wb /\
    q = mkQuaternion (wa * _x a + wb * _x b) (wa * _y a + wb * _y b)
                     (wa * _z a + wb * _z b) (wa * _w a + wb * _w b).

(** Distance between two orientations. *)
Definition Orientation_distance (q b : Quaternion R) : R :=
  Rmin (Quaternion_distance q b) (Quaternion_distance q (Quaternion_negate b)).

(** What a spherical-interpolation step of factor 1/10 from the unit
    quaternion [q] toward the orientation of the unit quaternion [b] gives:
    a unit quaternion [q'] on the arc from [q] to [b'], the quaternion that
    stands for [b] on the side of [q]; with [theta] the angle between [q]
    and [b'], [q'] is at the angle [theta / 10] from [q] and at
    [9 * theta / 10] from [b'].  Below the threshold of three.js
    ([sin^2 theta <= Number.EPSILON]) the step follows the chord instead of
    the arc: [q'] is the normalized point at one tenth of the segment. *)
Definition spherical_step (q b q' : Quaternion R) : Prop :=
  let b' := toward q b in
  unit q' /\ on_arc q b' q' /\
  exists theta : R,
    0 <= theta <= PI / 2 /\ cos theta = Quaternion_dot q b' /\
    (Number_EPSILON < sin theta * sin theta ->
     Quaternion_dot q' q = cos (theta / 10) /\
     Quaternion_dot q' b' = cos (9 * theta / 10)) /\
    (sin theta * sin theta <= Number_EPSILON ->
     q' = Quaternion_normalize
            (mkQuaternion (9 / 10 * _x q + 1 / 10 * _x b')
                          (9 / 10 * _y q + 1 / 10 * _y b')
                          (9 / 10 * _z q + 1 / 10 * _z b')
                          (9 / 10 * _w q + 1 / 10 * _w b'))).

(** The statement of C8 for the spherical step without its restriction to
    unit quaternions: from every start the iterates come within any
    positive distance of the target orientation. *)
Definition slerp_always_converges : Prop :=
  forall (target start : Quaternion R) (eps : R), 0 < eps ->
    exists n : nat,
      Orientation_distance (slerp_run target start n) target < eps.
End Stabilizer.

(** The statement of C8 for the linear step on the numbers the program
    runs on: from every start the iterates come within any positive
    distance of the target. *)
Definition lerp_run_doubles (target start : Vector3 float) (n : nat)
  : Vector3 float :=
  Nat.iter n (fun v => Vector3_lerp v target Scene3D.ALPHA) start.
Definition lerp_always_converges : Prop :=
  forall (target start : Vector3 float) (eps : float),
    PrimFloat.ltb 0%float eps = true ->
    exists n : nat,
      let v := lerp_run_doubles target start n in
      PrimFloat.ltb
        (Vector3_length
           (mkVector3 (PrimFloat.sub (THREE.x v) (THREE.x target))
                      (PrimFloat.sub (THREE.y v) (THREE.y target))
                      (PrimFloat.sub (THREE.z v) (THREE.z target))))
        eps = true.
End Spec.

(** Reading the number interface at the instance of the reals (and of the
    doubles), without touching anything else. *)
Ltac js_unfold :=
  unfold decimal, Number_EPSILON, zero, one, two in *;
  change (@of_Z R R_Number) with IZR in *;
  change (@nadd R R_Number) with Rplus in *;
  change (@nsub R R_Number) with Rminus in *;
  change (@nmul R R_Number) with Rmult in *;
  change (@ndiv R R_Number) with Rdiv in *;
  change (@nneg R R_Number) with Ropp in *;
  change (@nltb R R_Number) with Rltb in *;
  change (@nleb R R_Number) with Rleb in *;
  change (@neqb R R_Number) with Reqb in *;
  change (@Math_abs R R_Number) with Rabs in *;
  change (@Math_sqrt R R_Number) with R_sqrt.sqrt in *;
  change (@Math_pow2 R R_Number) with (fun a : R => Rmult a a) in *;
  change (@Math_sin R R_Trig) with sin in *;
  change (@Math_atan2 R R_Trig) with Ratan2 in *;
  change (@of_Z float float_Number) with float_of_Z in *;
  change (@nadd float float_Number) with PrimFloat.add in *;
  change (@nsub float float_Number) with PrimFloat.sub in *;
  change (@nmul float float_Number) with PrimFloat.mul in *;
  change (@ndiv float float_Number) with PrimFloat.div in *;
  change (@nneg float float_Number) with PrimFloat.opp in *;
  cbv beta in *;
  change (10 ^ Z.of_nat 1)%Z with 10%Z in *;
  change (10 ^ Z.of_nat 2)%Z with 100%Z in *;
  change (Z.pow_pos 10 1) with 10%Z in *;
  change (Z.pow_pos 10 2) with 100%Z in *;
  change (2 ^ 52)%Z with 4503599627370496%Z in *;
  change (Z.pow_pos 2 52) with 4503599627370496%Z in *.

(** ** Concrete states and inputs *)

Module Examples.
Import HandTracker.
Local Open Scope R_scope.

(** The application once both components are mounted: no observation
    yet, the first render passed [visible = false] to the shield. *)
Definition state_mounted : App.State R :=
  App.mkState None false
    (Scene3D.mkRig
       (Some (Scene3D.mkGroup false (mkVector3 0 0 0) Quaternion_new))
       (mkVector3 0 0 0) Quaternion_new)
    Shield.Refs_mounted.

(** A frame with an upright open hand at the left edge of the image: wrist
    (0, 1/2), knuckle (0, 3/10), tip (0, 1/20); and the observation
    [onResults] delivers for it, at the right edge of the mirrored view. *)
Definition frame_open_right : MediaPipe.Results R :=
  Spec.frame_of (MediaPipe.mkLandmark 0 (1 / 2) 0)
                (MediaPipe.mkLandmark 0 (3 / 10) 0)
                (MediaPipe.mkLandmark 0 (1 / 20) 0).
Definition open_right : HandData R :=
  mkHandData (mkVector3 1 0 0) (mkQuaternion 0 0 0 1) OPEN.

(** A frame without a hand. *)
Definition frame_no_hand : MediaPipe.Results R := MediaPipe.mkResults None.

(** A tick with a 20 x 10 viewport. *)
Definition tick0 : App.Tick R :=
  App.mkTick (Scene3D.mkViewport 20 10) 0 (1 / 60).

(** The hand is seen open for one tick, then leaves the frame. *)
Definition state_hand_seen : App.State R :=
  App.onFrame frame_open_right state_mounted.
Definition state_hand_left : App.State R :=
  App.onFrame frame_no_hand (App.tick tick0 state_hand_seen).

(** A shield that has shrunk to 1/200 of its size. *)
Definition refs_tiny : Shield.Refs R :=
  Shield.mkRefs
    (Some (Shield.mkGroup (mkVector3 (1 / 200) (1 / 200) (1 / 200)) true))
    (Some Shield.Points_new) (Some Shield.Points_new)
    (Some Shield.Points_new).
End Examples.

(** ** More of the source *)

(** *** HandTracker.tsx: the helper [onResults] declares *)

Module HandTrackerHelpers.
Import MediaPipe.

Section Helpers.
Context {N : Type} `{Number N}.
Local Open Scope js_scope.

(** [isFingerExtended], a closure over [wrist]: the tip is more than 1.5
    times as far from the wrist as the knuckle.  [onResults] declares it and
    never calls it. *)
Definition isFingerExtended (wrist tip mcp : NormalizedLandmark N) : bool :=
  let distTip :=
    Math_sqrt (Math_pow2 (x tip - x wrist) + Math_pow2 (y tip - y wrist)) in
  let distMcp :=
    Math_sqrt (Math_pow2 (x mcp - x wrist) + Math_pow2 (y mcp - y wrist)) in
  distTip >? distMcp * decimal 15 1.
End Helpers.
End HandTrackerHelpers.

(** *** Shield.tsx: the particle geometries

    Each [useMemo] fills [points: number[]] by pushes of three numbers and
    hands it to a buffer attribute of item size 3; a geometry is kept here
    as the list of those triples, [points_array] being the array itself. *)

Module ShieldGeometry.

(** [Math.cos] and [Math.PI]. *)
Class Circle (N : Type) : Type := {
  Math_cos : N -> N;
  Math_PI : N
}.

#[export] Instance R_Circle : Circle R := {|
  Math_cos := cos;
  Math_PI := PI
|}.

Definition points_array {N : Type} (ps : list (Vector3 N)) : list N :=
  flat_map (fun p => [THREE.x p; THREE.y p; THREE.z p]) ps.

Definition spark_r {N : Type} `{Number N} (u : N) : N :=
  let radius := decimal 12 1 in
  (radius + (u - decimal 5 1) * decimal 1 1)%js.

Section Geometry.
Context {N : Type} `{Number N} `{Trig N} `{Circle N}.
Local Open Scope js_scope.

(** The loop counter [i], from 0 while [i < n]. *)
Definition counter (n : nat) : list N :=
  map (fun i => of_Z (Z.of_nat i)) (seq 0 n).

(** 1. Inner square: 100 particles per side, then 150 on each diagonal
    ([particlesPerSide * 1.5] is 150). *)
Definition innerGeometry : list (Vector3 N) :=
  let size := decimal 5 1 in
  let particlesPerSide := of_Z 100 in
  flat_map
    (fun i =>
       let t := (i / particlesPerSide) * two - one in
       [ mkVector3 (t * size) size zero;            (* Top *)
         mkVector3 (t * size) (- size) zero;        (* Bottom *)
         mkVector3 (- size) (t * size) zero;        (* Left *)
         mkVector3 size (t * size) zero ])          (* Right *)
    (counter 100)
  ++
  flat_map
    (fun i =>
       let t := (i / (particlesPerSide * decimal 15 1)) * two - one in
       [ mkVector3 (t * size) (t * size) zero;
         mkVector3 (t * size) ((- t) * size) zero ])
    (counter 150).

(** 2. Middle mandala: the main circle, a six-lobed pattern and an inner
    circle, 600 steps around. *)
Definition middleGeometry : list (Vector3 N) :=
  let count := of_Z 600 in
  let radius := decimal 8 1 in
  flat_map
    (fun i =>
       let theta := (i / count) * Math_PI * two in
       let r2 :=
         radius * (decimal 8 1 + decimal 2 1 * Math_cos (theta * of_Z 6)) in
       [ mkVector3 (Math_cos theta * radius) (Math_sin theta * radius) zero;
         mkVector3 (Math_cos theta * r2) (Math_sin theta * r2) zero;
         mkVector3 (Math_cos theta * (radius * decimal 5 1))
                   (Math_sin theta * (radius * decimal 5 1)) zero ])
    (counter 600).

(** 3. Outer ring of sparks: 400 particles, three calls of [Math.random]
    each; [random k] is the value of the k-th call.  [spark_r] is the
    distance [r] of a spark from the axis, for the draw [u]:
    [radius + (Math.random() - 0.5) * 0.1]. *)
Definition spark (random : nat -> N) (i : nat) : Vector3 N :=
  let theta := random (3 * i)%nat * Math_PI * two in
  let r := spark_r (random (3 * i + 1)%nat) in
  mkVector3 (Math_cos theta * r) (Math_sin theta * r)
            ((random (3 * i + 2)%nat - decimal 5 1) * decimal 1 1).

Definition outerGeometry (random : nat -> N) : list (Vector3 N) :=
  map (spark random) (seq 0 400).
End Geometry.
End ShieldGeometry.

(** *** The application as a loop of events *)

Module AppLoop.

(** What happens to the application: the capture pipeline delivers a frame,
    React renders [CreateRig] again, or the render loop runs a tick. *)
Inductive Event (N : Type) : Type :=
| CameraFrame (results : MediaPipe.Results N)
| Rerender
| AnimationFrame (t : App.Tick N).
Arguments CameraFrame {N} _.
Arguments Rerender {N}.
Arguments AnimationFrame {N} _.

Definition isRerender {N : Type} (e : Event N) : bool :=
  match e with Rerender => true | _ => false end.

(** The number of ticks among the events of a run. *)
Fixpoint ticks_in {N : Type} (es : list (Event N)) : nat :=
  match es with
  | [] => 0
  | AnimationFrame _ :: es' => S (ticks_in es')
  | _ :: es' => ticks_in es'
  end.

Section Run.
Context {N : Type} `{Number N} `{Trig N}.

Definition step (e : Event N) (s : App.State N) : App.State N :=
  match e with
  | CameraFrame results => App.onFrame results s
  | Rerender => App.render s
  | AnimationFrame t => App.tick t s
  end.

Fixpoint run (es : list (Event N)) (s : App.State N) : App.State N :=
  match es with
  | [] => s
  | e :: es' => run es' (step e s)
  end.

(** The application once both components are mounted (the first render
    saw no observation). *)
Definition mounted_state : App.State N :=
  App.mkState None false
    (Scene3D.mkRig
       (Some (Scene3D.mkGroup false (mkVector3 zero zero zero) Quaternion_new))
       (mkVector3 zero zero zero) Quaternion_new)
    Shield.Refs_mounted.

(** The time the ticks of a run add up to. *)
Fixpoint elapsed (ts : list (App.Tick N)) : N :=
  match ts with
  | [] => zero
  | t :: ts' => nadd (App.delta t) (elapsed ts')
  end.
End Run.
End AppLoop.

(** *** Vocabulary for the further properties *)

Module SpecMore.
Import MediaPipe HandTracker.
Local Open Scope R_scope.

(** [v.applyQuaternion(q)] of three.js: the vector [v] rotated by the unit
    quaternion [q]. *)
Definition Vector3_applyQuaternion (v : Vector3 R) (q : Quaternion R)
  : Vector3 R :=
  let tx := 2 * (_y q * THREE.z v - _z q * THREE.y v) in
  let ty := 2 * (_z q * THREE.x v - _x q * THREE.z v) in
  let tz := 2 * (_x q * THREE.y v - _y q * THREE.x v) in
  mkVector3 (THREE.x v + _w q * tx + _y q * tz - _z q * ty)
            (THREE.y v + _w q * ty + _z q * tx - _x q * tz)
            (THREE.z v + _w q * tz + _x q * ty - _y q * tx).

(** The wrist-to-knuckle vector [onResults] normalizes. *)
Definition direction (W M : NormalizedLandmark R) : Vector3 R :=
  mkVector3 ((1 - x M) - (1 - x W)) (- (y M - y W)) 0.

(** [L'] is [L] moved by a similarity of the image plane: scaled by [k],
    possibly mirrored ([s] is 1 or -1), and translated by [(a, b)]. *)
Definition moved (s k a b : R) (L L' : NormalizedLandmark R) : Prop :=
  x L' = s * k * x L + a /\ y L' = k * y L + b.

(** A frame whose wrist, when it reports a hand, is inside the image. *)
Definition wrist_in_image (results : Results R) : Prop :=
  forall W M T, Spec.hand_frame results W M T ->
    0 <= x W <= 1 /\ 0 <= y W <= 1.

(** An event of a run in which every tick sees the viewport [vp] and every
    frame has its wrist inside the image. *)
Definition event_within (vp : Scene3D.Viewport R) (e : AppLoop.Event R)
  : Prop :=
  match e with
  | AppLoop.CameraFrame results => wrist_in_image results
  | AppLoop.Rerender => True
  | AppLoop.AnimationFrame t => App.viewport t = vp
  end.

(** The rig's group holds a copy of the smoothed pose. *)
Definition group_in_sync {N : Type} (r : Scene3D.Rig N) : Prop :=
  exists g, Scene3D.shieldGroupRef r = Some g /\
    Scene3D.position g = Scene3D.smoothedPosition r /\
    Scene3D.quaternion g = Scene3D.smoothedRotation r.

(** The rig's group is shown. *)
Definition group_shown {N : Type} (r : Scene3D.Rig N) : Prop :=
  exists g, Scene3D.shieldGroupRef r = Some g /\ Scene3D.visible g = true.

(** Every orientation the state holds is a unit quaternion. *)
Definition orientations_unit (s : App.State R) : Prop :=
  Spec.unit (Scene3D.smoothedRotation (App.rig s)) /\
  forall d, App.handDataRef s = Some d -> Spec.unit (rotation d).

(** The observation in the slot, if any, is in normalized device
    coordinates. *)
Definition observation_in_ndc (s : App.State R) : Prop :=
  forall d, App.handDataRef s = Some d ->
    Rabs (THREE.x (HandTracker.position d)) <= 1 /\
    Rabs (THREE.y (HandTracker.position d)) <= 1.

(** The shield's scale is the same on the three axes, between 0 and 1. *)
Definition scale_uniform (s : App.State R) : Prop :=
  exists g a, Shield.groupRef (App.shield s) = Some g /\
    Shield.scale g = mkVector3 a a a /\ 0 <= a <= 1.

(** No event of the run is a render of [CreateRig]. *)
Definition no_rerender (es : list (AppLoop.Event R)) : Prop :=
  forallb (fun e => negb (AppLoop.isRerender e)) es = true.

(** The ring [p'] is the ring [p] turned about z by the angle [a]. *)
Definition turned (a : R) (p p' : Shield.Points R) : Prop :=
  THREE.x (Shield.rotation p') = THREE.x (Shield.rotation p) /\
  THREE.y (Shield.rotation p') = THREE.y (Shield.rotation p) /\
  THREE.z (Shield.rotation p') = THREE.z (Shield.rotation p) + a.

(** The smoothed position is on the plane z = 0, inside the viewport. *)
Definition inside_viewport (vp : Scene3D.Viewport R) (p : Vector3 R) : Prop :=
  Rabs (THREE.x p) <= Scene3D.width vp / 2 /\
  Rabs (THREE.y p) <= Scene3D.height vp / 2 /\
  THREE.z p = 0.

(** The squared distance of a point from the z axis. *)
Definition radiusSq (p : Vector3 R) : R :=
  THREE.x p * THREE.x p + THREE.y p * THREE.y p.

(** A particle of the plane z = 0 whose distance from the z axis is between
    [lo] and [hi]. *)
Definition in_annulus (lo hi : R) (p : Vector3 R) : Prop :=
  THREE.z p = 0 /\ lo * lo <= radiusSq p <= hi * hi.

(** A particle of the rune: on the plane z = 0, on a side or on a diagonal
    of the square of half side 1/2, and not on its corner (1/2, 1/2). *)
Definition on_rune (p : Vector3 R) : Prop :=
  THREE.z p = 0 /\
  Rabs (THREE.x p) <= 1 / 2 /\ Rabs (THREE.y p) <= 1 / 2 /\
  (Rabs (THREE.x p) = 1 / 2 \/ Rabs (THREE.y p) = 1 / 2 \/
   Rabs (THREE.x p) = Rabs (THREE.y p)) /\
  ~ (THREE.x p = 1 / 2 /\ THREE.y p = 1 / 2).

(** A spark of the outer ring: between the radii 1.15 and 1.25, within 0.05
    of the plane z = 0. *)
Definition is_spark (p : Vector3 R) : Prop :=
  (115 / 100) * (115 / 100) <= radiusSq p < (125 / 100) * (125 / 100) /\
  - (5 / 100) <= THREE.z p < 5 / 100.

(** What [Math.random] returns: a number of [0, 1). *)
Definition is_random (random : nat -> R) : Prop :=
  forall k, 0 <= random k < 1.

(** A NaN among the coordinates [onResults] reads. *)
Definition has_nan (W M T : NormalizedLandmark float) : bool :=
  existsb PrimFloat.is_nan [x W; y W; x M; y M; x T; y T].
End SpecMore.

(** * Properties *)

Import MediaPipe HandTracker Spec.

(** ** Facts about the two number instances *)

Lemma SFcompare_refl_not_Lt (s : spec_float) : SFcompare s s <> Some Lt.
Proof.
  destruct s as [sg | sg | | sg m e]; try destruct sg; simpl; try discriminate.
  - rewrite Z.compare_refl, Pos.compare_cont_refl. discriminate.
  - rewrite Z.compare_refl, Pos.compare_cont_refl. discriminate.
Qed.

Lemma float_ltb_irrefl (a : float) : PrimFloat.ltb a a = false.
Proof.
  rewrite ltb_spec. unfold SFltb.
  pose proof (SFcompare_refl_not_Lt (Prim2SF a)) as Hc.
  destruct (SFcompare (Prim2SF a) (Prim2SF a)) as [[ | | ] | ]; congruence.
Qed.

Lemma Rltb_irrefl (a : R) : Rltb a a = false.
Proof. unfold Rltb. destruct (Rlt_dec a a); [lra | reflexivity]. Qed.

Lemma Rltb_true (a b : R) : Rltb a b = true <-> (a < b)%R.
Proof. unfold Rltb. destruct (Rlt_dec a b); split; intros; try easy. Qed.

Lemma Rltb_false (a b : R) : Rltb a b = false <-> (b <= a)%R.
Proof.
  unfold Rltb. destruct (Rlt_dec a b); split; intros; try easy; lra.
Qed.

(** ** The landmark interpreter *)

Section InterpreterFacts.
Context {N : Type} `{Number N}.
Local Open Scope js_scope.

(** What [onResults] delivers for a frame with a hand, read off the
    source. *)
Lemma onResults_hand (results : Results N) (W M T : NormalizedLandmark N) :
  hand_frame results W M T ->
  onResults results =
  Delivered (Some (mkHandData
    (mkVector3 ((one - x W) * two - one) (- (y W * two - one)) zero)
    (Quaternion_setFromUnitVectors (mkVector3 zero one zero)
       (Vector3_normalize
          (mkVector3 ((one - x M) - (one - x W)) (- (y M - y W)) zero)))
    (if spec_planarDistance T W >? spec_planarDistance M W * OPEN_RATIO
     then OPEN else FIST))).
Proof.
  intros (landmarks & others & Hm & HW & HM & HT).
  unfold onResults. rewrite Hm, HW, HM, HT. reflexivity.
Qed.

Lemma onResults_no_hand (results : Results N) :
  no_hand results -> onResults results = Delivered None.
Proof. intros [Hn | Hn]; unfold onResults; rewrite Hn; reflexivity. Qed.

(** Every outcome of [onResults], by cases on its input. *)
Lemma onResults_cases (results : Results N) :
  (no_hand results /\ onResults results = Delivered None) \/
  (exists W M T, hand_frame results W M T) \/
  (~ no_hand results /\ onResults results = Threw).
Proof.
  unfold no_hand, hand_frame, onResults.
  destruct (multiHandLandmarks results) as [[ | landmarks others] | ] eqn:Hm.
  - left. auto.
  - destruct (nth_error landmarks 0) as [W | ] eqn:HW;
    destruct (nth_error landmarks 9) as [M | ] eqn:HM;
    destruct (nth_error landmarks 12) as [T | ] eqn:HT;
    try (right; right; split; [intros [? | ?]; discriminate | reflexivity]).
    right; left. exists W, M, T, landmarks, others. auto.
  - left. auto.
Qed.
End InterpreterFacts.

(** C1. For a frame with wrist [W], knuckle [M] and tip [T] the gesture is
    OPEN exactly when the planar distance from [T] to [W] is strictly greater
    than 1.8 times the planar distance from [M] to [W], and FIST otherwise;
    when the two sides are equal the gesture is FIST.  The comparison [<] of
    the number type is only asked to be irreflexive, which holds of IEEE
    doubles and of the reals alike. *)
Theorem gesture_threshold {N : Type} `{Number N}
    (results : Results N) (W M T : NormalizedLandmark N) :
  (forall a : N, (a <? a)%js = false) ->
  hand_frame results W M T ->
  let dTip := spec_planarDistance T W in
  let dBase := spec_planarDistance M W in
  exists d,
    onResults results = Delivered (Some d) /\
    (gesture d = OPEN <-> (dTip >? dBase * OPEN_RATIO)%js = true) /\
    (gesture d = FIST <-> (dTip >? dBase * OPEN_RATIO)%js = false) /\
    (dTip = (dBase * OPEN_RATIO)%js -> gesture d = FIST).
Proof.
  intros Hirr Hf dTip dBase.
  rewrite (onResults_hand Hf). eexists. split; [reflexivity | ].
  fold dTip dBase. simpl gesture.
  repeat split; intros Hg.
  - destruct (nltb _ _); [reflexivity | discriminate].
  - rewrite Hg. reflexivity.
  - destruct (nltb _ _); [discriminate | reflexivity].
  - rewrite Hg. reflexivity.
  - rewrite Hg, Hirr. reflexivity.
Qed.

(** The boundary of C1 on doubles: wrist (0, 0), knuckle (0, 0.25), tip
    (0, 0.45), where dTip = 0.45 = 1.8 * 0.25 and the gesture is FIST. *)
Lemma gesture_threshold_witness :
  let W := mkLandmark 0%float 0%float 0%float in
  let M := mkLandmark 0%float 0.25%float 0%float in
  let T := mkLandmark 0%float (decimal 45 2) 0%float in
  spec_planarDistance T W
    = PrimFloat.mul (spec_planarDistance M W) OPEN_RATIO /\
  exists d,
    onResults (frame_of W M T) = Delivered (Some d) /\
    (gesture d = OPEN <->
     PrimFloat.ltb (PrimFloat.mul (spec_planarDistance M W) OPEN_RATIO)
                   (spec_planarDistance T W) = true) /\
    (gesture d = FIST <->
     PrimFloat.ltb (PrimFloat.mul (spec_planarDistance M W) OPEN_RATIO)
                   (spec_planarDistance T W) = false) /\
    (spec_planarDistance T W
       = PrimFloat.mul (spec_planarDistance M W) OPEN_RATIO ->
     gesture d = FIST).
Proof.
  intros W M T. split; [vm_compute; reflexivity | ].
  apply (@gesture_threshold float float_Number (frame_of W M T) W M T
           float_ltb_irrefl).
  exists (hand21 W M T), []. repeat split; reflexivity.
Defined.

(** C9. Whatever the frame, an observation handed to the stabilizer carries
    OPEN or FIST, never UNKNOWN, and the no-hand case hands over [null]. *)
Theorem gesture_never_unknown {N : Type} `{Number N} (results : Results N) :
  (forall d, onResults results = Delivered (Some d) ->
     (gesture d = OPEN \/ gesture d = FIST) /\ gesture d <> UNKNOWN) /\
  (no_hand results -> onResults results = Delivered None).
Proof.
  split; [ | apply onResults_no_hand].
  intros d Hd.
  destruct (onResults_cases results) as [[_ Hr] | [(W & M & T & Hf) | [_ Hr]]];
    try congruence.
  rewrite (onResults_hand Hf) in Hd. injection Hd as <-. simpl.
  destruct (nltb _ _); split; auto; discriminate.
Qed.

(** C9 on the doubles frame wrist (0.5, 0.5), knuckle (0.5, 0.3), tip
    (0.5, 0.05): the observation delivered carries OPEN. *)
Lemma gesture_never_unknown_witness :
  let d := mkHandData (mkVector3 0%float (-0)%float 0%float)
                      (mkQuaternion 0%float 0%float 0%float 1%float) OPEN in
  (gesture d = OPEN \/ gesture d = FIST) /\ gesture d <> UNKNOWN.
Proof.
  intros d.
  apply (proj1 (@gesture_never_unknown float float_Number
                  (frame_of (mkLandmark 0.5%float 0.5%float 0%float)
                            (mkLandmark 0.5%float (decimal 3 1) 0%float)
                            (mkLandmark 0.5%float (decimal 5 2) 0%float))) d).
  vm_compute. reflexivity.
Defined.

(** The two end-to-end scenarios of the specification, on doubles: the
    extended hand is OPEN at the centre of the view with the identity
    orientation; with the tip at (0.5, 0.45) the gesture is FIST. *)
Lemma end_to_end_doubles :
  onResults (frame_of (mkLandmark 0.5%float 0.5%float 0%float)
                      (mkLandmark 0.5%float (decimal 3 1) 0%float)
                      (mkLandmark 0.5%float (decimal 5 2) 0%float))
  = Delivered (Some (mkHandData
      (mkVector3 0%float (-0)%float 0%float)
      (mkQuaternion 0%float 0%float 0%float 1%float) OPEN)) /\
  onResults (frame_of (mkLandmark 0.5%float 0.5%float 0%float)
                      (mkLandmark 0.5%float (decimal 3 1) 0%float)
                      (mkLandmark 0.5%float (decimal 45 2) 0%float))
  = Delivered (Some (mkHandData
      (mkVector3 0%float (-0)%float 0%float)
      (mkQuaternion 0%float 0%float 0%float 1%float) FIST)).
Proof. split; vm_compute; reflexivity. Qed.

(** ** Doubles that are not numbers *)

Ltac float_unfold :=
  js_unfold;
  change (@nltb float float_Number) with PrimFloat.ltb in *;
  change (@nleb float float_Number) with PrimFloat.leb in *;
  change (@neqb float float_Number) with PrimFloat.eqb in *;
  change (@Math_abs float float_Number) with PrimFloat.abs in *;
  change (@Math_sqrt float float_Number) with PrimFloat.sqrt in *;
  change (@Math_pow2 float float_Number)
    with (fun a : float => PrimFloat.mul a a) in *;
  cbv beta in *.

Lemma SFcompare_refl (s : spec_float) :
  s <> S754_nan -> SFcompare s s = Some Eq.
Proof.
  destruct s as [sg | sg | | sg m e]; try destruct sg; simpl;
    try congruence; intros _;
    rewrite Z.compare_refl, Pos.compare_cont_refl; reflexivity.
Qed.

Lemma is_nan_spec (a : float) :
  PrimFloat.is_nan a = true -> Prim2SF a = S754_nan.
Proof.
  unfold PrimFloat.is_nan. rewrite FloatAxioms.eqb_spec. unfold SFeqb.
  destruct (Prim2SF a) as [sg | sg | | sg m e] eqn:Ha; try reflexivity;
    rewrite SFcompare_refl by discriminate; discriminate.
Qed.

Section NaNPropagation.
Variables a b : float.

Lemma nan_sub_l : Prim2SF a = S754_nan -> Prim2SF (a - b)%float = S754_nan.
Proof. intros Ha. rewrite sub_spec. unfold SF64sub, SFsub. rewrite Ha. reflexivity. Qed.

Lemma nan_sub_r : Prim2SF b = S754_nan -> Prim2SF (a - b)%float = S754_nan.
Proof.
  intros Hb. rewrite sub_spec. unfold SF64sub, SFsub. rewrite Hb.
  destruct (Prim2SF a); reflexivity.
Qed.

Lemma nan_add_l : Prim2SF a = S754_nan -> Prim2SF (a + b)%float = S754_nan.
Proof. intros Ha. rewrite add_spec. unfold SF64add, SFadd. rewrite Ha. reflexivity. Qed.

Lemma nan_add_r : Prim2SF b = S754_nan -> Prim2SF (a + b)%float = S754_nan.
Proof.
  intros Hb. rewrite add_spec. unfold SF64add, SFadd. rewrite Hb.
  destruct (Prim2SF a); reflexivity.
Qed.

Lemma nan_mul_l : Prim2SF a = S754_nan -> Prim2SF (a * b)%float = S754_nan.
Proof. intros Ha. rewrite mul_spec. unfold SF64mul, SFmul. rewrite Ha. reflexivity. Qed.

Lemma nan_mul_r : Prim2SF b = S754_nan -> Prim2SF (a * b)%float = S754_nan.
Proof.
  intros Hb. rewrite mul_spec. unfold SF64mul, SFmul. rewrite Hb.
  destruct (Prim2SF a); reflexivity.
Qed.

Lemma nan_div_r : Prim2SF b = S754_nan -> Prim2SF (a / b)%float = S754_nan.
Proof.
  intros Hb. rewrite div_spec. unfold SF64div, SFdiv. rewrite Hb.
  destruct (Prim2SF a); reflexivity.
Qed.

Lemma nan_opp : Prim2SF a = S754_nan -> Prim2SF (- a)%float = S754_nan.
Proof. intros Ha. rewrite opp_spec. rewrite Ha. reflexivity. Qed.

Lemma nan_eqb_l : Prim2SF a = S754_nan -> PrimFloat.eqb a b = false.
Proof. intros Ha. rewrite eqb_spec. unfold SFeqb, SFcompare. rewrite Ha. reflexivity. Qed.

Lemma nan_sqrt : Prim2SF a = S754_nan -> Prim2SF (PrimFloat.sqrt a) = S754_nan.
Proof. intros Ha. rewrite sqrt_spec. unfold SF64sqrt, SFsqrt. rewrite Ha. reflexivity. Qed.

Lemma nan_ltb_l : Prim2SF a = S754_nan -> PrimFloat.ltb a b = false.
Proof. intros Ha. rewrite ltb_spec. unfold SFltb, SFcompare. rewrite Ha. reflexivity. Qed.

Lemma nan_ltb_r : Prim2SF b = S754_nan -> PrimFloat.ltb a b = false.
Proof.
  intros Hb. rewrite ltb_spec. unfold SFltb, SFcompare. rewrite Hb.
  destruct (Prim2SF a); reflexivity.
Qed.
End NaNPropagation.

(** The three doubles that are not finite. *)
Lemma nan_is_nan (a : float) : Prim2SF a = S754_nan -> a = nan.
Proof. intros Ha. apply Prim2SF_inj. rewrite Ha. reflexivity. Qed.

Lemma is_nan_true (a : float) :
  Prim2SF a = S754_nan -> PrimFloat.is_nan a = true.
Proof. intros Ha. rewrite (nan_is_nan a Ha). reflexivity. Qed.

Lemma isFinite_false (a : float) :
  isFinite a = false -> a = nan \/ a = infinity \/ a = neg_infinity.
Proof.
  unfold isFinite. intros Hf. apply negb_false_iff, orb_true_iff in Hf.
  destruct Hf as [Hn | Hi].
  - left. apply nan_is_nan, is_nan_spec, Hn.
  - right. unfold is_infinity in Hi. rewrite eqb_spec, abs_spec in Hi.
    destruct (Prim2SF a) as [sg | sg | | sg m e] eqn:Ha;
      try (vm_compute in Hi; discriminate).
    destruct sg; [right | left]; apply Prim2SF_inj; rewrite Ha; reflexivity.
Qed.


(** C5. The observation's position is
    [((1 - W.x) * 2 - 1, -(W.y * 2 - 1), 0)] in any arithmetic; in real
    arithmetic a wrist in the unit square lands in [-1,1] x [-1,1] with
    x = 0, 1, 1/2 sent to 1, -1, 0; on doubles the same three values come
    out exactly.  The z component is always 0. *)
Theorem position_mapping :
  (forall (N : Type) (HN : Number N) (results : Results N) W M T,
     hand_frame results W M T ->
     exists d, onResults results = Delivered (Some d) /\
       HandTracker.position d = mkVector3 (spec_ndcX W) (spec_ndcY W) zero) /\
  (forall W : NormalizedLandmark R,
     (0 <= x W <= 1)%R -> (0 <= y W <= 1)%R ->
     spec_ndcX W = ((1 - x W) * 2 - 1)%R /\
     spec_ndcY W = (- (y W * 2 - 1))%R /\
     (-1 <= spec_ndcX W <= 1)%R /\ (-1 <= spec_ndcY W <= 1)%R /\
     (x W = 0%R -> spec_ndcX W = 1%R) /\
     (x W = 1%R -> spec_ndcX W = (-1)%R) /\
     (x W = (1 / 2)%R -> spec_ndcX W = 0%R)) /\
  (forall W : NormalizedLandmark float,
     (x W = 0%float -> spec_ndcX W = 1%float) /\
     (x W = 1%float -> spec_ndcX W = (-1)%float) /\
     (x W = 0.5%float -> spec_ndcX W = 0%float)).
Proof.
  split; [ | split].
  - intros N HN results W M T Hf. rewrite (onResults_hand Hf).
    eexists. split; reflexivity.
  - intros W Hx Hy. unfold spec_ndcX, spec_ndcY. js_unfold.
    repeat split; try lra; intros ->; lra.
  - intros W. unfold spec_ndcX.
    repeat split; intros ->; vm_compute; reflexivity.
Qed.

(** C5 on the wrist (0, 0.5) of a real frame, and on a double frame. *)
Lemma position_mapping_witness :
  (exists d, onResults (frame_of (mkLandmark 0%R (1 / 2)%R 0%R)
                                 (mkLandmark 0%R (3 / 10)%R 0%R)
                                 (mkLandmark 0%R 0%R 0%R))
             = Delivered (Some d) /\
             HandTracker.position d = mkVector3 1%R (- (1 / 2 * 2 - 1))%R 0%R) /\
  spec_ndcX (mkLandmark 0.5%float 0.5%float 0%float) = 0%float.
Proof.
  split.
  - destruct (proj1 position_mapping R R_Number
                (frame_of (mkLandmark 0%R (1 / 2)%R 0%R)
                          (mkLandmark 0%R (3 / 10)%R 0%R)
                          (mkLandmark 0%R 0%R 0%R))
                (mkLandmark 0%R (1 / 2)%R 0%R)
                (mkLandmark 0%R (3 / 10)%R 0%R)
                (mkLandmark 0%R 0%R 0%R)) as (d & Hd & Hp).
    + eexists _, []. repeat split; reflexivity.
    + exists d. split; [exact Hd | ]. rewrite Hp.
      unfold spec_ndcX, spec_ndcY. js_unfold. simpl. f_equal. lra.
  - apply (proj2 (proj2 position_mapping)
             (mkLandmark 0.5%float 0.5%float 0%float)). reflexivity.
Defined.

(** ** Non-finite input *)

(** C3 fails: the frame with wrist (NaN, 0.5), knuckle (0.5, 0.3) and tip
    (0.5, 0.05) is not rejected; it yields an observation whose position and
    orientation carry NaN. *)
Lemma nan_frame_not_rejected :
  let W := mkLandmark nan 0.5%float 0%float in
  let M := mkLandmark 0.5%float (decimal 3 1) 0%float in
  let T := mkLandmark 0.5%float (decimal 5 2) 0%float in
  ~ rejects_non_finite /\
  exists d, onResults (frame_of W M T) = Delivered (Some d) /\
            Vector3_isFinite (HandTracker.position d) = false /\
            Quaternion_isFinite (rotation d) = false.
Proof.
  intros W M T. split.
  - intros Hc.
    assert (Hf : hand_frame (frame_of W M T) W M T)
      by (exists (hand21 W M T), []; repeat split; reflexivity).
    specialize (Hc _ _ _ _ Hf eq_refl). vm_compute in Hc. discriminate.
  - eexists. split; [vm_compute; reflexivity | ]. split; reflexivity.
Qed.

(** C3, amended.  [null] is delivered exactly when no hand is reported; a
    frame that reports a hand with landmarks 0, 9 and 12 always yields an
    observation, whatever its coordinates are.  On doubles, a wrist whose x
    or y is NaN or infinite gives a position with a non-finite component.
    The observation is made of x and y of the wrist, the knuckle and the tip
    and of nothing else (no depth, no other landmark), and the tip enters
    the gesture only: a non-finite value anywhere else does not show in the
    observation, and one in the tip leaves position and orientation as they
    are. *)
Theorem null_only_without_hand :
  (forall (N : Type) (HN : Number N) (results : Results N),
     (onResults results = Delivered None <-> no_hand results) /\
     (forall W M T, hand_frame results W M T ->
        exists d, onResults results = Delivered (Some d))) /\
  (forall (results : Results float) (W M T : NormalizedLandmark float),
     hand_frame results W M T ->
     Landmark_isFinite W = false ->
     exists d, onResults results = Delivered (Some d) /\
       Vector3_isFinite (HandTracker.position d) = false) /\
  (forall (N : Type) (HN : Number N) (results results' : Results N)
          (W M T W' M' T' : NormalizedLandmark N),
     hand_frame results W M T -> hand_frame results' W' M' T' ->
     x W' = x W -> y W' = y W -> x M' = x M -> y M' = y M ->
     exists d d',
       onResults results = Delivered (Some d) /\
       onResults results' = Delivered (Some d') /\
       HandTracker.position d' = HandTracker.position d /\
       rotation d' = rotation d /\
       (x T' = x T -> y T' = y T -> d' = d)).
Proof.
  split; [ | split].
  - intros N HN results. split; [split | ].
    + intros Hr.
      destruct (onResults_cases results)
        as [[Hn _] | [(W & M & T & Hf) | [_ Ht]]];
        [exact Hn | | congruence].
      rewrite (onResults_hand Hf) in Hr. discriminate.
    + apply onResults_no_hand.
    + intros W M T Hf. rewrite (onResults_hand Hf). eexists. reflexivity.
  - intros results W M T Hf Hw. rewrite (onResults_hand Hf).
    eexists. split; [reflexivity | ].
    unfold Landmark_isFinite in Hw. destruct W as [wx wy wz].
    unfold Vector3_isFinite. simpl in *. float_unfold.
    apply andb_false_iff in Hw. destruct Hw as [Hw | Hw];
      apply isFinite_false in Hw; destruct Hw as [-> | [-> | ->]];
      try reflexivity;
      match goal with
      | |- isFinite ?px && _ && _ = false => destruct (isFinite px)
      end; reflexivity.
  - intros N HN results results' W M T W' M' T' Hf Hf' HWx HWy HMx HMy.
    rewrite (onResults_hand Hf), (onResults_hand Hf').
    eexists _, _. split; [reflexivity | split; [reflexivity | ]].
    simpl. rewrite HWx, HWy, HMx, HMy. split; [reflexivity | ].
    split; [reflexivity | ].
    intros HTx HTy. unfold spec_planarDistance.
    rewrite HWx, HWy, HMx, HMy, HTx, HTy. reflexivity.
Qed.

(** The amended C3 on doubles: a frame whose wrist has a NaN coordinate
    yields an observation with a non-finite position; a frame whose tip is
    (NaN, infinity) and whose depths are NaN yields the position and the
    orientation of the frame without them. *)
Lemma null_only_without_hand_witness :
  (exists d,
     onResults (frame_of (mkLandmark nan 0.5%float 0%float)
                         (mkLandmark 0.5%float 0.25%float 0%float)
                         (mkLandmark 0.5%float 0%float 0%float))
     = Delivered (Some d) /\
     Vector3_isFinite (HandTracker.position d) = false) /\
  (exists d d',
     onResults (frame_of (mkLandmark 0.5%float 0.5%float 0%float)
                         (mkLandmark 0.5%float 0.25%float 0%float)
                         (mkLandmark 0.5%float 0%float 0%float))
     = Delivered (Some d) /\
     onResults (frame_of (mkLandmark 0.5%float 0.5%float nan)
                         (mkLandmark 0.5%float 0.25%float nan)
                         (mkLandmark nan infinity nan))
     = Delivered (Some d') /\
     HandTracker.position d' = HandTracker.position d /\
     rotation d' = rotation d).
Proof.
  split.
  - apply (proj1 (proj2 null_only_without_hand)
             (frame_of (mkLandmark nan 0.5%float 0%float)
                       (mkLandmark 0.5%float 0.25%float 0%float)
                       (mkLandmark 0.5%float 0%float 0%float))
             (mkLandmark nan 0.5%float 0%float)
             (mkLandmark 0.5%float 0.25%float 0%float)
             (mkLandmark 0.5%float 0%float 0%float)).
    + eexists _, []. repeat split; reflexivity.
    + reflexivity.
  - destruct (proj2 (proj2 null_only_without_hand) float float_Number
                (frame_of (mkLandmark 0.5%float 0.5%float 0%float)
                          (mkLandmark 0.5%float 0.25%float 0%float)
                          (mkLandmark 0.5%float 0%float 0%float))
                (frame_of (mkLandmark 0.5%float 0.5%float nan)
                          (mkLandmark 0.5%float 0.25%float nan)
                          (mkLandmark nan infinity nan))
                (mkLandmark 0.5%float 0.5%float 0%float)
                (mkLandmark 0.5%float 0.25%float 0%float)
                (mkLandmark 0.5%float 0%float 0%float)
                (mkLandmark 0.5%float 0.5%float nan)
                (mkLandmark 0.5%float 0.25%float nan)
                (mkLandmark nan infinity nan))
      as (d & d' & Hd & Hd' & Hp & Hr & _);
      try reflexivity;
      try (eexists _, []; repeat split; reflexivity).
    exists d, d'. auto.
Defined.

(** ** Orientation *)

Lemma Reqb_true (a b : R) : Reqb a b = true <-> a = b.
Proof. unfold Reqb. destruct (Req_dec_T a b); split; intros; easy. Qed.

Lemma Reqb_false (a b : R) : Reqb a b = false <-> a <> b.
Proof. unfold Reqb. destruct (Req_dec_T a b); split; intros; easy. Qed.

Lemma Rleb_true (a b : R) : Rleb a b = true <-> (a <= b)%R.
Proof. unfold Rleb. destruct (Rle_dec a b); split; intros; easy. Qed.

Lemma Rleb_false (a b : R) : Rleb a b = false <-> (b < a)%R.
Proof.
  unfold Rleb. destruct (Rle_dec a b); split; intros; try easy; lra.
Qed.

Lemma EPSILON_small : (0 < @Number_EPSILON R _ < 1 / 1000000)%R.
Proof.
  unfold Number_EPSILON. js_unfold.
  change (2 ^ 52)%Z with 4503599627370496%Z. lra.
Qed.

(** Deciding the comparisons of reals whose sides [lra] can order. *)
Ltac Rcmp :=
  change (2 ^ 52)%Z with 4503599627370496%Z in *;
  repeat match goal with
  | |- context [Rltb ?a ?b] =>
      first [ rewrite (proj2 (Rltb_true a b)) by lra
            | rewrite (proj2 (Rltb_false a b)) by lra ]
  | |- context [Rleb ?a ?b] =>
      first [ rewrite (proj2 (Rleb_true a b)) by lra
            | rewrite (proj2 (Rleb_false a b)) by lra ]
  | |- context [Reqb ?a ?b] =>
      first [ rewrite (proj2 (Reqb_true a b)) by lra
            | rewrite (proj2 (Reqb_false a b)) by lra ]
  end.

Section QuaternionFacts.
Local Open Scope R_scope.

Lemma Quaternion_length_sqrt (q : Quaternion R) :
  Quaternion_length q = sqrt (Quaternion_lengthSq q).
Proof. reflexivity. Qed.

Lemma lengthSq_nonneg (q : Quaternion R) : 0 <= Quaternion_lengthSq q.
Proof. unfold Quaternion_lengthSq. js_unfold. nra. Qed.

(** In exact arithmetic [normalize] always returns a unit quaternion:
    the identity when the length is 0, the scaled quaternion otherwise. *)
Lemma Quaternion_normalize_unit (q : Quaternion R) :
  Quaternion_lengthSq (Quaternion_normalize q) = 1.
Proof.
  unfold Quaternion_normalize.
  change (neqb (Quaternion_length q) zero) with (Reqb (Quaternion_length q) 0).
  destruct (Reqb (Quaternion_length q) 0) eqn:Hz.
  - unfold Quaternion_lengthSq. simpl. js_unfold. lra.
  - assert (Hnz : Quaternion_length q <> 0).
    { intros He. apply Reqb_true in He. congruence. }
    unfold Quaternion_length, Quaternion_lengthSq in *. simpl. js_unfold.
    set (S := _x q * _x q + _y q * _y q + _z q * _z q + _w q * _w q) in *.
    assert (HS : 0 <= S) by (unfold S; nra).
    pose proof (sqrt_sqrt _ HS) as Hss.
    pose proof (sqrt_pos S) as Hp.
    transitivity (S / (sqrt S * sqrt S)).
    + unfold S. field. exact Hnz.
    + rewrite Hss. field. nra.
Qed.

Lemma Quaternion_normalize_length (q : Quaternion R) :
  Quaternion_length (Quaternion_normalize q) = 1.
Proof.
  rewrite Quaternion_length_sqrt, Quaternion_normalize_unit. apply sqrt_1.
Qed.

Lemma setFromUnitVectors_length (a b : Vector3 R) :
  Quaternion_length (Quaternion_setFromUnitVectors a b) = 1.
Proof.
  unfold Quaternion_setFromUnitVectors.
  destruct (nltb _ _); [destruct (nltb _ _) | ];
    apply Quaternion_normalize_length.
Qed.

(** A zero-length vector is left as it is by [normalize]. *)
Lemma Vector3_normalize_zero (v : Vector3 R) :
  Vector3_length v = 0 -> Vector3_normalize v = mkVector3 0 0 0.
Proof.
  intros Hl. unfold Vector3_normalize, or_else, truthy. rewrite Hl.
  change (@zero R _) with 0. change (@nltb R _) with Rltb.
  rewrite Rltb_irrefl. simpl.
  unfold Vector3_length in Hl. js_unfold.
  apply sqrt_eq_0 in Hl; [ | nra].
  assert (THREE.x v = 0 /\ THREE.y v = 0 /\ THREE.z v = 0) as (Hx & Hy & Hz)
    by (repeat split; nra).
  unfold Vector3_divideScalar, Vector3_multiplyScalar. js_unfold.
  rewrite Hx, Hy, Hz. f_equal; lra.
Qed.

(** The rotation taking "up" to the zero vector, and to "up" itself, is
    the identity. *)
Lemma setFromUnitVectors_up_zero :
  Quaternion_setFromUnitVectors (mkVector3 0 1 0) (mkVector3 0 0 0)
  = mkQuaternion 0 0 0 1.
Proof.
  unfold Quaternion_setFromUnitVectors, Quaternion_normalize,
    Quaternion_length, Vector3_dot.
  simpl. js_unfold. Rcmp.
  replace ((1 * 0 - 0 * 0) * (1 * 0 - 0 * 0) + (0 * 0 - 0 * 0) * (0 * 0 - 0 * 0) +
           (0 * 0 - 1 * 0) * (0 * 0 - 1 * 0) +
           (0 * 0 + 1 * 0 + 0 * 0 + 1) * (0 * 0 + 1 * 0 + 0 * 0 + 1))
    with 1 by lra.
  rewrite sqrt_1. Rcmp. f_equal; lra.
Qed.

Lemma setFromUnitVectors_up_up :
  Quaternion_setFromUnitVectors (mkVector3 0 1 0) (mkVector3 0 1 0)
  = mkQuaternion 0 0 0 1.
Proof.
  unfold Quaternion_setFromUnitVectors, Quaternion_normalize,
    Quaternion_length, Vector3_dot.
  simpl. js_unfold. Rcmp.
  replace ((1 * 0 - 0 * 1) * (1 * 0 - 0 * 1) + (0 * 0 - 0 * 0) * (0 * 0 - 0 * 0) +
           (0 * 1 - 1 * 0) * (0 * 1 - 1 * 0) +
           (0 * 0 + 1 * 1 + 0 * 0 + 1) * (0 * 0 + 1 * 1 + 0 * 0 + 1))
    with (2 * 2) by lra.
  rewrite sqrt_square by lra. Rcmp. f_equal; lra.
Qed.
End QuaternionFacts.

(** ** Rounded arithmetic: what a relative rounding error does to a norm *)

Lemma Rabs_le_bounds (a b : R) : (Rabs a <= b -> - b <= a <= b)%R.
Proof. unfold Rabs. destruct (Rcase_abs a); lra. Qed.

Section RoundedFacts.
Local Open Scope R_scope.

Variable rnd : R -> R.
Variable u : R.
Hypothesis u_small : 0 <= u <= 1 / 1000000000000.
Hypothesis rnd_error : forall a : R, Rabs (rnd a - a) <= u * Rabs a.

Lemma rnd_0 : rnd 0 = 0.
Proof.
  pose proof (rnd_error 0) as H. rewrite Rabs_R0, Rmult_0_r in H.
  replace (rnd 0 - 0) with (rnd 0) in H by ring.
  pose proof (Rabs_pos (rnd 0)) as Hp.
  assert (Hz : Rabs (rnd 0) = 0) by lra.
  destruct (Req_dec (rnd 0) 0) as [He | He]; [exact He | ].
  apply Rabs_no_R0 in He. contradiction.
Qed.

Lemma rnd_nonneg (a : R) : 0 <= a -> (1 - u) * a <= rnd a <= (1 + u) * a.
Proof.
  intros Ha. pose proof (rnd_error a) as H.
  rewrite (Rabs_pos_eq a Ha) in H.
  apply Rabs_le_bounds in H. lra.
Qed.

Lemma rnd_sq (a : R) :
  (1 - 3 * u) * (a * a) <= rnd a * rnd a <= (1 + 3 * u) * (a * a).
Proof.
  pose proof (rnd_error a) as H. apply Rabs_le_bounds in H.
  remember (rnd a - a) as e eqn:He.
  replace (rnd a) with (a + e) by lra. clear He.
  assert (Hm : 0 <= Rabs a) by apply Rabs_pos.
  assert (Hmm : Rabs a * Rabs a = a * a).
  { unfold Rabs. destruct (Rcase_abs a); ring. }
  assert (Hma : - Rabs a <= a <= Rabs a).
  { unfold Rabs. destruct (Rcase_abs a); lra. }
  remember (Rabs a) as m eqn:Em. clear Em.
  assert (Hum : 0 <= u * m) by nra.
  assert (Hee : e * e <= u * m * (u * m)) by nra.
  assert (Huu : u * m * (u * m) <= u * (m * m)).
  { replace (u * m * (u * m)) with (u * u * (m * m)) by ring.
    apply Rmult_le_compat_r; nra. }
  assert (Hae : - (u * (m * m)) <= a * e <= u * (m * m)) by nra.
  nra.
Qed.

Lemma near_rel_rnd (d t x : R) :
  0 <= t -> 0 <= d <= 1 -> near_rel d t x -> near_rel (d + 2 * u) t (rnd x).
Proof.
  unfold near_rel. intros Ht Hd Hx.
  assert (Hx0 : 0 <= x) by nra.
  pose proof (rnd_nonneg Hx0) as Hr. nra.
Qed.

Lemma near_rel_add (d t1 t2 x1 x2 : R) :
  near_rel d t1 x1 -> near_rel d t2 x2 -> near_rel d (t1 + t2) (x1 + x2).
Proof. unfold near_rel. intros H1 H2. lra. Qed.

Lemma near_rel_weaken (d d' t x : R) :
  0 <= t -> d <= d' -> near_rel d t x -> near_rel d' t x.
Proof. unfold near_rel. intros Ht Hd Hx. nra. Qed.

Lemma near_rel_refl (t : R) : near_rel 0 t t.
Proof. unfold near_rel. lra. Qed.

Lemma near_rel_sqrt (d t x : R) :
  0 <= t -> 0 <= d <= 1 -> near_rel d t x -> near_rel d (sqrt t) (sqrt x).
Proof.
  unfold near_rel. intros Ht Hd Hx.
  assert (Hx0 : 0 <= x) by nra.
  pose proof (sqrt_pos t) as Hst. pose proof (sqrt_pos x) as Hsx.
  pose proof (sqrt_sqrt t Ht) as Et. pose proof (sqrt_sqrt x Hx0) as Ex.
  split.
  - destruct (Rle_dec ((1 - d) * sqrt t) (sqrt x)) as [H | H]; [exact H | ].
    apply Rnot_le_lt in H.
    assert (Hsq : sqrt x * sqrt x < (1 - d) * sqrt t * ((1 - d) * sqrt t)).
    { apply Rle_lt_trans with (sqrt x * ((1 - d) * sqrt t)).
      - apply Rmult_le_compat_l; lra.
      - apply Rmult_lt_compat_r; [ | lra].
        apply Rle_lt_trans with (sqrt x); lra. }
    nra.
  - destruct (Rle_dec (sqrt x) ((1 + d) * sqrt t)) as [H | H]; [exact H | ].
    apply Rnot_le_lt in H.
    assert (H0 : 0 <= (1 + d) * sqrt t) by nra.
    assert (Hsq : (1 + d) * sqrt t * ((1 + d) * sqrt t) < sqrt x * sqrt x).
    { apply Rle_lt_trans with ((1 + d) * sqrt t * sqrt x).
      - apply Rmult_le_compat_l; lra.
      - apply Rmult_lt_compat_r; lra. }
    nra.
Qed.

Lemma near_rel_inv (d t x : R) :
  0 < t -> 0 <= d <= 1 / 2 -> near_rel d t x -> near_rel (2 * d) (/ t) (/ x).
Proof.
  unfold near_rel. intros Ht Hd Hx.
  assert (Hx0 : 0 < x) by nra.
  pose proof (Rinv_0_lt_compat t Ht) as Hit.
  pose proof (Rinv_0_lt_compat x Hx0) as Hix.
  assert (Et : t * / t = 1) by (field; lra).
  assert (Ex : x * / x = 1) by (field; lra).
  split.
  - apply Rmult_le_reg_r with x; [exact Hx0 | ].
    replace (/ x * x) with 1 by lra.
    apply Rle_trans with ((1 - 2 * d) * / t * ((1 + d) * t)).
    + apply Rmult_le_compat_l; [ | lra].
      destruct (Rle_dec 0 (1 - 2 * d)); nra.
    + replace ((1 - 2 * d) * / t * ((1 + d) * t))
        with ((1 - 2 * d) * (1 + d) * (t * / t)) by ring.
      rewrite Et. nra.
  - apply Rmult_le_reg_r with x; [exact Hx0 | ].
    replace (/ x * x) with 1 by lra.
    apply Rle_trans with ((1 + 2 * d) * / t * ((1 - d) * t)).
    + replace ((1 + 2 * d) * / t * ((1 - d) * t))
        with ((1 + 2 * d) * (1 - d) * (t * / t)) by ring.
      rewrite Et. nra.
    + apply Rmult_le_compat_l; [nra | lra].
Qed.

Lemma near_rel_mul (d1 d2 t1 t2 x1 x2 : R) :
  0 <= t1 -> 0 <= t2 -> 0 <= d1 <= 1 -> 0 <= d2 <= 1 ->
  near_rel d1 t1 x1 -> near_rel d2 t2 x2 ->
  near_rel (d1 + 2 * d2) (t1 * t2) (x1 * x2).
Proof.
  unfold near_rel. intros Ht1 Ht2 Hd1 Hd2 H1 H2.
  assert (Hx1 : 0 <= x1) by nra. assert (Hx2 : 0 <= x2) by nra.
  assert (Ht : 0 <= t1 * t2) by nra.
  split.
  - apply Rle_trans with ((1 - d1) * t1 * ((1 - d2) * t2)).
    + replace ((1 - d1) * t1 * ((1 - d2) * t2))
        with ((1 - d1) * (1 - d2) * (t1 * t2)) by ring.
      apply Rmult_le_compat_r; [exact Ht | nra].
    + apply Rmult_le_compat; nra.
  - apply Rle_trans with ((1 + d1) * t1 * ((1 + d2) * t2)).
    + apply Rmult_le_compat; nra.
    + replace ((1 + d1) * t1 * ((1 + d2) * t2))
        with ((1 + d1) * (1 + d2) * (t1 * t2)) by ring.
      apply Rmult_le_compat_r; [exact Ht | nra].
Qed.

Lemma near_rel_trans (d1 d2 t y x : R) :
  0 <= t -> 0 <= d1 <= 1 -> 0 <= d2 <= 1 ->
  near_rel d1 t y -> near_rel d2 y x -> near_rel (d1 + 2 * d2) t x.
Proof.
  unfold near_rel. intros Ht Hd1 Hd2 H1 H2.
  assert (Hy : 0 <= y) by nra.
  split.
  - apply Rle_trans with ((1 - d2) * ((1 - d1) * t)).
    + replace ((1 - d2) * ((1 - d1) * t)) with ((1 - d1) * (1 - d2) * t)
        by ring.
      apply Rmult_le_compat_r; [exact Ht | nra].
    + apply Rle_trans with ((1 - d2) * y); [ | lra].
      apply Rmult_le_compat_l; lra.
  - apply Rle_trans with ((1 + d2) * ((1 + d1) * t)).
    + apply Rle_trans with ((1 + d2) * y); [lra | ].
      apply Rmult_le_compat_l; lra.
    + replace ((1 + d2) * ((1 + d1) * t)) with ((1 + d1) * (1 + d2) * t)
        by ring.
      apply Rmult_le_compat_r; [exact Ht | nra].
Qed.

Lemma near_rel_scale (d k t x : R) :
  0 <= k -> near_rel d t x -> near_rel d (k * t) (k * x).
Proof. unfold near_rel. intros Hk Hx. nra. Qed.

Lemma near_rel_zero (d x : R) : near_rel d 0 x -> x = 0.
Proof. unfold near_rel. intros Hx. lra. Qed.

(** The sum of four squares as [Quaternion.length] rounds it. *)
Lemma Rounded_length (a b c d : R) :
  near_rel (10 * u) (sqrt (a * a + b * b + c * c + d * d))
    (@Quaternion_length R (Rounded_Number rnd) (mkQuaternion a b c d)).
Proof.
  unfold Quaternion_length. simpl.
  assert (Hsq : forall v, near_rel (2 * u) (v * v) (rnd (v * v))).
  { intros v. replace (2 * u) with (0 + 2 * u) by ring.
    apply near_rel_rnd; [nra | lra | apply near_rel_refl]. }
  assert (H1 : near_rel (4 * u) (a * a + b * b)
                 (rnd (rnd (a * a) + rnd (b * b)))).
  { replace (4 * u) with (2 * u + 2 * u) by ring.
    apply near_rel_rnd; [nra | lra | ]. apply near_rel_add; apply Hsq. }
  assert (H2 : near_rel (6 * u) (a * a + b * b + c * c)
                 (rnd (rnd (rnd (a * a) + rnd (b * b)) + rnd (c * c)))).
  { replace (6 * u) with (4 * u + 2 * u) by ring.
    apply near_rel_rnd; [nra | lra | ]. apply near_rel_add; [exact H1 | ].
    apply near_rel_weaken with (2 * u); [nra | lra | apply Hsq]. }
  assert (H3 : near_rel (8 * u) (a * a + b * b + c * c + d * d)
                 (rnd (rnd (rnd (rnd (a * a) + rnd (b * b)) + rnd (c * c))
                       + rnd (d * d)))).
  { replace (8 * u) with (6 * u + 2 * u) by ring.
    apply near_rel_rnd; [nra | lra | ]. apply near_rel_add; [exact H2 | ].
    apply near_rel_weaken with (2 * u); [nra | lra | apply Hsq]. }
  replace (10 * u) with (8 * u + 2 * u) by ring.
  apply near_rel_rnd; [apply sqrt_pos | lra | ].
  apply near_rel_sqrt; [nra | lra | exact H3].
Qed.

(** [Quaternion.normalize] in rounded arithmetic returns a quaternion whose
    exact norm is 1 up to 138 rounding errors. *)
Lemma Rounded_normalize (q : Quaternion R) :
  near_rel (138 * u) 1
    (@Quaternion_length R R_Number
       (@Quaternion_normalize R (Rounded_Number rnd) q)).
Proof.
  destruct q as [a b c d].
  pose proof (Rounded_length a b c d) as Hl.
  unfold Quaternion_normalize.
  remember (@Quaternion_length R (Rounded_Number rnd) (mkQuaternion a b c d))
    as l eqn:El. clear El.
  remember (a * a + b * b + c * c + d * d) as S eqn:ES.
  assert (HS : 0 <= S) by nra.
  assert (Ho : near_rel (2 * u) 1 (rnd 1)).
  { replace (2 * u) with (0 + 2 * u) by ring.
    apply near_rel_rnd; [lra | lra | apply near_rel_refl]. }
  simpl. rewrite rnd_0.
  destruct (Reqb l 0) eqn:Hz.
  - unfold Quaternion_length. simpl.
    replace (0 * 0 + 0 * 0 + 0 * 0 + rnd 1 * rnd 1) with (rnd 1 * rnd 1)
      by ring.
    rewrite sqrt_square by (unfold near_rel in Ho; lra).
    apply near_rel_weaken with (2 * u); [lra | lra | exact Ho].
  - apply Reqb_false in Hz.
    assert (Hs : 0 < sqrt S).
    { destruct (Rle_lt_or_eq_dec 0 (sqrt S) (sqrt_pos S)) as [H | H];
        [exact H | ].
      rewrite <- H in Hl. apply near_rel_zero in Hl. contradiction. }
    assert (Hil : near_rel (20 * u) (/ sqrt S) (/ l)).
    { replace (20 * u) with (2 * (10 * u)) by ring.
      apply near_rel_inv; [exact Hs | lra | exact Hl]. }
    pose proof (Rinv_0_lt_compat _ Hs) as His.
    assert (Hl' : near_rel (44 * u) (/ sqrt S) (rnd (rnd 1 / l))).
    { replace (44 * u) with (42 * u + 2 * u) by ring.
      apply near_rel_rnd; [lra | lra | ].
      replace (/ sqrt S) with (1 * / sqrt S) by ring.
      replace (42 * u) with (2 * u + 2 * (20 * u)) by ring.
      apply near_rel_mul; try lra; assumption. }
    remember (rnd (rnd 1 / l)) as l' eqn:El'. clear El'.
    assert (Hl2 : near_rel (132 * u) (/ S) (l' * l')).
    { replace (/ S) with (/ sqrt S * / sqrt S).
      - replace (132 * u) with (44 * u + 2 * (44 * u)) by ring.
        apply near_rel_mul; try lra; assumption.
      - rewrite <- Rinv_mult. rewrite sqrt_sqrt by exact HS. reflexivity. }
    assert (Hc : forall v, near_rel (138 * u) (v * v * / S)
                             (rnd (v * l') * rnd (v * l'))).
    { intros v. replace (138 * u) with (132 * u + 2 * (3 * u)) by ring.
      assert (Hv : 0 <= v * v) by nra.
      assert (HiS : 0 < / S).
      { apply Rinv_0_lt_compat.
        rewrite <- (sqrt_sqrt S HS). apply Rmult_lt_0_compat; exact Hs. }
      apply near_rel_trans with (v * l' * (v * l')); try lra.
      - apply Rmult_le_pos; lra.
      - replace (v * l' * (v * l')) with (v * v * (l' * l')) by ring.
        apply near_rel_scale; assumption.
      - pose proof (rnd_sq (v * l')) as Hr. unfold near_rel. exact Hr. }
    unfold Quaternion_length. simpl.
    replace 1 with (sqrt 1) at 1 by apply sqrt_1.
    assert (HSS : S * / S = 1).
    { apply Rinv_r. intros H0. rewrite H0, sqrt_0 in Hs. lra. }
    apply near_rel_sqrt; [lra | lra | ].
    replace 1 with (a * a * / S + b * b * / S + c * c * / S + d * d * / S)
      by (rewrite <- HSS, ES; ring).
    repeat apply near_rel_add; apply Hc.
Qed.

(** Hence its norm is within 1e-6 of 1. *)
Lemma Rounded_normalize_near_unit (q : Quaternion R) :
  Rabs (@Quaternion_length R R_Number
          (@Quaternion_normalize R (Rounded_Number rnd) q) - 1)
  < 1 / 1000000.
Proof.
  pose proof (Rounded_normalize q) as H. unfold near_rel in H.
  apply Rabs_def1; lra.
Qed.
End RoundedFacts.


(** A NaN in the direction reaches every component of the orientation. *)
Section NaNOrientation.

Lemma nan_Quaternion_normalize (q : Quaternion float) :
  Prim2SF (_w q) = S754_nan ->
  let q' := Quaternion_normalize q in
  Prim2SF (_x q') = S754_nan /\ Prim2SF (_y q') = S754_nan /\
  Prim2SF (_z q') = S754_nan /\ Prim2SF (_w q') = S754_nan.
Proof.
  intros Hw. unfold Quaternion_normalize.
  assert (Hl : Prim2SF (Quaternion_length q) = S754_nan).
  { unfold Quaternion_length. float_unfold.
    apply nan_sqrt, nan_add_r, nan_mul_l, Hw. }
  assert (Hz : (Quaternion_length q === zero)%js = false)
    by (float_unfold; apply nan_eqb_l, Hl).
  rewrite Hz. simpl. float_unfold.
  repeat split; apply nan_mul_r, nan_div_r, Hl.
Qed.

Lemma nan_Vector3_normalize (v : Vector3 float) :
  Prim2SF (THREE.x v) = S754_nan \/ Prim2SF (THREE.y v) = S754_nan ->
  Prim2SF (THREE.x (Vector3_normalize v)) = S754_nan \/
  Prim2SF (THREE.y (Vector3_normalize v)) = S754_nan.
Proof.
  intros Hv. unfold Vector3_normalize, Vector3_divideScalar,
    Vector3_multiplyScalar. simpl. float_unfold.
  destruct Hv as [Hv | Hv]; [left | right]; apply nan_mul_l, Hv.
Qed.

Lemma nan_setFromUnitVectors (v : Vector3 float) :
  Prim2SF (THREE.x v) = S754_nan \/ Prim2SF (THREE.y v) = S754_nan ->
  let q := Quaternion_setFromUnitVectors (mkVector3 zero one zero) v in
  Prim2SF (_x q) = S754_nan /\ Prim2SF (_y q) = S754_nan /\
  Prim2SF (_z q) = S754_nan /\ Prim2SF (_w q) = S754_nan.
Proof.
  intros Hv. unfold Quaternion_setFromUnitVectors.
  assert (Hr : Prim2SF (Vector3_dot (mkVector3 zero one zero) v + one)%js
               = S754_nan).
  { unfold Vector3_dot. simpl. float_unfold. apply nan_add_l.
    destruct Hv as [Hv | Hv].
    - apply nan_add_l, nan_add_l, nan_mul_r, Hv.
    - apply nan_add_l, nan_add_r, nan_mul_r, Hv. }
  assert (Hlt : (Vector3_dot (mkVector3 zero one zero) v + one
                 <? Number_EPSILON)%js = false)
    by (float_unfold; apply nan_ltb_l, Hr).
  rewrite Hlt. apply nan_Quaternion_normalize. exact Hr.
Qed.
End NaNOrientation.

(** On doubles finite coordinates are not enough either: with the wrist at
    x = -2^1023 and the knuckle at x = 2^1023 the direction overflows and
    the orientation has four NaN components. *)
Lemma overflow_orientation :
  exists d,
    onResults (frame_of (mkLandmark (-0x1p1023)%float 0.5%float 0%float)
                        (mkLandmark 0x1p1023%float 0.5%float 0%float)
                        (mkLandmark 0.5%float 0.25%float 0%float))
    = Delivered (Some d) /\
    Landmark_isFinite (mkLandmark (-0x1p1023)%float 0.5%float 0%float)
    && Landmark_isFinite (mkLandmark 0x1p1023%float 0.5%float 0%float) = true /\
    PrimFloat.is_nan (_x (rotation d)) && PrimFloat.is_nan (_y (rotation d)) &&
    PrimFloat.is_nan (_z (rotation d)) && PrimFloat.is_nan (_w (rotation d))
    = true.
Proof.
  eexists. split; [vm_compute; reflexivity | split; reflexivity].
Qed.

Section RoundedOrientation.
Local Open Scope R_scope.

(** What [rounding] gives: the relative error bound in the form the facts
    on rounded arithmetic use. *)
Lemma rounding_error (rnd : R -> R) :
  rounding rnd ->
  forall a : R,
    (Rabs (rnd a - a) <= 1 / 9007199254740992 * Rabs a)%R.
Proof. intros [Hr _] a. specialize (Hr a). lra. Qed.

Lemma unit_roundoff_small :
  (0 <= 1 / 9007199254740992 <= 1 / 1000000000000)%R.
Proof. lra. Qed.

(** With wrist and knuckle at the same place every intermediate value of
    the orientation is 0 or 1, which rounding keeps. *)
Lemma Rounded_degenerate (rnd : R -> R) (Wx Wy : R) :
  rounding rnd ->
  @Quaternion_setFromUnitVectors R (Rounded_Number rnd)
    (mkVector3 (@zero R (Rounded_Number rnd)) (@one R (Rounded_Number rnd))
               (@zero R (Rounded_Number rnd)))
    (@Vector3_normalize R (Rounded_Number rnd)
       (mkVector3
          (@nsub R (Rounded_Number rnd)
             (@nsub R (Rounded_Number rnd) (@one R (Rounded_Number rnd)) Wx)
             (@nsub R (Rounded_Number rnd) (@one R (Rounded_Number rnd)) Wx))
          (@nneg R (Rounded_Number rnd) (@nsub R (Rounded_Number rnd) Wy Wy))
          (@zero R (Rounded_Number rnd))))
  = mkQuaternion 0%R 0%R 0%R 1%R.
Proof.
  intros Hr. pose proof (rounding_error Hr) as He.
  pose proof unit_roundoff_small as Hu.
  pose proof (@rnd_0 rnd _ He) as r0. destruct Hr as [_ r1].
  unfold Quaternion_setFromUnitVectors, Vector3_normalize,
    Vector3_divideScalar, Vector3_multiplyScalar, Vector3_length, Vector3_dot,
    or_else, truthy, Quaternion_normalize, Quaternion_length,
    Number_EPSILON, zero, one.
  simpl.
  repeat rewrite ?r0, ?r1, ?Rminus_diag, ?Ropp_0, ?Rmult_0_l, ?Rmult_0_r,
    ?Rplus_0_l, ?Rplus_0_r, ?sqrt_0, ?Rmult_1_l, ?Rmult_1_r, ?sqrt_1.
  change (IZR (Z.pow_pos 2 52)) with 4503599627370496%R.
  assert (Hbig : (2 <= rnd 4503599627370496)%R).
  { pose proof (@rnd_nonneg rnd _ He 4503599627370496%R ltac:(lra)). lra. }
  assert (Heps : (rnd (1 / rnd 4503599627370496) < 1)%R).
  { assert (Hi : (0 < 1 / rnd 4503599627370496 <= 1 / 2)%R).
    { split.
      - apply Rdiv_lt_0_compat; lra.
      - apply Rmult_le_reg_r with (rnd 4503599627370496); [lra | ].
        replace (1 / rnd 4503599627370496 * rnd 4503599627370496)%R
          with 1%R by (field; lra).
        lra. }
    pose proof (@rnd_nonneg rnd _ He _ (Rlt_le _ _ (proj1 Hi))). lra. }
  replace (Rltb 1 (rnd (1 / rnd 4503599627370496)))%R with false
    by (symmetry; apply Rltb_false; lra).
  replace (Reqb 1 0)%R with false by (symmetry; apply Reqb_false; lra).
  replace (1 / 1)%R with 1%R by lra.
  rewrite !r1. reflexivity.
Qed.
End RoundedOrientation.



(** On doubles, frames with finite coordinates in the unit square: a
    diagonal hand, a hand pointing down, and wrist and knuckle coincident
    all yield a finite orientation of norm within 1e-6 of 1; the last one
    is the identity (up to the sign of a zero). *)
Lemma orientation_unit_doubles :
  (forall M,
     In M [mkLandmark 0.75%float 0.25%float 0%float;
           mkLandmark 0.5%float 0.75%float 0%float;
           mkLandmark 0.125%float 0.625%float 0%float;
           mkLandmark 0.5%float 0.5%float 0%float] ->
     exists d,
       onResults (frame_of (mkLandmark 0.5%float 0.5%float 0%float) M
                           (mkLandmark 0.875%float 0.125%float 0%float))
       = Delivered (Some d) /\
       near_unit (rotation d) = true) /\
  exists d,
    onResults (frame_of (mkLandmark 0.5%float 0.5%float 0%float)
                        (mkLandmark 0.5%float 0.5%float 0%float)
                        (mkLandmark 0.875%float 0.125%float 0%float))
    = Delivered (Some d) /\
    rotation d = mkQuaternion 0%float 0%float (-0)%float 1%float.
Proof.
  split.
  - intros M [<- | [<- | [<- | [<- | []]]]];
      eexists; (split; [vm_compute; reflexivity | vm_compute; reflexivity]).
  - eexists. split; vm_compute; reflexivity.
Qed.

(** ** The example frames *)

Import Scene3D App Examples.

(** The example frame with an open hand yields the observation
    [open_right]: gesture OPEN (dTip = 9/20 > 1.8 * 1/5), position (1, 0, 0),
    orientation the identity. *)
Lemma onResults_frame_open_right :
  onResults frame_open_right = Delivered (Some open_right).
Proof.
  unfold frame_open_right.
  rewrite (@onResults_hand R _ _ (mkLandmark 0 (1 / 2) 0)%R
             (mkLandmark 0 (3 / 10) 0)%R (mkLandmark 0 (1 / 20) 0)%R)
    by (eexists _, []; repeat split; reflexivity).
  unfold open_right. do 2 f_equal. apply f_equal3.
  - simpl. js_unfold. apply f_equal3; lra.
  - unfold Vector3_normalize, Vector3_divideScalar, Vector3_multiplyScalar,
      or_else, truthy, Vector3_length. simpl. js_unfold.
    replace ((1 - 0 - (1 - 0)) * (1 - 0 - (1 - 0)) +
             - (3 / 10 - 1 / 2) * - (3 / 10 - 1 / 2) + 0 * 0)%R
      with (1 / 5 * (1 / 5))%R by lra.
    rewrite sqrt_square by lra. Rcmp. simpl.
    match goal with
    | |- Quaternion_setFromUnitVectors _ ?v = _ =>
        replace v with (mkVector3 0%R 1%R 0%R) by (apply f_equal3; lra)
    end.
    apply setFromUnitVectors_up_up.
  - unfold spec_planarDistance, OPEN_RATIO. simpl. js_unfold.
    replace ((0 - 0) * (0 - 0) + (1 / 20 - 1 / 2) * (1 / 20 - 1 / 2))%R
      with (9 / 20 * (9 / 20))%R by lra.
    replace ((0 - 0) * (0 - 0) + (3 / 10 - 1 / 2) * (3 / 10 - 1 / 2))%R
      with (1 / 5 * (1 / 5))%R by lra.
    rewrite !sqrt_square by lra. Rcmp. reflexivity.
Qed.

Lemma state_hand_seen_eq :
  state_hand_seen = handleHandUpdate (Some open_right) state_mounted.
Proof.
  unfold state_hand_seen, onFrame. rewrite onResults_frame_open_right.
  reflexivity.
Qed.

(** ** The rig: one render tick *)

Section RigFacts.
Context {N : Type} `{Number N} `{Trig N}.

(** Without an open hand the callback of the rig changes nothing. *)
Lemma CreateRig_useFrame_idle (vp : Viewport N)
    (handData : option (HandData N)) (r : Rig N) :
  isOpen handData = false -> CreateRig_useFrame vp handData r = r.
Proof.
  intros Hi. unfold CreateRig_useFrame.
  destruct (shieldGroupRef r); [ | reflexivity].
  destruct handData as [d | ]; [ | reflexivity].
  simpl in Hi. rewrite Hi. reflexivity.
Qed.

Lemma isOpen_idle (handData : option (HandData N)) :
  (handData = None \/ exists d, handData = Some d /\ gesture d = FIST) ->
  isOpen handData = false.
Proof. intros [-> | (d & -> & Hg)]; simpl; [ | rewrite Hg]; reflexivity. Qed.
End RigFacts.

(** The [visible] prop of the shield is the rig's "target active" flag as
    it stood at the latest render: later hand updates do not change it. *)
Lemma visibleProp_render {N : Type} `{Number N}
    (s : State N) (data : option (HandData N)) :
  visibleProp (render s) = isOpen (handDataRef s) /\
  visibleProp (handleHandUpdate data (render s)) = isOpen (handDataRef s).
Proof. split; reflexivity. Qed.

(** C10. On a tick whose latest observation is absent or FIST the rig is
    left exactly as it was (smoothed position and orientation, and the
    group's position, quaternion and visibility); so is the hand-off slot.
    What the tick does update is the shield's scale, by one lerp step toward
    the value its [visible] prop selects. *)
Theorem idle_tick_keeps_pose {N : Type} `{Number N} `{Trig N}
    (t : Tick N) (s : State N) :
  (handDataRef s = None \/
   exists d, handDataRef s = Some d /\ gesture d = FIST) ->
  rig (tick t s) = rig s /\
  handDataRef (tick t s) = handDataRef s /\
  visibleProp (tick t s) = visibleProp s /\
  (forall g, Shield.groupRef (shield s) = Some g ->
     exists g', Shield.groupRef (shield (tick t s)) = Some g' /\
       let target := if visibleProp s then one else zero in
       Shield.scale g' =
       Vector3_lerp (Shield.scale g) (mkVector3 target target target) ALPHA).
Proof.
  intros Hobs. simpl. repeat split.
  - apply CreateRig_useFrame_idle, isOpen_idle, Hobs.
  - intros g Hg. unfold Shield.useFrame. rewrite Hg.
    destruct (_ && _); eexists; split; reflexivity.
Qed.


(** C10 on the mounted application with no observation. *)
Lemma idle_tick_keeps_pose_witness :
  rig (tick tick0 state_mounted) = rig state_mounted.
Proof.
  exact (proj1 (@idle_tick_keeps_pose R R_Number R_Trig tick0 state_mounted
                  (or_introl eq_refl))).
Defined.

(** ** The shield: scale animation and cutoff *)

Section ShieldFacts.
Context {N : Type} `{Number N} `{Trig N}.
Local Open Scope js_scope.

(** The scale is interpolated on every tick of a mounted shield, before
    anything else is decided. *)
Lemma useFrame_scale (visible : bool) (elapsedTime delta : N)
    (refs : Shield.Refs N) (g : Shield.Group N) :
  Shield.groupRef refs = Some g ->
  let target := if visible then one else zero in
  let scale' :=
    Vector3_lerp (Shield.scale g) (mkVector3 target target target)
                 (decimal 1 1) in
  exists vis,
    Shield.groupRef (Shield.useFrame visible elapsedTime delta refs)
    = Some (Shield.mkGroup scale' vis) /\
    vis = negb ((THREE.x scale' <? Shield.CUTOFF) && negb visible).
Proof.
  intros Hg. simpl. unfold Shield.useFrame. rewrite Hg.
  destruct (_ && _) eqn:Hc; eexists; split; reflexivity.
Qed.

(** When the interpolated scale is under the cutoff and the shield is
    not wanted, the group is hidden and no ring is rotated. *)
Lemma useFrame_cutoff (elapsedTime delta : N)
    (refs : Shield.Refs N) (g : Shield.Group N) :
  Shield.groupRef refs = Some g ->
  let scale' :=
    Vector3_lerp (Shield.scale g) (mkVector3 zero zero zero) (decimal 1 1) in
  (THREE.x scale' <? Shield.CUTOFF) = true ->
  Shield.useFrame false elapsedTime delta refs
  = Shield.mkRefs (Some (Shield.mkGroup scale' false))
      (Shield.innerRef refs) (Shield.middleRef refs) (Shield.outerRef refs).
Proof.
  intros Hg scale' Hc. unfold Shield.useFrame. rewrite Hg.
  fold scale'. rewrite Hc. reflexivity.
Qed.
End ShieldFacts.

(** C7 fails in its last clause: on the shield shrunk to 1/200, not wanted,
    the tick still moves the scale (to 9/2000). *)
Lemma cutoff_keeps_smoothing : ~ cutoff_stops_smoothing.
Proof.
  intros Hc.
  specialize (Hc 0%R (1 / 60)%R refs_tiny _ eq_refl).
  assert (Hlt : (THREE.x (mkVector3 (1 / 200) (1 / 200) (1 / 200)) < 1 / 100)%R)
    by (simpl; lra).
  destruct (@useFrame_scale R _ _ false 0%R (1 / 60)%R refs_tiny _ eq_refl)
    as (vis & Hg' & _).
  specialize (Hc Hlt _ Hg'). simpl in Hc.
  apply (f_equal (@THREE.x R)) in Hc. simpl in Hc. js_unfold. lra.
Qed.

(** C7, amended.  On a tick where the scale is below 0.01 and the shield's
    [visible] prop is false, the group is marked invisible and the three
    ring rotations are left untouched; the scale itself is still smoothed on
    that tick, by the same lerp step toward 0 (each component is multiplied
    by 0.9). *)
Theorem cutoff_hides_and_skips (elapsedTime delta : R)
    (refs : Shield.Refs R) (g : Shield.Group R) :
  Shield.groupRef refs = Some g ->
  (THREE.x (Shield.scale g) < 1 / 100)%R ->
  let refs' := Shield.useFrame false elapsedTime delta refs in
  let scale' :=
    Vector3_lerp (Shield.scale g) (mkVector3 0%R 0%R 0%R) (1 / 10)%R in
  Shield.groupRef refs' = Some (Shield.mkGroup scale' false) /\
  Shield.innerRef refs' = Shield.innerRef refs /\
  Shield.middleRef refs' = Shield.middleRef refs /\
  Shield.outerRef refs' = Shield.outerRef refs /\
  THREE.x scale' = (9 / 10 * THREE.x (Shield.scale g))%R.
Proof.
  intros Hg Hlt refs' scale'.
  assert (Hx : THREE.x scale' = (9 / 10 * THREE.x (Shield.scale g))%R).
  { unfold scale'. simpl. js_unfold. lra. }
  assert (Hr : refs' = Shield.mkRefs (Some (Shield.mkGroup scale' false))
             (Shield.innerRef refs) (Shield.middleRef refs)
             (Shield.outerRef refs)).
  { unfold refs'.
    rewrite (@useFrame_cutoff R _ _ elapsedTime delta refs g Hg);
      [reflexivity | ].
    change (Rltb (THREE.x scale') (1 / 100) = true).
    apply Rltb_true. rewrite Hx. lra. }
  rewrite Hr. simpl. repeat split. exact Hx.
Qed.

(** The amended C7 on the shield shrunk to 1/200. *)
Lemma cutoff_hides_and_skips_witness :
  Shield.groupRef (Shield.useFrame false 0%R (1 / 60)%R refs_tiny)
  = Some (Shield.mkGroup
            (Vector3_lerp (mkVector3 (1 / 200) (1 / 200) (1 / 200))%R
                          (mkVector3 0%R 0%R 0%R) (1 / 10)%R)
            false).
Proof.
  refine (proj1 (@cutoff_hides_and_skips 0%R (1 / 60)%R refs_tiny _ eq_refl _)).
  simpl. lra.
Defined.

(** ** A run of ticks with no hand *)

Lemma pow_9_10_le_1 (n : nat) : (0 <= (9 / 10) ^ n <= 1)%R.
Proof.
  induction n as [ | n IH]; simpl; [lra | ]. nra.
Qed.

Lemma pow_9_10_44 (n : nat) : (44 <= n)%nat -> ((9 / 10) ^ n < 1 / 100)%R.
Proof.
  intros Hn. replace n with (44 + (n - 44))%nat by lia.
  rewrite pow_add.
  pose proof (pow_9_10_le_1 (n - 44)) as Hk.
  assert (H44 : (0 < (9 / 10) ^ 44 < 1 / 100)%R) by (simpl; lra).
  nra.
Qed.

(** With no observation and the shield not wanted, a run of ticks leaves
    the rig alone and multiplies the shield's scale by 0.9 per tick. *)
Lemma ticks_no_hand (ts : list (Tick R)) : forall s : State R,
  handDataRef s = None -> visibleProp s = false ->
  rig (ticks ts s) = rig s /\
  forall a, activation s = Some a ->
    activation (ticks ts s) = Some ((9 / 10) ^ length ts * a)%R.
Proof.
  induction ts as [ | t ts IH]; intros s Hh Hv.
  - simpl. split; [reflexivity | ]. intros a ->. f_equal. lra.
  - destruct (IH (tick t s) Hh Hv) as [IHr IHa]. simpl ticks. split.
    + rewrite IHr. simpl. apply CreateRig_useFrame_idle. rewrite Hh. reflexivity.
    + intros a Ha. unfold activation in Ha.
      destruct (Shield.groupRef (shield s)) as [g | ] eqn:Hg; [ | discriminate].
      injection Ha as Ha.
      destruct (@useFrame_scale R _ _ (visibleProp s) (elapsedTime t) (delta t)
                  (shield s) g Hg) as (vis & Hg' & _).
      rewrite (IHa ((9 / 10) * a)%R).
      * f_equal. simpl. lra.
      * unfold activation. simpl shield. rewrite Hg'. simpl. f_equal.
        rewrite Hv, Ha. js_unfold. lra.
Qed.

Lemma tick_mounted (t : Tick R) (s : State R) :
  mounted s -> mounted (tick t s).
Proof.
  intros [(g & Hg) (g' & Hg')]. split.
  - simpl. unfold CreateRig_useFrame. rewrite Hg.
    destruct (handDataRef s) as [d | ]; [ | rewrite Hg; eauto].
    destruct (Gesture_eqb (gesture d) OPEN);
      [eexists; reflexivity | rewrite Hg; eauto].
  - destruct (@useFrame_scale R _ _ (visibleProp s) (elapsedTime t) (delta t)
                (shield s) g' Hg') as (vis & Hs & _).
    simpl. eauto.
Qed.




(** ** Smoothing toward a fixed target *)

(** *** Linear interpolation *)

Section LerpFacts.
Local Open Scope R_scope.

Lemma lerp_step_between (v t : R) : between v t (v + (t - v) * (1 / 10)).
Proof.
  unfold between, Rmin, Rmax. destruct (Rle_dec v t); lra.
Qed.

Lemma lerp_run_component (f : Vector3 R -> R) (target start : Vector3 R) :
  (forall v, f (Vector3_lerp v target Scene3D.ALPHA)
             = f v + (f target - f v) * (1 / 10)) ->
  forall n, f (lerp_run target start n) - f target
            = (9 / 10) ^ n * (f start - f target).
Proof.
  intros Hf n. induction n as [ | n IH].
  - simpl. lra.
  - change (lerp_run target start (S n))
      with (Vector3_lerp (lerp_run target start n) target Scene3D.ALPHA).
    rewrite Hf. simpl pow.
    replace (9 / 10 * (9 / 10) ^ n * (f start - f target))
      with (9 / 10 * ((9 / 10) ^ n * (f start - f target))) by ring.
    rewrite <- IH. lra.
Qed.

Lemma lerp_run_x target start n :
  THREE.x (lerp_run target start n) - THREE.x target
  = (9 / 10) ^ n * (THREE.x start - THREE.x target).
Proof.
  apply (lerp_run_component (@THREE.x R)). intros v. simpl. js_unfold. lra.
Qed.

Lemma lerp_run_y target start n :
  THREE.y (lerp_run target start n) - THREE.y target
  = (9 / 10) ^ n * (THREE.y start - THREE.y target).
Proof.
  apply (lerp_run_component (@THREE.y R)). intros v. simpl. js_unfold. lra.
Qed.

Lemma lerp_run_z target start n :
  THREE.z (lerp_run target start n) - THREE.z target
  = (9 / 10) ^ n * (THREE.z start - THREE.z target).
Proof.
  apply (lerp_run_component (@THREE.z R)). intros v. simpl. js_unfold. lra.
Qed.

(** The distance to the target is multiplied by 0.9 at each step. *)
Lemma lerp_run_distance target start n :
  Vector3_distance (lerp_run target start n) target
  = (9 / 10) ^ n * Vector3_distance start target.
Proof.
  unfold Vector3_distance, Vector3_length. simpl. js_unfold.
  rewrite lerp_run_x, lerp_run_y, lerp_run_z.
  set (k := (9 / 10) ^ n).
  assert (Hk : 0 <= k) by apply pow_9_10_le_1.
  set (dx := THREE.x start - THREE.x target).
  set (dy := THREE.y start - THREE.y target).
  set (dz := THREE.z start - THREE.z target).
  replace (k * dx * (k * dx) + k * dy * (k * dy) + k * dz * (k * dz))
    with (k * k * (dx * dx + dy * dy + dz * dz)) by ring.
  rewrite sqrt_mult_alt by nra. rewrite sqrt_square by exact Hk. reflexivity.
Qed.

Lemma Vector3_distance_nonneg (a b : Vector3 R) : 0 <= Vector3_distance a b.
Proof. apply sqrt_pos. Qed.
End LerpFacts.

(** *** Trigonometry behind the spherical step *)

Section TrigFacts.
Local Open Scope R_scope.

Lemma sin_sq_cos_sq (a : R) : sin a * sin a + cos a * cos a = 1.
Proof. pose proof (sin2_cos2 a) as H. unfold Rsqr in H. exact H. Qed.

Lemma sin_abs_le_1 (a : R) : Rabs (sin a) <= 1.
Proof. pose proof (SIN_bound a). apply Rabs_le. lra. Qed.

Lemma cos_abs_le_1 (a : R) : Rabs (cos a) <= 1.
Proof. pose proof (COS_bound a). apply Rabs_le. lra. Qed.

(** |sin (n y)| <= n |sin y|. *)
Lemma sin_mult_bound (n : nat) (y : R) :
  Rabs (sin (INR n * y)) <= INR n * Rabs (sin y).
Proof.
  induction n as [ | n IH].
  - simpl. rewrite Rmult_0_l, sin_0, Rabs_R0. lra.
  - rewrite S_INR.
    replace ((INR n + 1) * y) with (INR n * y + y) by ring.
    rewrite sin_plus.
    eapply Rle_trans; [apply Rabs_triang | ].
    rewrite !Rabs_mult.
    pose proof (cos_abs_le_1 y). pose proof (cos_abs_le_1 (INR n * y)).
    pose proof (Rabs_pos (sin (INR n * y))). pose proof (Rabs_pos (sin y)).
    nra.
Qed.

Lemma sin_tenth (y : R) : 0 <= y <= PI -> sin (10 * y) <= 10 * sin y.
Proof.
  intros Hy.
  pose proof (sin_mult_bound 10 y) as H.
  replace (INR 10) with 10 in H by (simpl; lra).
  rewrite (Rabs_pos_eq (sin y)) in H by (apply sin_ge_0; lra).
  pose proof (Rle_abs (sin (10 * y))). lra.
Qed.

(** One spherical step contracts at least as well as the linear one:
    cos (0.9 a) >= 0.9 cos a + 0.1 on [0, PI/2]. *)
Lemma cos_contract (a : R) :
  0 <= a <= PI / 2 -> 9 / 10 * cos a + 1 / 10 <= cos ((1 - 1 / 10) * a).
Proof.
  intros Ha. pose proof PI_RGT_0 as Hpi.
  pose proof (form2 ((1 - 1 / 10) * a) a) as Hd.
  replace (((1 - 1 / 10) * a - a) / 2) with (- (a / 20)) in Hd by field.
  replace (((1 - 1 / 10) * a + a) / 2) with (19 / 20 * a) in Hd by field.
  rewrite sin_neg in Hd.
  assert (Hc : cos a = 1 - 2 * sin (a / 2) * sin (a / 2)).
  { replace a with (2 * (a / 2)) at 1 by field. apply cos_2a_sin. }
  assert (H1 : sin (a / 2) <= sin (19 / 20 * a))
    by (apply sin_incr_1; lra).
  assert (H0 : 0 <= sin (a / 2)) by (apply sin_ge_0; lra).
  assert (H2 : sin (a / 2) <= 10 * sin (a / 20)).
  { replace (a / 2) with (10 * (a / 20)) at 1 by field. apply sin_tenth. lra. }
  assert (H3 : 0 <= sin (a / 20)) by (apply sin_ge_0; lra).
  nra.
Qed.

(** The angle [Math.atan2] returns for a point of the unit circle in the
    closed first quadrant, off the x axis. *)
Lemma atan2_unit (c : R) :
  0 <= c < 1 ->
  let s := sqrt (1 - c * c) in
  let a := Ratan2 s c in
  0 < s /\ cos a = c /\ sin a = s /\ 0 < a <= PI / 2.
Proof.
  intros Hc s a.
  assert (Hs2 : 0 < 1 - c * c) by nra.
  assert (Hs : 0 < s) by (apply sqrt_lt_R0; exact Hs2).
  assert (Hss : s * s = 1 - c * c) by (apply sqrt_sqrt; lra).
  split; [exact Hs | ].
  unfold a, Ratan2.
  destruct (Rlt_dec 0 c) as [Hpos | Hnpos].
  - assert (Hx : 1 + (s / c)² = (1 / c) * (1 / c)).
    { unfold Rsqr. field_simplify_eq; [ nra | lra]. }
    assert (Hq : sqrt (1 + (s / c)²) = 1 / c).
    { rewrite Hx. apply sqrt_square. apply Rlt_le, Rdiv_lt_0_compat; lra. }
    rewrite cos_atan, sin_atan, Hq.
    repeat split; try (field; lra).
    + rewrite <- atan_0. apply atan_increasing.
      apply Rdiv_lt_0_compat; lra.
    + pose proof (atan_bound (s / c)). lra.
  - assert (c = 0) by lra. subst c.
    destruct (Rlt_dec 0 0) as [ | _]; [lra | ].
    destruct (Rlt_dec 0 s) as [_ | ]; [ | lra].
    pose proof PI2_RGT_0.
    rewrite cos_PI2, sin_PI2. repeat split; try lra.
    unfold s. replace (1 - 0 * 0) with 1 by lra. symmetry. apply sqrt_1.
Qed.

(** sin²A + sin²B + 2 cos (A+B) sin A sin B = sin² (A+B). *)
Lemma slerp_norm_identity (A B : R) :
  sin A * sin A + sin B * sin B + 2 * cos (A + B) * sin A * sin B
  = sin (A + B) * sin (A + B).
Proof.
  rewrite cos_plus, sin_plus.
  pose proof (sin_sq_cos_sq A). pose proof (sin_sq_cos_sq B).
  nra.
Qed.
End TrigFacts.

(** *** Spherical interpolation *)

Section SlerpFacts.
Local Open Scope R_scope.

Lemma unit_negate (b : Quaternion R) : unit b -> unit (Quaternion_negate b).
Proof.
  unfold unit, Quaternion_lengthSq. destruct b as [bx by_ bz bw]. simpl.
  js_unfold. intros H. lra.
Qed.

Lemma dot_negate (q b : Quaternion R) :
  Quaternion_dot q (Quaternion_negate b) = - Quaternion_dot q b.
Proof.
  unfold Quaternion_dot. destruct q, b. simpl. js_unfold. ring.
Qed.

Lemma negate_negate (b : Quaternion R) :
  Quaternion_negate (Quaternion_negate b) = b.
Proof. destruct b. unfold Quaternion_negate. simpl. f_equal; lra. Qed.

(** Two unit quaternions at squared distance 2 - 2 (q . b). *)
Lemma unit_distance (q b : Quaternion R) :
  unit q -> unit b ->
  Quaternion_distance q b = sqrt (2 * (1 - Quaternion_dot q b)).
Proof.
  unfold unit, Quaternion_lengthSq, Quaternion_distance, Quaternion_length,
    Quaternion_dot.
  destruct q as [qx qy qz qw], b as [bx by_ bz bw]. simpl. js_unfold.
  intros Hq Hb. f_equal. nra.
Qed.

Lemma unit_dot_le_1 (q b : Quaternion R) :
  unit q -> unit b -> Quaternion_dot q b <= 1.
Proof.
  unfold unit, Quaternion_lengthSq, Quaternion_dot.
  destruct q as [qx qy qz qw], b as [bx by_ bz bw]. simpl. js_unfold.
  intros Hq Hb.
  pose proof (Rle_0_sqr (qx - bx)). pose proof (Rle_0_sqr (qy - by_)).
  pose proof (Rle_0_sqr (qz - bz)). pose proof (Rle_0_sqr (qw - bw)).
  unfold Rsqr in *. nra.
Qed.

(** A target in the far hemisphere is replaced by its negation. *)
Lemma slerp_far (q b : Quaternion R) :
  Quaternion_dot q b < 0 ->
  Quaternion_slerp q b Scene3D.ALPHA
  = Quaternion_slerp q (Quaternion_negate b) Scene3D.ALPHA.
Proof.
  unfold Quaternion_dot, Quaternion_slerp, Quaternion_negate, Scene3D.ALPHA.
  destruct q as [qx qy qz qw], b as [bx by_ bz bw]. simpl. js_unfold.
  intros Hd.
  replace (qw * - bw + qx * - bx + qy * - by_ + qz * - bz)
    with (- (qw * bw + qx * bx + qy * by_ + qz * bz)) by ring.
  set (c := qw * bw + qx * bx + qy * by_ + qz * bz) in *.
  assert (Hc : c < 0) by (unfold c; lra).
  Rcmp. reflexivity.
Qed.

(** [normalize] of a quaternion of positive length divides by the length. *)
Lemma Quaternion_normalize_pos (v : Quaternion R) :
  0 < Quaternion_lengthSq v ->
  let l := sqrt (Quaternion_lengthSq v) in
  0 < l /\
  Quaternion_normalize v
  = mkQuaternion (_x v * (1 / l)) (_y v * (1 / l))
                 (_z v * (1 / l)) (_w v * (1 / l)).
Proof.
  intros Hv l.
  assert (Hl : 0 < l) by (apply sqrt_lt_R0; exact Hv).
  split; [exact Hl | ].
  unfold Quaternion_normalize.
  change (Quaternion_length v) with l.
  change (neqb l zero) with (Reqb l 0).
  rewrite (proj2 (Reqb_false l 0)) by lra.
  reflexivity.
Qed.

(** The cosine [slerp] computes, in its own order of summation. *)
Lemma cosHalfTheta_dot (q b : Quaternion R) :
  _w q * _w b + _x q * _x b + _y q * _y b + _z q * _z b = Quaternion_dot q b.
Proof. unfold Quaternion_dot. js_unfold. ring. Qed.

(** The branch of nearly parallel quaternions: linear step, then
    normalization. *)
Lemma nlerp_facts (q b : Quaternion R) :
  unit q -> unit b -> 0 <= Quaternion_dot q b <= 1 ->
  let q' :=
    Quaternion_normalize
      (mkQuaternion ((1 - 1 / 10) * _x q + 1 / 10 * _x b)
                    ((1 - 1 / 10) * _y q + 1 / 10 * _y b)
                    ((1 - 1 / 10) * _z q + 1 / 10 * _z b)
                    ((1 - 1 / 10) * _w q + 1 / 10 * _w b)) in
  unit q' /\
  9 / 10 * Quaternion_dot q b + 1 / 10 <= Quaternion_dot q' b /\
  on_arc q b q'.
Proof.
  intros Hq Hb Hc q'.
  split; [apply Quaternion_normalize_unit | ].
  set (v := mkQuaternion ((1 - 1 / 10) * _x q + 1 / 10 * _x b)
                         ((1 - 1 / 10) * _y q + 1 / 10 * _y b)
                         ((1 - 1 / 10) * _z q + 1 / 10 * _z b)
                         ((1 - 1 / 10) * _w q + 1 / 10 * _w b)) in *.
  assert (HL : Quaternion_lengthSq v
               = 82 / 100 + 18 / 100 * Quaternion_dot q b).
  { unfold unit, Quaternion_lengthSq, Quaternion_dot, v in *.
    destruct q as [qx qy qz qw], b as [bx by_ bz bw]. simpl in *.
    js_unfold. nra. }
  destruct (@Quaternion_normalize_pos v) as [Hl Hn]; [rewrite HL; lra | ].
  set (l := sqrt (Quaternion_lengthSq v)) in *.
  assert (Hl1 : l <= 1).
  { unfold l. rewrite <- sqrt_1. apply sqrt_le_1_alt. rewrite HL. lra. }
  assert (Hil : 1 <= 1 / l).
  { apply Rmult_le_reg_r with l; [exact Hl | ].
    replace (1 / l * l) with 1 by (field; lra). lra. }
  unfold q'. rewrite Hn. split.
  - assert (Hd : Quaternion_dot
                   (mkQuaternion (_x v * (1 / l)) (_y v * (1 / l))
                                 (_z v * (1 / l)) (_w v * (1 / l))) b
                 = (9 / 10 * Quaternion_dot q b + 1 / 10) * (1 / l)).
    { unfold unit, Quaternion_lengthSq, Quaternion_dot, v in *.
      destruct q as [qx qy qz qw], b as [bx by_ bz bw]. simpl in *.
      js_unfold. nra. }
    rewrite Hd. nra.
  - exists ((1 - 1 / 10) * (1 / l)), (1 / 10 * (1 / l)).
    split; [nra | split; [nra | ]].
    unfold v. simpl. f_equal; ring.
Qed.

(** Products with a combination of two quaternions. *)
Lemma combination_dot (q b : Quaternion R) (wa wb : R) :
  Quaternion_dot
    (mkQuaternion (_x q * wa + _x b * wb) (_y q * wa + _y b * wb)
                  (_z q * wa + _z b * wb) (_w q * wa + _w b * wb)) b
  = Quaternion_dot q b * wa + Quaternion_lengthSq b * wb.
Proof.
  unfold Quaternion_dot, Quaternion_lengthSq.
  destruct q as [qx qy qz qw], b as [bx by_ bz bw]. simpl. js_unfold. ring.
Qed.

Lemma combination_lengthSq (q b : Quaternion R) (wa wb : R) :
  Quaternion_lengthSq
    (mkQuaternion (_x q * wa + _x b * wb) (_y q * wa + _y b * wb)
                  (_z q * wa + _z b * wb) (_w q * wa + _w b * wb))
  = Quaternion_lengthSq q * (wa * wa) + Quaternion_lengthSq b * (wb * wb)
    + 2 * Quaternion_dot q b * wa * wb.
Proof.
  unfold Quaternion_dot, Quaternion_lengthSq.
  destruct q as [qx qy qz qw], b as [bx by_ bz bw]. simpl. js_unfold. ring.
Qed.

(** The main branch: the angle to the target is multiplied by 0.9. *)
Lemma slerp_proper_facts (q b : Quaternion R) :
  unit q -> unit b -> 0 <= Quaternion_dot q b < 1 ->
  let c := Quaternion_dot q b in
  let s := sqrt (1 - c * c) in
  let a := Ratan2 s c in
  let ratioA := sin ((1 - 1 / 10) * a) / s in
  let ratioB := sin (1 / 10 * a) / s in
  let q' := mkQuaternion (_x q * ratioA + _x b * ratioB)
                         (_y q * ratioA + _y b * ratioB)
                         (_z q * ratioA + _z b * ratioB)
                         (_w q * ratioA + _w b * ratioB) in
  unit q' /\
  Quaternion_dot q' b = cos ((1 - 1 / 10) * a) /\
  9 / 10 * c + 1 / 10 <= Quaternion_dot q' b /\
  on_arc q b q'.
Proof.
  intros Hq Hb Hc c s a ratioA ratioB q'.
  destruct (atan2_unit Hc) as (Hs & Hcos & Hsin & Ha).
  fold c s a in Hs, Hcos, Hsin, Ha.
  pose proof PI_RGT_0 as Hpi.
  set (A := (1 - 1 / 10) * a) in *. set (B := 1 / 10 * a) in *.
  assert (HAB : A + B = a) by (unfold A, B; lra).
  assert (HsA : 0 <= sin A) by (apply sin_ge_0; unfold A; lra).
  assert (HsB : 0 <= sin B) by (apply sin_ge_0; unfold B; lra).
  pose proof (slerp_norm_identity A B) as Hid. rewrite HAB, Hcos, Hsin in Hid.
  assert (HsinB : sin B = s * cos A - c * sin A).
  { replace B with (a - A) by lra. rewrite sin_minus, Hcos, Hsin. ring. }
  assert (HrA : ratioA * s = sin A) by (unfold ratioA; field; lra).
  assert (HrB : ratioB * s = sin B) by (unfold ratioB; field; lra).
  assert (HrA0 : 0 <= ratioA)
    by (unfold ratioA; apply Rle_mult_inv_pos; assumption).
  assert (HrB0 : 0 <= ratioB)
    by (unfold ratioB; apply Rle_mult_inv_pos; assumption).
  assert (Hnorm : ratioA * ratioA + ratioB * ratioB + 2 * c * ratioA * ratioB = 1).
  { apply Rmult_eq_reg_r with (s * s); [ | nra].
    replace ((ratioA * ratioA + ratioB * ratioB + 2 * c * ratioA * ratioB) * (s * s))
      with ((ratioA * s) * (ratioA * s) + (ratioB * s) * (ratioB * s)
            + 2 * c * (ratioA * s) * (ratioB * s)) by ring.
    rewrite HrA, HrB. lra. }
  assert (Hdot : c * ratioA + ratioB = cos A).
  { apply Rmult_eq_reg_r with s; [ | lra].
    replace ((c * ratioA + ratioB) * s) with (c * (ratioA * s) + ratioB * s)
      by ring.
    rewrite HrA, HrB, HsinB. ring. }
  assert (Hq'b : Quaternion_dot q' b = cos A).
  { unfold q'. rewrite combination_dot, Hb, <- Hdot. unfold c. ring. }
  split; [ | split; [exact Hq'b | split]].
  - unfold unit, q'. rewrite combination_lengthSq, Hq, Hb. fold c.
    transitivity (ratioA * ratioA + ratioB * ratioB + 2 * c * ratioA * ratioB);
      [ring | exact Hnorm].
  - rewrite Hq'b, <- Hcos. unfold A. apply cos_contract. lra.
  - exists ratioA, ratioB. split; [exact HrA0 | split; [exact HrB0 | ]].
    unfold q'. apply f_equal4; ring.
Qed.

(** One step of [slerp] toward a target in the near hemisphere. *)
Lemma slerp_near (q b : Quaternion R) :
  unit q -> unit b -> 0 <= Quaternion_dot q b ->
  let q' := Quaternion_slerp q b Scene3D.ALPHA in
  unit q' /\
  9 / 10 * Quaternion_dot q b + 1 / 10 <= Quaternion_dot q' b /\
  on_arc q b q'.
Proof.
  intros Hq Hb Hd.
  pose proof (unit_dot_le_1 Hq Hb) as Hle.
  unfold Quaternion_slerp, Scene3D.ALPHA.
  rewrite cosHalfTheta_dot.
  set (c := Quaternion_dot q b) in *.
  js_unfold. Rcmp.
  destruct (Rleb 1 c) eqn:H1.
  - apply Rleb_true in H1. cbv zeta.
    split; [exact Hq | split; [unfold c in *; clear c; lra | ]].
    exists 1, 0. split; [lra | split; [lra | ]].
    destruct q. simpl. apply f_equal4; ring.
  - apply Rleb_false in H1.
    destruct (Rleb (1 - c * c) (1 / 4503599627370496)) eqn:H2.
    + apply (@nlerp_facts q b Hq Hb). unfold c in *. clear c. lra.
    + apply Rleb_false in H2.
      destruct (@slerp_proper_facts q b Hq Hb) as (Hu & _ & Hc & Ha);
        [unfold c in *; clear c; lra | ].
      split; [exact Hu | split; [exact Hc | exact Ha]].
Qed.

Lemma toward_unit (q b : Quaternion R) : unit b -> unit (toward q b).
Proof.
  intros Hb. unfold toward.
  destruct (Rlt_dec _ _); [apply unit_negate | ]; exact Hb.
Qed.

Lemma toward_dot_nonneg (q b : Quaternion R) :
  0 <= Quaternion_dot q (toward q b).
Proof.
  unfold toward. destruct (Rlt_dec (Quaternion_dot q b) 0) as [Hn | Hn].
  - rewrite dot_negate. lra.
  - lra.
Qed.

(** The step toward [b] is the step toward the representative of [b] on
    the side of [q]. *)
Lemma slerp_toward (q b : Quaternion R) :
  Quaternion_slerp q b Scene3D.ALPHA
  = Quaternion_slerp q (toward q b) Scene3D.ALPHA.
Proof.
  unfold toward. destruct (Rlt_dec (Quaternion_dot q b) 0) as [Hn | Hn].
  - apply slerp_far, Hn.
  - reflexivity.
Qed.

(** Once strictly inside the hemisphere of a representative, that
    representative is the one [slerp] keeps aiming at. *)
Lemma toward_stable (start q b : Quaternion R) :
  0 < Quaternion_dot q (toward start b) -> toward q b = toward start b.
Proof.
  unfold toward.
  destruct (Rlt_dec (Quaternion_dot start b) 0) as [Hs | Hs];
    destruct (Rlt_dec (Quaternion_dot q b) 0) as [Hq | Hq];
    try reflexivity; rewrite ?dot_negate; intros; lra.
Qed.

(** Invariant of a run of spherical steps toward [target]. *)
Lemma slerp_run_invariant (target start : Quaternion R) :
  unit target -> unit start ->
  forall n,
    let b := toward start target in
    let q := slerp_run target start n in
    unit q /\
    toward q target = b /\
    0 <= Quaternion_dot q b /\
    1 - Quaternion_dot q b <= (9 / 10) ^ n * (1 - Quaternion_dot start b) /\
    9 / 10 * Quaternion_dot q b + 1 / 10
      <= Quaternion_dot (slerp_run target start (S n)) b /\
    on_arc q b (slerp_run target start (S n)).
Proof.
  intros Ht Hs n. cbv zeta.
  set (b := toward start target).
  assert (Hb : unit b) by (apply toward_unit; exact Ht).
  assert (Hstep : forall q, unit q -> toward q target = b ->
            0 <= Quaternion_dot q b ->
            let q' := Quaternion_slerp q target Scene3D.ALPHA in
            unit q' /\
            9 / 10 * Quaternion_dot q b + 1 / 10 <= Quaternion_dot q' b /\
            on_arc q b q').
  { intros q Hq Hqb Hd. cbv zeta. rewrite slerp_toward, Hqb.
    apply slerp_near; assumption. }
  assert (Hinv : unit (slerp_run target start n) /\
                 toward (slerp_run target start n) target = b /\
                 0 <= Quaternion_dot (slerp_run target start n) b /\
                 1 - Quaternion_dot (slerp_run target start n) b
                   <= (9 / 10) ^ n * (1 - Quaternion_dot start b)).
  { induction n as [ | n IH].
    - simpl. repeat split; try assumption; try reflexivity.
      + apply toward_dot_nonneg.
      + lra.
    - destruct IH as (Hu & Htw & Hd & Hk).
      destruct (Hstep _ Hu Htw Hd) as (Hu' & Hd' & _).
      change (slerp_run target start (S n))
        with (Quaternion_slerp (slerp_run target start n) target Scene3D.ALPHA).
      repeat split.
      + exact Hu'.
      + apply toward_stable. fold b. lra.
      + lra.
      + simpl pow. pose proof (pow_9_10_le_1 n). nra. }
  destruct Hinv as (Hu & Htw & Hd & Hk).
  destruct (Hstep _ Hu Htw Hd) as (Hu' & Hd' & Harc).
  repeat split; assumption.
Qed.

(** The distance between orientations is the distance to the
    representative on the near side. *)
Lemma Orientation_distance_toward (q b : Quaternion R) :
  unit q -> unit b ->
  Orientation_distance q b = Quaternion_distance q (toward q b).
Proof.
  intros Hq Hb. unfold Orientation_distance, toward.
  pose proof (unit_negate Hb) as Hnb.
  pose proof (unit_dot_le_1 Hq Hb) as H1.
  pose proof (unit_dot_le_1 Hq Hnb) as H2. rewrite dot_negate in H2.
  destruct (Rlt_dec (Quaternion_dot q b) 0) as [Hn | Hn];
    rewrite (unit_distance Hq Hb), (unit_distance Hq Hnb), dot_negate.
  - apply Rmin_right. apply sqrt_le_1_alt. lra.
  - apply Rmin_left. apply sqrt_le_1_alt. lra.
Qed.

Lemma slerp_run_distance (target start : Quaternion R) (n : nat) :
  unit target -> unit start ->
  let b := toward start target in
  Orientation_distance (slerp_run target start n) target
  = sqrt (2 * (1 - Quaternion_dot (slerp_run target start n) b)).
Proof.
  intros Ht Hs b.
  destruct (slerp_run_invariant Ht Hs n) as (Hu & Htw & _).
  rewrite (Orientation_distance_toward Hu Ht), Htw.
  apply unit_distance; [exact Hu | apply toward_unit; exact Ht].
Qed.

(** A run of spherical steps closes in on the target orientation. *)
Lemma slerp_run_converges (target start : Quaternion R) :
  unit target -> unit start ->
  forall eps, 0 < eps ->
  exists n0 : nat, forall n, (n0 <= n)%nat ->
    Orientation_distance (slerp_run target start n) target < eps.
Proof.
  intros Ht Hs eps Heps.
  destruct (pow_lt_1_zero (9 / 10) ltac:(rewrite Rabs_pos_eq; lra)
              (eps * eps / 2) ltac:(nra)) as (n0 & Hn0).
  exists n0. intros n Hn.
  rewrite (slerp_run_distance n Ht Hs).
  destruct (slerp_run_invariant Ht Hs n) as (_ & _ & Hd & Hk & _).
  pose proof (toward_dot_nonneg start target) as Hd0.
  specialize (Hn0 n Hn).
  rewrite Rabs_pos_eq in Hn0 by apply pow_9_10_le_1.
  pose proof (pow_9_10_le_1 n) as Hp.
  set (d := Quaternion_dot (slerp_run target start n) (toward start target)) in *.
  set (d0 := Quaternion_dot start (toward start target)) in *.
  assert (Hlt : 2 * (1 - d) < eps * eps) by nra.
  rewrite <- (sqrt_square eps) by lra.
  apply sqrt_lt_1_alt. split; [ | exact Hlt].
  assert (d <= 1); [ | lra].
  destruct (slerp_run_invariant Ht Hs n) as (Hu & _).
  apply unit_dot_le_1; [exact Hu | apply toward_unit; exact Ht].
Qed.

Lemma slerp_run_monotone (target start : Quaternion R) (n : nat) :
  unit target -> unit start ->
  Orientation_distance (slerp_run target start (S n)) target
  <= Orientation_distance (slerp_run target start n) target.
Proof.
  intros Ht Hs.
  rewrite !slerp_run_distance by assumption.
  destruct (slerp_run_invariant Ht Hs n) as (Hu & _ & Hd & _ & Hd' & _).
  destruct (slerp_run_invariant Ht Hs (S n)) as (Hu' & _).
  pose proof (unit_dot_le_1 Hu (toward_unit start Ht)) as H1.
  pose proof (unit_dot_le_1 Hu' (toward_unit start Ht)) as H1'.
  apply sqrt_le_1_alt. lra.
Qed.
End SlerpFacts.

(** *** The smoothing steps as the render loop runs them *)

Lemma lerp_run_shift (target start : Vector3 R) (n : nat) :
  lerp_run target start (S n)
  = lerp_run target (Vector3_lerp start target ALPHA) n.
Proof. unfold lerp_run. apply Nat.iter_succ_r. Qed.

Lemma slerp_run_shift (target start : Quaternion R) (n : nat) :
  slerp_run target start (S n)
  = slerp_run target (Quaternion_slerp start target ALPHA) n.
Proof. unfold slerp_run. apply Nat.iter_succ_r. Qed.

(** While the same open-hand observation is in the slot and the viewport
    does not change, the ticks run [lerp_run] on the position and
    [slerp_run] on the orientation. *)
Lemma ticks_open_run (vp : Viewport R) (d : HandData R) (ts : list (Tick R)) :
  gesture d = OPEN ->
  Forall (fun t => viewport t = vp) ts ->
  forall s g,
    handDataRef s = Some d -> shieldGroupRef (rig s) = Some g ->
    smoothedPosition (rig (ticks ts s))
    = lerp_run (mkVector3 (THREE.x (HandTracker.position d) * (width vp / 2))
                          (THREE.y (HandTracker.position d) * (height vp / 2))
                          0)%R
               (smoothedPosition (rig s)) (length ts) /\
    smoothedRotation (rig (ticks ts s))
    = slerp_run (rotation d) (smoothedRotation (rig s)) (length ts).
Proof.
  intros Hg Hvp. induction Hvp as [ | t ts Ht _ IH]; intros s g Hd Hm.
  - split; reflexivity.
  - simpl length. rewrite lerp_run_shift, slerp_run_shift. simpl ticks.
    assert (Hrig : rig (tick t s)
                   = mkRig (Some (Scene3D.mkGroup true
                        (Vector3_lerp (smoothedPosition (rig s))
                           (mkVector3
                              (THREE.x (HandTracker.position d) * (width vp / 2))
                              (THREE.y (HandTracker.position d) * (height vp / 2))
                              0)%R ALPHA)
                        (Quaternion_slerp (smoothedRotation (rig s))
                           (rotation d) ALPHA)))
                        (Vector3_lerp (smoothedPosition (rig s))
                           (mkVector3
                              (THREE.x (HandTracker.position d) * (width vp / 2))
                              (THREE.y (HandTracker.position d) * (height vp / 2))
                              0)%R ALPHA)
                        (Quaternion_slerp (smoothedRotation (rig s))
                           (rotation d) ALPHA)).
    { simpl. unfold CreateRig_useFrame. rewrite Hm, Hd, Hg, Ht. reflexivity. }
    destruct (IH (tick t s) _ Hd ltac:(rewrite Hrig; reflexivity)) as [Hp Hr].
    rewrite Hp, Hr, Hrig. split; reflexivity.
Qed.

(** The shield's scale runs [lerp_run] toward (1,1,1) or (0,0,0), as its
    [visible] prop says. *)
Lemma ticks_scale_run (ts : list (Tick R)) : forall (s : State R) g,
  Shield.groupRef (shield s) = Some g ->
  let target := if visibleProp s then 1%R else 0%R in
  exists g', Shield.groupRef (shield (ticks ts s)) = Some g' /\
    Shield.scale g'
    = lerp_run (mkVector3 target target target) (Shield.scale g) (length ts).
Proof.
  induction ts as [ | t ts IH]; intros s g Hg; cbv zeta.
  - exists g. split; [exact Hg | reflexivity].
  - destruct (@useFrame_scale R _ _ (visibleProp s) (elapsedTime t) (delta t)
                (shield s) g Hg) as (vis & Hg' & _).
    destruct (IH (tick t s) _ Hg') as (g' & Hg'' & Hs).
    exists g'. split; [exact Hg'' | ].
    simpl length. rewrite lerp_run_shift, Hs. simpl.
    destruct (visibleProp s); reflexivity.
Qed.

(** ** One spherical step *)

Section SphericalStep.
Local Open Scope R_scope.

(** Two unit quaternions whose product is 1 are the same. *)
Lemma unit_dot_1 (q b : Quaternion R) :
  unit q -> unit b -> Quaternion_dot q b = 1 -> b = q.
Proof.
  unfold unit, Quaternion_lengthSq, Quaternion_dot.
  destruct q as [qx qy qz qw], b as [bx by_ bz bw]. simpl. js_unfold.
  intros Hq Hb Hd.
  assert (Hs : (qx - bx) * (qx - bx) + (qy - by_) * (qy - by_)
               + (qz - bz) * (qz - bz) + (qw - bw) * (qw - bw) = 0) by nra.
  pose proof (Rle_0_sqr (qx - bx)) as P1. pose proof (Rle_0_sqr (qy - by_)) as P2.
  pose proof (Rle_0_sqr (qz - bz)) as P3. pose proof (Rle_0_sqr (qw - bw)) as P4.
  unfold Rsqr in P1, P2, P3, P4.
  assert (H1 : (qx - bx) * (qx - bx) = 0) by lra.
  assert (H2 : (qy - by_) * (qy - by_) = 0) by lra.
  assert (H3 : (qz - bz) * (qz - bz) = 0) by lra.
  assert (H4 : (qw - bw) * (qw - bw) = 0) by lra.
  apply Rmult_integral in H1, H2, H3, H4.
  apply f_equal4; [destruct H1 | destruct H2 | destruct H3 | destruct H4]; lra.
Qed.

Lemma Quaternion_normalize_of_unit (q : Quaternion R) :
  unit q -> Quaternion_normalize q = q.
Proof.
  intros Hq. destruct (@Quaternion_normalize_pos q) as [_ Hn];
    [rewrite Hq; lra | ].
  rewrite Hn, Hq, sqrt_1. destruct q. simpl. apply f_equal4; field.
Qed.

Lemma combination_dot_l (q b : Quaternion R) (wa wb : R) :
  Quaternion_dot
    (mkQuaternion (_x q * wa + _x b * wb) (_y q * wa + _y b * wb)
                  (_z q * wa + _z b * wb) (_w q * wa + _w b * wb)) q
  = Quaternion_lengthSq q * wa + Quaternion_dot q b * wb.
Proof.
  unfold Quaternion_dot, Quaternion_lengthSq. simpl. js_unfold. ring.
Qed.

(** The trigonometric branch moves by a tenth of the angle. *)
Lemma slerp_proper_angle (q b : Quaternion R) :
  unit q -> unit b -> 0 <= Quaternion_dot q b < 1 ->
  let c := Quaternion_dot q b in
  let s := sqrt (1 - c * c) in
  let a := Ratan2 s c in
  let ratioA := sin ((1 - 1 / 10) * a) / s in
  let ratioB := sin (1 / 10 * a) / s in
  let q' := mkQuaternion (_x q * ratioA + _x b * ratioB)
                         (_y q * ratioA + _y b * ratioB)
                         (_z q * ratioA + _z b * ratioB)
                         (_w q * ratioA + _w b * ratioB) in
  Quaternion_dot q' q = cos (1 / 10 * a).
Proof.
  intros Hq Hb Hc c s a ratioA ratioB q'.
  destruct (atan2_unit Hc) as (Hs & Hcos & Hsin & Ha).
  fold c s a in Hs, Hcos, Hsin, Ha.
  unfold q'. rewrite combination_dot_l, Hq. fold c.
  assert (HsA : sin ((1 - 1 / 10) * a)
                = s * cos (1 / 10 * a) - c * sin (1 / 10 * a)).
  { replace ((1 - 1 / 10) * a) with (a - 1 / 10 * a) by lra.
    rewrite sin_minus, Hcos, Hsin. ring. }
  unfold ratioA, ratioB. rewrite HsA. field. lra.
Qed.

(** One step of [slerp] with factor 0.1 toward a quaternion in the near
    hemisphere. *)
Lemma slerp_step_near (q b : Quaternion R) :
  unit q -> unit b -> 0 <= Quaternion_dot q b ->
  let q' := Quaternion_slerp q b Scene3D.ALPHA in
  exists theta : R,
    0 <= theta <= PI / 2 /\ cos theta = Quaternion_dot q b /\
    (Number_EPSILON < sin theta * sin theta ->
     Quaternion_dot q' q = cos (theta / 10) /\
     Quaternion_dot q' b = cos (9 * theta / 10)) /\
    (sin theta * sin theta <= Number_EPSILON ->
     q' = Quaternion_normalize
            (mkQuaternion (9 / 10 * _x q + 1 / 10 * _x b)
                          (9 / 10 * _y q + 1 / 10 * _y b)
                          (9 / 10 * _z q + 1 / 10 * _z b)
                          (9 / 10 * _w q + 1 / 10 * _w b))).
Proof.
  intros Hq Hb Hd.
  pose proof (unit_dot_le_1 Hq Hb) as Hle.
  pose proof PI_RGT_0 as Hpi.
  unfold Quaternion_slerp, Scene3D.ALPHA.
  rewrite cosHalfTheta_dot.
  remember (Quaternion_dot q b) as c eqn:Ec.
  js_unfold. Rcmp.
  destruct (Rleb 1 c) eqn:H1.
  - apply Rleb_true in H1. cbv zeta.
    assert (Hc1 : c = 1) by lra.
    exists 0. rewrite cos_0, sin_0.
    split; [lra | split; [lra | split]].
    + intros He. lra.
    + intros _.
      assert (Hbq : b = q) by (apply unit_dot_1; [exact Hq | exact Hb | lra]).
      rewrite Hbq.
      replace (mkQuaternion (9 / 10 * _x q + 1 / 10 * _x q)
                            (9 / 10 * _y q + 1 / 10 * _y q)
                            (9 / 10 * _z q + 1 / 10 * _z q)
                            (9 / 10 * _w q + 1 / 10 * _w q)) with q
        by (destruct q; simpl; apply f_equal4; lra).
      symmetry. apply Quaternion_normalize_of_unit, Hq.
  - apply Rleb_false in H1.
    assert (Hc : 0 <= Quaternion_dot q b < 1) by lra.
    destruct (atan2_unit Hc) as (Hs & Hcos & Hsin & Ha).
    rewrite <- Ec in Hs, Hcos, Hsin, Ha.
    exists (Ratan2 (sqrt (1 - c * c)) c).
    assert (Hss : sin (Ratan2 (sqrt (1 - c * c)) c)
                  * sin (Ratan2 (sqrt (1 - c * c)) c) = 1 - c * c).
    { rewrite Hsin. apply sqrt_sqrt. nra. }
    rewrite Hss.
    split; [lra | split; [exact Hcos | ]].
    destruct (Rleb (1 - c * c) (1 / 4503599627370496)) eqn:H2.
    + apply Rleb_true in H2. split; [intros He; lra | intros _].
      f_equal. apply f_equal4; lra.
    + apply Rleb_false in H2. split; [intros _ | intros He; lra].
      destruct (@slerp_proper_facts q b Hq Hb Hc) as (_ & Hdb & _).
      pose proof (@slerp_proper_angle q b Hq Hb Hc) as Hdq.
      cbv zeta in Hdb, Hdq. rewrite <- Ec in Hdb, Hdq.
      split.
      * rewrite Hdq. f_equal. lra.
      * rewrite Hdb. f_equal. lra.
Qed.

(** What [slerp] with factor 0.1 does to unit quaternions is a spherical
    step. *)
Lemma slerp_spherical_step (q b : Quaternion R) :
  unit q -> unit b ->
  spherical_step q b (Quaternion_slerp q b Scene3D.ALPHA).
Proof.
  intros Hq Hb. unfold spherical_step. rewrite slerp_toward.
  pose proof (toward_unit q Hb) as Hb'.
  pose proof (toward_dot_nonneg q b) as Hd.
  destruct (@slerp_near q (toward q b) Hq Hb' Hd) as (Hu & _ & Ha).
  split; [exact Hu | split; [exact Ha | ]].
  apply slerp_step_near; assumption.
Qed.
End SphericalStep.



Lemma lerp_run_between (target start : Vector3 R) (n : nat) :
  Vector3_between (lerp_run target start n) target
                  (lerp_run target start (S n)).
Proof.
  change (lerp_run target start (S n))
    with (Vector3_lerp (lerp_run target start n) target ALPHA).
  unfold Vector3_between, Vector3_lerp. simpl. js_unfold.
  repeat split; apply lerp_step_between.
Qed.

Lemma lerp_run_converges (target start : Vector3 R) (eps : R) :
  (0 < eps)%R ->
  exists n0 : nat, forall n, (n0 <= n)%nat ->
    (Vector3_distance (lerp_run target start n) target < eps)%R.
Proof.
  intros Heps.
  pose proof (Vector3_distance_nonneg start target) as HD.
  remember (Vector3_distance start target) as D eqn:HeqD.
  destruct (pow_lt_1_zero (9 / 10) ltac:(rewrite Rabs_pos_eq; lra)
              (eps / (D + 1))%R ltac:(apply Rdiv_lt_0_compat; lra))
    as (n0 & Hn0).
  exists n0. intros n Hn. rewrite lerp_run_distance, <- HeqD.
  specialize (Hn0 n Hn). rewrite Rabs_pos_eq in Hn0 by apply pow_9_10_le_1.
  pose proof (pow_9_10_le_1 n) as Hp.
  apply Rle_lt_trans with ((9 / 10) ^ n * (D + 1))%R; [nra | ].
  apply Rmult_lt_compat_r with (r := (D + 1)%R) in Hn0; [ | lra].
  replace (eps / (D + 1) * (D + 1))%R with eps in Hn0 by (field; lra).
  exact Hn0.
Qed.

(** C8 fails as stated, in two ways.  On doubles the linear step stalls
    short of the target: from 1 - 2^-51 toward 1 the step would add
    0.1 * 2^-51, less than half the spacing of the doubles there, so the
    iterate stays where it is, 2^-51 from the target, and never comes
    within 2^-53 of it.  And the spherical step needs unit quaternions: from
    (0,0,0,2) toward the identity [slerp] finds cosHalfTheta = 2 >= 1 and
    returns the start unchanged, at distance 1 from the target. *)
Lemma smoothing_stalls :
  ~ lerp_always_converges /\ ~ slerp_always_converges.
Proof.
  split.
  - intros Hc.
    assert (Hfix : forall n, lerp_run_doubles
                     (mkVector3 1%float 0%float 0%float)
                     (mkVector3 0x1.ffffffffffffcp-1%float 0%float 0%float) n
                   = mkVector3 0x1.ffffffffffffcp-1%float 0%float 0%float).
    { unfold lerp_run_doubles. induction n as [ | n IH]; [reflexivity | ].
      rewrite Nat.iter_succ, IH. vm_compute. reflexivity. }
    destruct (Hc (mkVector3 1%float 0%float 0%float)
                 (mkVector3 0x1.ffffffffffffcp-1%float 0%float 0%float)
                 0x1p-53%float eq_refl) as (n & Hn).
    cbv zeta in Hn. rewrite Hfix in Hn. vm_compute in Hn. discriminate.
  - intros Hc.
    assert (Hstep : Quaternion_slerp (mkQuaternion 0 0 0 2)%R
                      (mkQuaternion 0 0 0 1)%R ALPHA
                    = (mkQuaternion 0 0 0 2)%R).
    { unfold Quaternion_slerp, ALPHA. simpl. js_unfold.
      replace (2 * 1 + 0 * 0 + 0 * 0 + 0 * 0)%R with 2%R by lra.
      Rcmp. reflexivity. }
    assert (Hfix : forall n,
              slerp_run (mkQuaternion 0 0 0 1)%R (mkQuaternion 0 0 0 2)%R n
              = (mkQuaternion 0 0 0 2)%R).
    { unfold slerp_run. induction n as [ | n IH]; [reflexivity | ].
      rewrite Nat.iter_succ, IH. exact Hstep. }
    destruct (Hc (mkQuaternion 0 0 0 1)%R (mkQuaternion 0 0 0 2)%R (1 / 2)%R
                 ltac:(lra)) as (n & Hn).
    rewrite Hfix in Hn.
    unfold Orientation_distance, Quaternion_distance, Quaternion_negate,
      Quaternion_length in Hn. simpl in Hn. js_unfold.
    replace ((0 - 0) * (0 - 0) + (0 - 0) * (0 - 0) + (0 - 0) * (0 - 0)
             + (2 - 1) * (2 - 1))%R with (1 * 1)%R in Hn by lra.
    replace ((0 - - 0) * (0 - - 0) + (0 - - 0) * (0 - - 0)
             + (0 - - 0) * (0 - - 0) + (2 - - (1)) * (2 - - (1)))%R
      with (3 * 3)%R in Hn by lra.
    rewrite !sqrt_square in Hn by lra.
    unfold Rmin in Hn. destruct (Rle_dec 1 3); lra.
Qed.

(** C8, amended.  Iterating the smoothing step toward a fixed target, in
    exact arithmetic.  Linear step (position, and the shield's scale): each
    iterate lies between the previous one and the target, the distance to
    the target never grows and falls under any positive bound after finitely
    many ticks.  Spherical step (orientation, unit quaternions): each
    iterate is a unit quaternion on the arc between the previous one and the
    target, the distance to the target orientation never grows and falls
    under any positive bound after finitely many ticks; the target
    orientation is the one the quaternions [target] and [-target] both
    stand for, and when the start is not in the far hemisphere the iterates
    close in on the quaternion [target] itself.  The ticks of the render
    loop run exactly these iterations while the observation, the viewport
    and the [visible] prop stay the same. *)
Theorem smoothing_converges :
  (forall target start : Vector3 R,
     (forall n, Vector3_between (lerp_run target start n) target
                                (lerp_run target start (S n))) /\
     (forall n, Vector3_distance (lerp_run target start (S n)) target
                <= Vector3_distance (lerp_run target start n) target)%R /\
     (forall eps, (0 < eps)%R ->
        exists n0 : nat, forall n, (n0 <= n)%nat ->
          (Vector3_distance (lerp_run target start n) target < eps)%R)) /\
  (forall target start : Quaternion R,
     unit target -> unit start ->
     (forall n, unit (slerp_run target start n)) /\
     (forall n, on_arc (slerp_run target start n) (toward start target)
                       (slerp_run target start (S n))) /\
     (forall n, Orientation_distance (slerp_run target start (S n)) target
                <= Orientation_distance (slerp_run target start n) target)%R /\
     (forall eps, (0 < eps)%R ->
        exists n0 : nat, forall n, (n0 <= n)%nat ->
          (Orientation_distance (slerp_run target start n) target < eps)%R) /\
     ((0 <= Quaternion_dot start target)%R ->
      forall eps, (0 < eps)%R ->
        exists n0 : nat, forall n, (n0 <= n)%nat ->
          (Quaternion_distance (slerp_run target start n) target < eps)%R)) /\
  (forall (vp : Viewport R) (d : HandData R) (ts : list (Tick R)) s g,
     gesture d = OPEN -> Forall (fun t => viewport t = vp) ts ->
     handDataRef s = Some d -> shieldGroupRef (rig s) = Some g ->
     smoothedPosition (rig (ticks ts s))
     = lerp_run (mkVector3 (THREE.x (HandTracker.position d) * (width vp / 2))
                           (THREE.y (HandTracker.position d) * (height vp / 2))
                           0)%R
                (smoothedPosition (rig s)) (length ts) /\
     smoothedRotation (rig (ticks ts s))
     = slerp_run (rotation d) (smoothedRotation (rig s)) (length ts)) /\
  (forall (ts : list (Tick R)) (s : State R) g,
     Shield.groupRef (shield s) = Some g ->
     let target := if visibleProp s then 1%R else 0%R in
     exists g', Shield.groupRef (shield (ticks ts s)) = Some g' /\
       Shield.scale g'
       = lerp_run (mkVector3 target target target) (Shield.scale g)
                  (length ts)).
Proof.
  split; [ | split; [ | split]].
  - intros target start. split; [ | split].
    + apply lerp_run_between.
    + intros n. rewrite !lerp_run_distance. simpl pow.
      pose proof (pow_9_10_le_1 n).
      pose proof (Vector3_distance_nonneg start target). nra.
    + apply lerp_run_converges.
  - intros target start Ht Hs. split; [ | split; [ | split; [ | split]]].
    + intros n. apply (slerp_run_invariant Ht Hs n).
    + intros n. apply (slerp_run_invariant Ht Hs n).
    + intros n. apply slerp_run_monotone; assumption.
    + apply slerp_run_converges; assumption.
    + intros Hd eps Heps.
      destruct (slerp_run_converges Ht Hs Heps) as (n0 & Hn0).
      exists n0. intros n Hn. specialize (Hn0 n Hn).
      destruct (slerp_run_invariant Ht Hs n) as (Hu & Htw & _).
      rewrite (Orientation_distance_toward Hu Ht), Htw in Hn0.
      unfold toward in Hn0.
      destruct (Rlt_dec (Quaternion_dot start target) 0); [lra | exact Hn0].
  - intros vp d ts s g Hg Hvp Hd Hm. exact (ticks_open_run Hg Hvp _ Hd Hm).
  - intros ts s g Hg. exact (ticks_scale_run ts s Hg).
Qed.

(** C8 on two concrete runs: the position from the origin toward
    (10, 0, 0), and the orientation from the identity toward the half turn
    about z. *)
Lemma smoothing_converges_witness :
  (exists n0 : nat, forall n, (n0 <= n)%nat ->
     (Vector3_distance
        (lerp_run (mkVector3 10 0 0)%R (mkVector3 0 0 0)%R n)
        (mkVector3 10 0 0)%R < 1 / 1000)%R) /\
  (exists n0 : nat, forall n, (n0 <= n)%nat ->
     (Orientation_distance
        (slerp_run (mkQuaternion 0 0 1 0)%R (mkQuaternion 0 0 0 1)%R n)
        (mkQuaternion 0 0 1 0)%R < 1 / 1000)%R).
Proof.
  split.
  - apply (proj2 (proj2 (proj1 smoothing_converges
                           (mkVector3 10 0 0)%R (mkVector3 0 0 0)%R))).
    lra.
  - refine (proj1 (proj2 (proj2 (proj2
              (proj1 (proj2 smoothing_converges)
                 (mkQuaternion 0 0 1 0)%R (mkQuaternion 0 0 0 1)%R _ _))))
              (1 / 1000)%R _).
    + unfold unit, Quaternion_lengthSq. simpl. js_unfold. lra.
    + unfold unit, Quaternion_lengthSq. simpl. js_unfold. lra.
    + lra.
Defined.

(** * Further properties of the source *)

Import HandTrackerHelpers AppLoop SpecMore.

(** ** The interpreter: errors and the hands it ignores *)

Lemma nth_error_le_None {A : Type} (l : list A) (n m : nat) :
  (n <= m)%nat -> nth_error l n = None -> nth_error l m = None.
Proof.
  intros Hnm Hn. apply nth_error_None. apply nth_error_None in Hn. lia.
Qed.

(** X1. [onResults] throws exactly when a hand is reported whose landmark
    list has fewer than 13 entries; nothing is then delivered.  Of several
    reported hands only the first is read. *)
Theorem onResults_throws_iff {N : Type} `{Number N} (results : Results N) :
  (onResults results = Threw <->
   exists landmarks others,
     multiHandLandmarks results = Some (landmarks :: others) /\
     (length landmarks < 13)%nat) /\
  (forall landmarks others,
     multiHandLandmarks results = Some (landmarks :: others) ->
     onResults results = onResults (mkResults (Some [landmarks]))).
Proof.
  split; [split | ].
  - unfold onResults.
    destruct (multiHandLandmarks results) as [[ | landmarks others] | ];
      try discriminate.
    intros Ht. exists landmarks, others. split; [reflexivity | ].
    destruct (nth_error landmarks 12) as [T | ] eqn:HT.
    + destruct (nth_error landmarks 0) as [W | ] eqn:HW.
      * destruct (nth_error landmarks 9) as [M | ] eqn:HM; [discriminate | ].
        apply (nth_error_le_None landmarks (n := 9) (m := 12)) in HM; [ | lia].
        congruence.
      * apply (nth_error_le_None landmarks (n := 0) (m := 12)) in HW; [ | lia].
        congruence.
    + apply nth_error_None in HT. lia.
  - intros (landmarks & others & Hm & Hlen).
    unfold onResults. rewrite Hm.
    assert (HT : nth_error landmarks 12 = None) by (apply nth_error_None; lia).
    rewrite HT.
    destruct (nth_error landmarks 0); [ | reflexivity].
    destruct (nth_error landmarks 9); reflexivity.
  - intros landmarks others Hm. unfold onResults. rewrite Hm. reflexivity.
Qed.

(** X1 on a "hand" of a single landmark. *)
Lemma onResults_throws_iff_witness :
  onResults (mkResults (Some [[mkLandmark 0.5%float 0.5%float 0%float]]))
  = Threw.
Proof.
  apply (proj2 (proj1 (@onResults_throws_iff float float_Number
           (mkResults (Some [[mkLandmark 0.5%float 0.5%float 0%float]]))))).
  eexists _, []. split; [reflexivity | simpl; lia].
Defined.

(** ** NaN in a frame, on doubles *)

(** A NaN in one of the two points makes their distance NaN. *)
Lemma nan_planarDistance (P Q : NormalizedLandmark float) :
  PrimFloat.is_nan (x P) || PrimFloat.is_nan (y P) ||
  PrimFloat.is_nan (x Q) || PrimFloat.is_nan (y Q) = true ->
  Prim2SF (spec_planarDistance P Q) = S754_nan.
Proof.
  intros Hn. unfold spec_planarDistance. float_unfold. apply nan_sqrt.
  repeat (apply orb_true_iff in Hn; destruct Hn as [Hn | Hn]);
    apply is_nan_spec in Hn.
  - apply nan_add_l, nan_mul_l, nan_sub_l, Hn.
  - apply nan_add_r, nan_mul_l, nan_sub_l, Hn.
  - apply nan_add_l, nan_mul_l, nan_sub_r, Hn.
  - apply nan_add_r, nan_mul_l, nan_sub_r, Hn.
Qed.

(** X2. On doubles, a frame in which the wrist, the knuckle or the tip has a
    NaN coordinate (x or y) is never classified OPEN: the observation
    delivered for it carries FIST. *)
Theorem nan_frame_is_fist (results : Results float)
    (W M T : NormalizedLandmark float) :
  hand_frame results W M T ->
  has_nan W M T = true ->
  exists d, onResults results = Delivered (Some d) /\ gesture d = FIST.
Proof.
  intros Hf Hn. rewrite (onResults_hand Hf). eexists. split; [reflexivity | ].
  match goal with
  | |- gesture (mkHandData _ _ ?g) = _ => change (g = FIST)
  end.
  assert (Hcmp : (spec_planarDistance T W
                  >? spec_planarDistance M W * OPEN_RATIO)%js = false).
  { unfold has_nan in Hn. simpl in Hn. rewrite orb_false_r in Hn.
    float_unfold.
    destruct (PrimFloat.is_nan (x W)) eqn:HWx;
      [apply nan_ltb_r, nan_planarDistance; rewrite HWx;
       repeat rewrite ?orb_true_r, ?orb_true_l; reflexivity | ].
    destruct (PrimFloat.is_nan (y W)) eqn:HWy;
      [apply nan_ltb_r, nan_planarDistance; rewrite HWy;
       repeat rewrite ?orb_true_r, ?orb_true_l; reflexivity | ].
    destruct (PrimFloat.is_nan (x M)) eqn:HMx;
      [apply nan_ltb_l, nan_mul_l, nan_planarDistance; rewrite HMx;
       reflexivity | ].
    destruct (PrimFloat.is_nan (y M)) eqn:HMy;
      [apply nan_ltb_l, nan_mul_l, nan_planarDistance; rewrite HMy;
       repeat rewrite ?orb_true_r, ?orb_true_l; reflexivity | ].
    simpl in Hn.
    apply nan_ltb_r, nan_planarDistance.
    apply orb_true_iff in Hn. destruct Hn as [-> | ->];
      repeat rewrite ?orb_true_r, ?orb_true_l; reflexivity. }
  rewrite Hcmp. reflexivity.
Qed.

(** X2 on the frame with wrist (0.5, 0.5), knuckle (0.5, 0.25) and a tip
    whose y is NaN. *)
Lemma nan_frame_is_fist_witness :
  exists d,
    onResults (frame_of (mkLandmark 0.5%float 0.5%float 0%float)
                        (mkLandmark 0.5%float 0.25%float 0%float)
                        (mkLandmark 0.5%float nan 0%float))
    = Delivered (Some d) /\ gesture d = FIST.
Proof.
  apply (@nan_frame_is_fist _ (mkLandmark 0.5%float 0.5%float 0%float)
           (mkLandmark 0.5%float 0.25%float 0%float)
           (mkLandmark 0.5%float nan 0%float)).
  - eexists _, []. repeat split; reflexivity.
  - reflexivity.
Defined.

(** ** The interpreter in exact arithmetic *)

Section InterpreterReal.
Local Open Scope R_scope.

Lemma planarDistance_R (P Q : NormalizedLandmark R) :
  spec_planarDistance P Q
  = sqrt ((x P - x Q) * (x P - x Q) + (y P - y Q) * (y P - y Q)).
Proof. reflexivity. Qed.

Lemma planarDistance_nonneg (P Q : NormalizedLandmark R) :
  0 <= spec_planarDistance P Q.
Proof. rewrite planarDistance_R. apply sqrt_pos. Qed.

Lemma gesture_R (results : Results R) (W M T : NormalizedLandmark R) :
  hand_frame results W M T ->
  exists d, onResults results = Delivered (Some d) /\
    gesture d = if Rlt_dec (spec_planarDistance M W * (18 / 10))
                           (spec_planarDistance T W)
                then OPEN else FIST.
Proof.
  intros Hf. rewrite (onResults_hand Hf). eexists. split; [reflexivity | ].
  match goal with
  | |- gesture (mkHandData _ _ ?g) = ?rhs => change (g = rhs)
  end.
  unfold OPEN_RATIO. js_unfold. unfold Rltb.
  destruct (Rlt_dec _ _); reflexivity.
Qed.

(** Moving two points by a similarity multiplies their distance by the
    scale. *)
Lemma planarDistance_moved (s k a b : R) (P Q P' Q' : NormalizedLandmark R) :
  s = 1 \/ s = -1 -> 0 < k ->
  moved s k a b P P' -> moved s k a b Q Q' ->
  spec_planarDistance P' Q' = k * spec_planarDistance P Q.
Proof.
  intros Hs Hk [HPx HPy] [HQx HQy]. rewrite !planarDistance_R.
  rewrite HPx, HPy, HQx, HQy.
  assert (Hss : s * s = 1) by (destruct Hs; subst s; lra).
  replace ((s * k * x P + a - (s * k * x Q + a)) *
           (s * k * x P + a - (s * k * x Q + a)) +
           (k * y P + b - (k * y Q + b)) * (k * y P + b - (k * y Q + b)))
    with (k * k * ((x P - x Q) * (x P - x Q) + (y P - y Q) * (y P - y Q))).
  - rewrite sqrt_mult_alt by nra. rewrite sqrt_square by lra. reflexivity.
  - transitivity ((s * s) * (k * k * ((x P - x Q) * (x P - x Q)))
                  + k * k * ((y P - y Q) * (y P - y Q))); [ | ring].
    rewrite Hss. ring.
Qed.
End InterpreterReal.

(** X3. The gesture depends only on the shape of the hand: two frames
    whose wrist, knuckle and tip differ by a similarity of the image plane
    (a translation, a scaling by k > 0 and possibly the mirror image) are
    classified alike. *)
Theorem gesture_similarity_invariant (results results' : Results R)
    (W M T W' M' T' : NormalizedLandmark R) (s k a b : R) :
  hand_frame results W M T -> hand_frame results' W' M' T' ->
  s = 1%R \/ s = (-1)%R -> (0 < k)%R ->
  moved s k a b W W' -> moved s k a b M M' -> moved s k a b T T' ->
  exists d d',
    onResults results = Delivered (Some d) /\
    onResults results' = Delivered (Some d') /\
    gesture d = gesture d'.
Proof.
  intros Hf Hf' Hs Hk HW HM HT.
  destruct (gesture_R Hf) as (d & Hd & Hg).
  destruct (gesture_R Hf') as (d' & Hd' & Hg').
  exists d, d'. split; [exact Hd | split; [exact Hd' | ]].
  rewrite Hg, Hg'. clear Hg Hg'.
  rewrite (planarDistance_moved Hs Hk HM HW), (planarDistance_moved Hs Hk HT HW).
  pose proof (planarDistance_nonneg M W). pose proof (planarDistance_nonneg T W).
  destruct (Rlt_dec _ _) as [H1 | H1]; destruct (Rlt_dec _ _) as [H2 | H2];
    try reflexivity; exfalso.
  - apply Rnot_lt_le in H2. nra.
  - apply Rnot_lt_le in H1. nra.
Qed.

(** X3 on the example open hand and its copy at half the size, mirrored and
    moved to the middle of the image. *)
Lemma gesture_similarity_invariant_witness :
  exists d d',
    onResults (frame_of (mkLandmark 0 (1 / 2) 0)%R (mkLandmark 0 (3 / 10) 0)%R
                        (mkLandmark 0 (1 / 20) 0)%R) = Delivered (Some d) /\
    onResults (frame_of (mkLandmark (1 / 2) (3 / 4) 0)%R
                        (mkLandmark (1 / 2) (13 / 20) 0)%R
                        (mkLandmark (1 / 2) (21 / 40) 0)%R) = Delivered (Some d') /\
    gesture d = gesture d'.
Proof.
  apply (@gesture_similarity_invariant _ _
           (mkLandmark 0 (1 / 2) 0)%R (mkLandmark 0 (3 / 10) 0)%R
           (mkLandmark 0 (1 / 20) 0)%R
           (mkLandmark (1 / 2) (3 / 4) 0)%R (mkLandmark (1 / 2) (13 / 20) 0)%R
           (mkLandmark (1 / 2) (21 / 40) 0)%R (-1)%R (1 / 2)%R (1 / 2)%R (1 / 2)%R).
  - eexists _, []. repeat split; reflexivity.
  - eexists _, []. repeat split; reflexivity.
  - right. reflexivity.
  - lra.
  - split; simpl; lra.
  - split; simpl; lra.
  - split; simpl; lra.
Defined.

(** X4. The helper [isFingerExtended] that [onResults] declares but never
    calls is the weaker test: whenever the gesture is OPEN the helper, asked
    about the middle finger, answers true; when it answers false the gesture
    is FIST. *)
Theorem open_implies_finger_extended (results : Results R)
    (W M T : NormalizedLandmark R) :
  hand_frame results W M T ->
  exists d, onResults results = Delivered (Some d) /\
    (gesture d = OPEN -> isFingerExtended W T M = true) /\
    (isFingerExtended W T M = false -> gesture d = FIST).
Proof.
  intros Hf. destruct (gesture_R Hf) as (d & Hd & Hg).
  exists d. split; [exact Hd | ].
  assert (Hh : isFingerExtended W T M
               = Rltb (spec_planarDistance M W * (15 / 10))
                      (spec_planarDistance T W)) by reflexivity.
  rewrite Hh, Hg.
  pose proof (planarDistance_nonneg M W).
  destruct (Rlt_dec _ _) as [H1 | H1]; split; intros H2;
    try reflexivity; try discriminate.
  - apply Rltb_true. lra.
  - apply Rltb_false in H2. exfalso. lra.
Qed.

(** X4 on the example open hand. *)
Lemma open_implies_finger_extended_witness :
  exists d,
    onResults frame_open_right = Delivered (Some d) /\
    (gesture d = OPEN ->
     isFingerExtended (mkLandmark 0 (1 / 2) 0)%R (mkLandmark 0 (1 / 20) 0)%R
                      (mkLandmark 0 (3 / 10) 0)%R = true).
Proof.
  destruct (@open_implies_finger_extended frame_open_right
              (mkLandmark 0 (1 / 2) 0)%R (mkLandmark 0 (3 / 10) 0)%R
              (mkLandmark 0 (1 / 20) 0)%R) as (d & Hd & Ho & _).
  - eexists _, []. repeat split; reflexivity.
  - exists d. split; assumption.
Defined.

(** X5. In exact arithmetic the position of an observation determines the
    wrist: x and y of the wrist are (1 - position.x) / 2 and
    (1 - position.y) / 2; and the mirror image of a wrist (x replaced by
    1 - x) lands at the opposite x with the same y.  On doubles the wrist is
    determined up to rounding only: 0.3 and the next double give the same
    position. *)
Theorem position_round_trip :
  (forall (results results' : Results R)
          (W M T W' M' T' : NormalizedLandmark R),
     hand_frame results W M T -> hand_frame results' W' M' T' ->
     exists d d',
       onResults results = Delivered (Some d) /\
       onResults results' = Delivered (Some d') /\
       x W = ((1 - THREE.x (HandTracker.position d)) / 2)%R /\
       y W = ((1 - THREE.y (HandTracker.position d)) / 2)%R /\
       (HandTracker.position d = HandTracker.position d' ->
        x W = x W' /\ y W = y W') /\
       (x W' = (1 - x W)%R -> y W' = y W ->
        THREE.x (HandTracker.position d')
        = (- THREE.x (HandTracker.position d))%R /\
        THREE.y (HandTracker.position d')
        = THREE.y (HandTracker.position d))) /\
  (let W := mkLandmark 0x1.3333333333333p-2%float 0.5%float 0%float in
   let W' := mkLandmark 0x1.3333333333334p-2%float 0.5%float 0%float in
   let M := mkLandmark 0.5%float 0.25%float 0%float in
   let T := mkLandmark 0.5%float 0%float 0%float in
   exists d d',
     onResults (frame_of W M T) = Delivered (Some d) /\
     onResults (frame_of W' M T) = Delivered (Some d') /\
     HandTracker.position d = HandTracker.position d' /\
     PrimFloat.eqb (x W) (x W') = false).
Proof.
  split.
  - intros results results' W M T W' M' T' Hf Hf'.
    rewrite (onResults_hand Hf), (onResults_hand Hf').
    eexists _, _. split; [reflexivity | split; [reflexivity | ]].
    simpl. js_unfold. repeat split.
    + lra.
    + lra.
    + injection H as Hx Hy. lra.
    + injection H as Hx Hy. lra.
    + lra.
    + lra.
  - intros W W' M T. eexists _, _.
    split; [vm_compute; reflexivity | ].
    split; [vm_compute; reflexivity | ].
    split; reflexivity.
Qed.

(** X5 on the example open hand and its mirror image. *)
Lemma position_round_trip_witness :
  exists d d',
    onResults frame_open_right = Delivered (Some d) /\
    onResults (frame_of (mkLandmark 1 (1 / 2) 0)%R (mkLandmark 1 (3 / 10) 0)%R
                        (mkLandmark 1 (1 / 20) 0)%R) = Delivered (Some d') /\
    THREE.x (HandTracker.position d')
    = (- THREE.x (HandTracker.position d))%R.
Proof.
  destruct (proj1 position_round_trip frame_open_right
              (frame_of (mkLandmark 1 (1 / 2) 0)%R (mkLandmark 1 (3 / 10) 0)%R
                        (mkLandmark 1 (1 / 20) 0)%R)
              (mkLandmark 0 (1 / 2) 0)%R (mkLandmark 0 (3 / 10) 0)%R
              (mkLandmark 0 (1 / 20) 0)%R
              (mkLandmark 1 (1 / 2) 0)%R (mkLandmark 1 (3 / 10) 0)%R
              (mkLandmark 1 (1 / 20) 0)%R)
    as (d & d' & Hd & Hd' & _ & _ & _ & Hm).
  - eexists _, []. repeat split; reflexivity.
  - eexists _, []. repeat split; reflexivity.
  - exists d, d'. split; [exact Hd | split; [exact Hd' | ]].
    apply Hm; simpl; lra.
Defined.

(** ** The orientation as a rotation of the viewing plane *)

Section OrientationReal.
Local Open Scope R_scope.

(** [normalize] returns the identity or the quaternion divided by its
    positive length. *)
Lemma Quaternion_normalize_cases (q : Quaternion R) :
  Quaternion_normalize q = mkQuaternion 0 0 0 1 \/
  exists l, 0 < l /\ l * l = Quaternion_lengthSq q /\
    Quaternion_normalize q
    = mkQuaternion (_x q * (1 / l)) (_y q * (1 / l))
                   (_z q * (1 / l)) (_w q * (1 / l)).
Proof.
  pose proof (lengthSq_nonneg q) as Hs.
  destruct (Req_dec_T (Quaternion_lengthSq q) 0) as [Hz | Hnz].
  - left. unfold Quaternion_normalize.
    rewrite Quaternion_length_sqrt, Hz, sqrt_0.
    change (neqb 0 zero) with (Reqb 0 0).
    rewrite (proj2 (Reqb_true 0 0)) by reflexivity. reflexivity.
  - right. destruct (@Quaternion_normalize_pos q) as [Hl Hn]; [lra | ].
    exists (sqrt (Quaternion_lengthSq q)).
    split; [exact Hl | split; [apply sqrt_sqrt; exact Hs | exact Hn]].
Qed.

(** The rotation taking "up" to a vector of the plane z = 0 turns about
    the z axis, by at most a half turn. *)
Lemma setFromUnitVectors_up_planar (v : Vector3 R) :
  THREE.z v = 0 ->
  let q := Quaternion_setFromUnitVectors (mkVector3 0 1 0) v in
  _x q = 0 /\ _y q = 0 /\ 0 <= _w q.
Proof.
  intros Hz. cbv zeta. unfold Quaternion_setFromUnitVectors, Vector3_dot.
  simpl. js_unfold. rewrite Hz.
  destruct (Rltb (0 * THREE.x v + 1 * THREE.y v + 0 * 0 + 1)
                 (1 / 4503599627370496)) eqn:Hr.
  - Rcmp.
    destruct (Quaternion_normalize_cases (mkQuaternion 0 (- 0) 1 0))
      as [-> | (l & Hl & _ & ->)]; simpl; repeat split; lra.
  - apply Rltb_false in Hr.
    match goal with
    | |- context [Quaternion_normalize ?q] =>
        destruct (Quaternion_normalize_cases q) as [-> | (l & Hl & _ & ->)]
    end; simpl.
    + repeat split; lra.
    + assert (0 < 1 / l) by (apply Rdiv_lt_0_compat; lra).
      repeat split; try lra. nra.
Qed.

(** A vector of non-zero length is divided by its length. *)
Lemma Vector3_normalize_nonzero (v : Vector3 R) :
  Vector3_length v <> 0 ->
  let l := Vector3_length v in
  0 < l /\ l * l = THREE.x v * THREE.x v + THREE.y v * THREE.y v
                   + THREE.z v * THREE.z v /\
  Vector3_normalize v
  = mkVector3 (THREE.x v * (1 / l)) (THREE.y v * (1 / l))
              (THREE.z v * (1 / l)).
Proof.
  intros Hnz l.
  assert (Hl : 0 < l).
  { pose proof (sqrt_pos (THREE.x v * THREE.x v + THREE.y v * THREE.y v
                          + THREE.z v * THREE.z v)) as Hp.
    change (0 <= l) in Hp. unfold l in *. lra. }
  split; [exact Hl | split].
  - unfold l, Vector3_length. js_unfold. apply sqrt_sqrt. nra.
  - unfold Vector3_normalize, or_else, truthy.
    fold l. change (@zero R _) with 0. change (@nltb R _) with Rltb.
    rewrite (proj2 (Rltb_true 0 l)) by exact Hl.
    rewrite orb_true_r. reflexivity.
Qed.

(** The rotation [setFromUnitVectors] builds does take "up" to a unit
    vector of the plane, unless the vector points down to within 2^-52, in
    which case it is the half turn. *)
Lemma setFromUnitVectors_up_rotates (v : Vector3 R) :
  THREE.z v = 0 -> THREE.x v * THREE.x v + THREE.y v * THREE.y v = 1 ->
  let q := Quaternion_setFromUnitVectors (mkVector3 0 1 0) v in
  (1 / 4503599627370496 <= 1 + THREE.y v ->
   Vector3_applyQuaternion (mkVector3 0 1 0) q = v) /\
  (1 + THREE.y v < 1 / 4503599627370496 ->
   Vector3_applyQuaternion (mkVector3 0 1 0) q = mkVector3 0 (-1) 0).
Proof.
  intros Hz Hu. cbv zeta. destruct v as [vx vy vz]. simpl in Hz, Hu. subst vz.
  unfold Quaternion_setFromUnitVectors, Vector3_dot. simpl. js_unfold.
  split; intros Hr.
  - rewrite (proj2 (Rltb_false (0 * vx + 1 * vy + 0 * 0 + 1)
                               (1 / 4503599627370496))) by lra.
    destruct (@Quaternion_normalize_pos
                (mkQuaternion (1 * 0 - 0 * vy) (0 * vx - 0 * 0)
                              (0 * vy - 1 * vx) (0 * vx + 1 * vy + 0 * 0 + 1)))
      as [Hl Hn].
    { unfold Quaternion_lengthSq. simpl. js_unfold. nra. }
    rewrite Hn. clear Hn.
    set (l := sqrt _) in *.
    assert (Hll : l * l = 2 * (1 + vy)).
    { unfold l. rewrite sqrt_sqrt.
      - unfold Quaternion_lengthSq. simpl. js_unfold. nra.
      - apply lengthSq_nonneg. }
    assert (Hi : (1 / l) * (1 / l) * (2 * (1 + vy)) = 1).
    { rewrite <- Hll. field. lra. }
    clearbody l. set (i := 1 / l) in *. clearbody i.
    unfold Vector3_applyQuaternion. simpl. apply f_equal3.
    + transitivity (vx * (i * i * (2 * (1 + vy)))); [ring | rewrite Hi; ring].
    + assert (Hx : vx * vx = (1 - vy) * (1 + vy)) by nra.
      transitivity (1 - 2 * (vx * vx) * (i * i)); [ring | ].
      rewrite Hx.
      transitivity (1 - (1 - vy) * (i * i * (2 * (1 + vy)))); [ring | ].
      rewrite Hi. ring.
    + ring.
  - rewrite (proj2 (Rltb_true (0 * vx + 1 * vy + 0 * 0 + 1)
                              (1 / 4503599627370496))) by lra.
    Rcmp.
    destruct (@Quaternion_normalize_pos (mkQuaternion 0 (- 0) 1 0)) as [Hl Hn].
    { unfold Quaternion_lengthSq. simpl. js_unfold. lra. }
    rewrite Hn. clear Hn Hl.
    replace (Quaternion_lengthSq (mkQuaternion 0 (- 0) 1 0)) with 1
      by (unfold Quaternion_lengthSq; simpl; js_unfold; lra).
    rewrite sqrt_1. unfold Vector3_applyQuaternion. simpl.
    apply f_equal3; lra.
Qed.
End OrientationReal.

Lemma rotation_R (results : Results R) (W M T : NormalizedLandmark R) :
  hand_frame results W M T ->
  exists d, onResults results = Delivered (Some d) /\
    rotation d
    = Quaternion_setFromUnitVectors (mkVector3 0 1 0)%R
        (Vector3_normalize (direction W M)).
Proof.
  intros Hf. rewrite (onResults_hand Hf). eexists. split; reflexivity.
Qed.

(** X6. In exact arithmetic the orientation of every observation is a
    rotation about the z axis (the view direction): its x and y components
    are 0 and its w component is not negative, that is, the shield is turned
    in the plane of the screen, by at most a half turn. *)
Theorem orientation_about_z (results : Results R)
    (W M T : NormalizedLandmark R) :
  hand_frame results W M T ->
  exists d, onResults results = Delivered (Some d) /\
    _x (rotation d) = 0%R /\ _y (rotation d) = 0%R /\ (0 <= _w (rotation d))%R.
Proof.
  intros Hf. rewrite (onResults_hand Hf). eexists. split; [reflexivity | ].
  simpl rotation.
  change (mkVector3 (@zero R _) one zero) with (mkVector3 0%R 1%R 0%R).
  apply setFromUnitVectors_up_planar.
  unfold Vector3_normalize, Vector3_divideScalar, Vector3_multiplyScalar.
  simpl. js_unfold. lra.
Qed.

(** X6 on the example open hand. *)
Lemma orientation_about_z_witness :
  exists d, onResults frame_open_right = Delivered (Some d) /\
    _x (rotation d) = 0%R /\ _y (rotation d) = 0%R /\ (0 <= _w (rotation d))%R.
Proof.
  apply (@orientation_about_z frame_open_right
           (mkLandmark 0 (1 / 2) 0)%R (mkLandmark 0 (3 / 10) 0)%R
           (mkLandmark 0 (1 / 20) 0)%R).
  eexists _, []. repeat split; reflexivity.
Defined.

(** X7. In exact arithmetic, when wrist and knuckle do not coincide, the
    orientation rotates the shield's up axis (0,1,0) onto the normalized
    wrist-to-knuckle direction (mirrored in x, flipped in y); the one
    exception is a direction within 2^-52 of straight down, for which the
    orientation is the half turn and up goes to (0,-1,0). *)
Theorem orientation_rotates_up (results : Results R)
    (W M T : NormalizedLandmark R) :
  hand_frame results W M T ->
  Vector3_length (direction W M) <> 0%R ->
  let dir := Vector3_normalize (direction W M) in
  exists d, onResults results = Delivered (Some d) /\
    ((1 / 4503599627370496 <= 1 + THREE.y dir)%R ->
     Vector3_applyQuaternion (mkVector3 0 1 0)%R (rotation d) = dir) /\
    ((1 + THREE.y dir < 1 / 4503599627370496)%R ->
     Vector3_applyQuaternion (mkVector3 0 1 0)%R (rotation d)
     = mkVector3 0 (-1) 0)%R.
Proof.
  intros Hf Hnz dir. destruct (rotation_R Hf) as (d & Hd & Hrot).
  exists d. split; [exact Hd | ]. rewrite Hrot. subst dir.
  destruct (@Vector3_normalize_nonzero _ Hnz) as (Hl & Hll & Hn).
  rewrite Hn.
  remember (Vector3_length (direction W M)) as l eqn:Heql. clear Heql Hn.
  simpl in Hll.
  apply setFromUnitVectors_up_rotates; simpl.
  - lra.
  - transitivity (l * l * ((1 / l) * (1 / l)))%R;
      [rewrite Hll; ring | field; lra].
Qed.

(** X7 on the example open hand, whose knuckle is straight above the
    wrist (the direction has length 1/5). *)
Lemma orientation_rotates_up_witness :
  let dir := Vector3_normalize
               (direction (mkLandmark 0 (1 / 2) 0)%R
                          (mkLandmark 0 (3 / 10) 0)%R) in
  exists d, onResults frame_open_right = Delivered (Some d) /\
    ((1 / 4503599627370496 <= 1 + THREE.y dir)%R ->
     Vector3_applyQuaternion (mkVector3 0 1 0)%R (rotation d) = dir) /\
    ((1 + THREE.y dir < 1 / 4503599627370496)%R ->
     Vector3_applyQuaternion (mkVector3 0 1 0)%R (rotation d)
     = mkVector3 0 (-1) 0)%R.
Proof.
  apply (@orientation_rotates_up frame_open_right
           (mkLandmark 0 (1 / 2) 0)%R (mkLandmark 0 (3 / 10) 0)%R
           (mkLandmark 0 (1 / 20) 0)%R).
  - eexists _, []. repeat split; reflexivity.
  - unfold Vector3_length, direction. simpl. js_unfold.
    replace ((1 - 0 - (1 - 0)) * (1 - 0 - (1 - 0)) +
             - (3 / 10 - 1 / 2) * - (3 / 10 - 1 / 2) + 0 * 0)%R
      with (1 / 5 * (1 / 5))%R by lra.
    rewrite sqrt_square; lra.
Defined.

(** ** The hand-off slot *)

(** X8. The hand-off between the capture pipeline and the render loop is a
    single slot with last-write-wins: a frame touches nothing but the slot
    (rig, shield and the shield's prop are untouched); a frame that delivers
    overwrites whatever an earlier frame left; a frame without a hand empties
    the slot; and a frame on which [onResults] throws leaves the previous
    observation in place. *)
Theorem handoff_last_write_wins {N : Type} `{Number N}
    (results1 results2 : Results N) (s : State N) :
  (rig (onFrame results1 s) = rig s /\
   shield (onFrame results1 s) = shield s /\
   visibleProp (onFrame results1 s) = visibleProp s) /\
  (onResults results2 <> Threw ->
   onFrame results2 (onFrame results1 s) = onFrame results2 s) /\
  (no_hand results2 -> handDataRef (onFrame results2 s) = None) /\
  (onResults results2 = Threw -> onFrame results2 s = s).
Proof.
  unfold onFrame. repeat split.
  - destruct (onResults results1); reflexivity.
  - destruct (onResults results1); reflexivity.
  - destruct (onResults results1); reflexivity.
  - intros Hn. destruct (onResults results2); [congruence | ].
    destruct (onResults results1); reflexivity.
  - intros Hn. rewrite (onResults_no_hand Hn). reflexivity.
  - intros ->. reflexivity.
Qed.

(** X8 on doubles: a one-landmark "hand" arriving after an open hand leaves
    the open hand in the slot. *)
Lemma handoff_last_write_wins_witness :
  let stale := mkResults (Some [[mkLandmark 0.5%float 0.5%float 0%float]]) in
  let open := frame_of (mkLandmark 0.5%float 0.5%float 0%float)
                       (mkLandmark 0.5%float 0.25%float 0%float)
                       (mkLandmark 0.5%float 0%float 0%float) in
  onFrame stale (onFrame open mounted_state) = onFrame open mounted_state.
Proof.
  intros stale open.
  apply (proj2 (proj2 (proj2
    (@handoff_last_write_wins float float_Number stale stale
       (onFrame open mounted_state))))).
  reflexivity.
Defined.

(** ** Invariants of the render loop *)

Section RunFacts.
Context {N : Type} `{Number N} `{Trig N}.

(** An invariant of the three kinds of event is an invariant of every
    run. *)
Lemma run_invariant (P : State N -> Prop) (ok : Event N -> Prop) :
  (forall e s, ok e -> P s -> P (step e s)) ->
  forall es s, Forall ok es -> P s -> P (run es s).
Proof.
  intros Hstep es. induction es as [ | e es IH]; intros s Hok Hs.
  - exact Hs.
  - inversion Hok as [ | ? ? He Hes]; subst. simpl.
    apply IH; [exact Hes | apply Hstep; assumption].
Qed.

Lemma run_invariant_all (P : State N -> Prop) :
  (forall e s, P s -> P (step e s)) ->
  forall es s, P s -> P (run es s).
Proof.
  intros Hstep es s Hs.
  apply (@run_invariant P (fun _ => True)); auto.
  apply Forall_forall. auto.
Qed.

Lemma rig_onFrame (results : Results N) (s : State N) :
  rig (onFrame results s) = rig s.
Proof. unfold onFrame. destruct (onResults results); reflexivity. Qed.

Lemma shield_onFrame (results : Results N) (s : State N) :
  shield (onFrame results s) = shield s.
Proof. unfold onFrame. destruct (onResults results); reflexivity. Qed.

Lemma visibleProp_onFrame (results : Results N) (s : State N) :
  visibleProp (onFrame results s) = visibleProp s.
Proof. unfold onFrame. destruct (onResults results); reflexivity. Qed.

(** What a tick does to a mounted rig. *)
Lemma CreateRig_useFrame_cases (vp : Viewport N)
    (handData : option (HandData N)) (r : Rig N) (g : Scene3D.Group N) :
  shieldGroupRef r = Some g ->
  CreateRig_useFrame vp handData r = r \/
  exists d p q,
    handData = Some d /\ gesture d = OPEN /\
    p = Vector3_lerp (smoothedPosition r)
          (mkVector3
             (THREE.x (HandTracker.position d) * (width vp / two))%js
             (THREE.y (HandTracker.position d) * (height vp / two))%js zero)
          ALPHA /\
    q = Quaternion_slerp (smoothedRotation r) (rotation d) ALPHA /\
    CreateRig_useFrame vp handData r
    = mkRig (Some (Scene3D.mkGroup true p q)) p q.
Proof.
  intros Hg. unfold CreateRig_useFrame. rewrite Hg.
  destruct handData as [d | ]; [ | left; reflexivity].
  destruct (gesture d) eqn:Hd; simpl; try (left; reflexivity).
  right. exists d. eexists _, _. repeat split. exact Hd.
Qed.
End RunFacts.

(** X9. Whatever frames, renders and ticks occur, in any arithmetic: the
    rig's group always holds an exact copy of the smoothed position and
    orientation; and once the group has been made visible it is never hidden
    again by the rig (not when the hand closes, not when it leaves): hiding
    is left to the shield's own scale animation. *)
Theorem rig_group_in_sync {N : Type} `{Number N} `{Trig N}
    (es : list (Event N)) (s : State N) :
  group_in_sync (rig mounted_state) /\
  (group_in_sync (rig s) -> group_in_sync (rig (run es s))) /\
  (group_shown (rig s) -> group_shown (rig (run es s))).
Proof.
  split; [ | split].
  - eexists. repeat split.
  - apply (run_invariant_all (fun s => group_in_sync (rig s))).
    clear. intros [results | | t] s (g & Hg & Hp & Hq); simpl.
    + rewrite rig_onFrame. exists g. auto.
    + exists g. auto.
    + destruct (CreateRig_useFrame_cases (viewport t) (handDataRef s) _ Hg)
        as [-> | (d & p & q & _ & _ & _ & _ & ->)].
      * exists g. auto.
      * eexists. repeat split.
  - apply (run_invariant_all (fun s => group_shown (rig s))).
    clear. intros [results | | t] s (g & Hg & Hv); simpl.
    + rewrite rig_onFrame. exists g. auto.
    + exists g. auto.
    + destruct (CreateRig_useFrame_cases (viewport t) (handDataRef s) _ Hg)
        as [-> | (d & p & q & _ & _ & _ & _ & ->)].
      * exists g. auto.
      * eexists. repeat split.
Qed.

(** X9 on the run: open hand, tick, hand gone, tick. *)
Lemma rig_group_in_sync_witness :
  group_in_sync
    (rig (run [CameraFrame frame_open_right; AnimationFrame tick0;
               CameraFrame frame_no_hand; AnimationFrame tick0]
              mounted_state)).
Proof.
  apply (proj1 (proj2 (@rig_group_in_sync R R_Number R_Trig
                         [CameraFrame frame_open_right; AnimationFrame tick0;
                          CameraFrame frame_no_hand; AnimationFrame tick0]
                         mounted_state))).
  eexists. repeat split.
Defined.

(** ** Invariants in exact arithmetic *)

Section RunReal.
Local Open Scope R_scope.

Lemma setFromUnitVectors_unit (a b : Vector3 R) :
  unit (Quaternion_setFromUnitVectors a b).
Proof.
  unfold unit, Quaternion_setFromUnitVectors.
  destruct (nltb _ _); [destruct (nltb _ _) | ];
    apply Quaternion_normalize_unit.
Qed.

(** [slerp] with factor 0.1 keeps unit quaternions unit. *)
Lemma slerp_unit (q b : Quaternion R) :
  unit q -> unit b -> unit (Quaternion_slerp q b Scene3D.ALPHA).
Proof.
  intros Hq Hb. rewrite slerp_toward.
  apply slerp_near; [exact Hq | apply toward_unit; exact Hb | ].
  apply toward_dot_nonneg.
Qed.

Lemma onFrame_observation (results : Results R) (s : State R)
    (d : HandData R) :
  handDataRef (onFrame results s) = Some d ->
  handDataRef s = Some d \/
  exists W M T, hand_frame results W M T /\
    onResults results = Delivered (Some d).
Proof.
  unfold onFrame.
  destruct (onResults_cases results) as [[_ Hr] | [(W & M & T & Hf) | [_ Hr]]].
  - rewrite Hr. simpl. discriminate.
  - destruct (onResults results) as [ | [d' | ]] eqn:Hr; simpl; intros Hd.
    + left. exact Hd.
    + right. exists W, M, T. split; [exact Hf | congruence].
    + discriminate.
  - rewrite Hr. auto.
Qed.
End RunReal.

(** X10. In exact arithmetic every orientation the application ever holds
    is a unit quaternion: the observations [onResults] delivers, and the
    smoothed orientation after any sequence of frames, renders and ticks
    starting from the mounted application. *)
Theorem orientations_stay_unit (es : list (Event R)) (s : State R) :
  orientations_unit mounted_state /\
  (orientations_unit s -> orientations_unit (run es s)).
Proof.
  split.
  - split; [ | discriminate].
    unfold unit, Quaternion_lengthSq. simpl. js_unfold. lra.
  - apply (run_invariant_all orientations_unit).
    clear. intros [results | | t] s [Hu Hd]; simpl.
    + split; [rewrite rig_onFrame; exact Hu | ].
      intros d Hobs.
      destruct (onFrame_observation _ _ Hobs) as [Hs | (W & M & T & Hf & Hr)].
      * apply Hd, Hs.
      * rewrite (onResults_hand Hf) in Hr. injection Hr as <-.
        apply setFromUnitVectors_unit.
    + split; assumption.
    + split; [ | exact Hd]. simpl. unfold CreateRig_useFrame.
      destruct (shieldGroupRef (rig s)); [ | exact Hu].
      destruct (handDataRef s) as [d | ] eqn:Hobs; [ | exact Hu].
      destruct (Gesture_eqb (gesture d) OPEN); [ | exact Hu].
      simpl. apply slerp_unit; [exact Hu | apply Hd; reflexivity].
Qed.

(** X10 on the run: open hand, tick, tick. *)
Lemma orientations_stay_unit_witness :
  orientations_unit
    (run [CameraFrame frame_open_right; AnimationFrame tick0;
          AnimationFrame tick0] mounted_state).
Proof.
  apply (proj2 (@orientations_stay_unit
                  [CameraFrame frame_open_right; AnimationFrame tick0;
                   AnimationFrame tick0] mounted_state)).
  apply (proj1 (@orientations_stay_unit [] mounted_state)).
Defined.

Section ViewportReal.
Local Open Scope R_scope.


(** One lerp step toward a point of an interval around 0 stays in it. *)
Lemma lerp_step_bounded (v t m : R) :
  Rabs v <= m -> Rabs t <= m -> Rabs (v + (t - v) * (1 / 10)) <= m.
Proof.
  intros Hv Ht. apply Rabs_le. apply Rabs_le_bounds in Hv.
  apply Rabs_le_bounds in Ht. lra.
Qed.

Lemma scaled_bounded (c h : R) : Rabs c <= 1 -> 0 <= h -> Rabs (c * h) <= h.
Proof.
  intros Hc Hh. apply Rabs_le. apply Rabs_le_bounds in Hc. nra.
Qed.

Lemma position_in_ndc (results : Results R) (W M T : NormalizedLandmark R)
    (d : HandData R) :
  hand_frame results W M T -> 0 <= x W <= 1 -> 0 <= y W <= 1 ->
  onResults results = Delivered (Some d) ->
  Rabs (THREE.x (HandTracker.position d)) <= 1 /\
  Rabs (THREE.y (HandTracker.position d)) <= 1.
Proof.
  intros Hf Hx Hy Hr. rewrite (onResults_hand Hf) in Hr. injection Hr as <-.
  simpl. js_unfold. split; apply Rabs_le; lra.
Qed.
End ViewportReal.

(** X11. In exact arithmetic the shield never leaves the viewport: if every
    frame has its wrist inside the image and every tick sees the same
    viewport (of non-negative width and height), then after any sequence of
    frames, renders and ticks the smoothed position is on the plane z = 0
    with |x| <= width / 2 and |y| <= height / 2. *)
Theorem position_stays_inside_viewport (vp : Viewport R)
    (es : list (Event R)) (s : State R) :
  (0 <= width vp)%R -> (0 <= height vp)%R ->
  Forall (event_within vp) es ->
  inside_viewport vp (smoothedPosition (rig s)) /\ observation_in_ndc s ->
  inside_viewport vp (smoothedPosition (rig (run es s))) /\
  observation_in_ndc (run es s).
Proof.
  intros Hw Hh.
  apply (run_invariant
           (fun s => inside_viewport vp (smoothedPosition (rig s)) /\
                     observation_in_ndc s)).
  clear es s. intros [results | | t] s He [Hin Hobs]; simpl in He |- *.
  - rewrite rig_onFrame. split; [exact Hin | ].
    intros d Hd.
    destruct (onFrame_observation _ _ Hd) as [Hs | (W & M & T & Hf & Hr)].
    + apply Hobs, Hs.
    + destruct (He W M T Hf) as [Hx Hy].
      apply (position_in_ndc Hf Hx Hy Hr).
  - split; assumption.
  - split; [ | exact Hobs]. unfold CreateRig_useFrame.
    destruct (shieldGroupRef (rig s)); [ | exact Hin].
    destruct (handDataRef s) as [d | ] eqn:Hd; [ | exact Hin].
    destruct (Gesture_eqb (gesture d) OPEN); [ | exact Hin].
    destruct (Hobs d Hd) as [Hdx Hdy].
    destruct Hin as (Hx & Hy & Hz).
    subst vp. unfold inside_viewport. simpl. unfold ALPHA. js_unfold.
    repeat split.
    + apply lerp_step_bounded; [exact Hx | ]. apply scaled_bounded; lra.
    + apply lerp_step_bounded; [exact Hy | ]. apply scaled_bounded; lra.
    + rewrite Hz. lra.
Qed.

(** X11 on the run: open hand, tick, tick, in a 20 x 10 viewport. *)
Lemma position_stays_inside_viewport_witness :
  inside_viewport (mkViewport 20 10)%R
    (smoothedPosition
       (rig (run [CameraFrame frame_open_right; AnimationFrame tick0;
                  AnimationFrame tick0] mounted_state))).
Proof.
  refine (proj1 (@position_stays_inside_viewport (mkViewport 20 10)%R
            [CameraFrame frame_open_right; AnimationFrame tick0;
             AnimationFrame tick0] mounted_state _ _ _ _)).
  - simpl. lra.
  - simpl. lra.
  - apply Forall_cons;
      [ | apply Forall_cons;
          [reflexivity | apply Forall_cons; [reflexivity | apply Forall_nil]]].
    intros W M T (landmarks & others & Hm & HW & _).
    injection Hm as <- _. injection HW as <-. simpl. lra.
  - split.
    + unfold inside_viewport. simpl. js_unfold. rewrite Rabs_R0.
      repeat split; lra.
    + intros d Hd. discriminate.
Defined.

(** X12. In exact arithmetic the shield's scale stays uniform and between 0
    and 1: starting from the mounted shield (scale (1,1,1)), after any
    sequence of frames, renders and ticks the scale is (a, a, a) for some
    a in [0, 1]. *)
Theorem scale_stays_uniform (es : list (Event R)) (s : State R) :
  scale_uniform mounted_state /\
  (scale_uniform s -> scale_uniform (run es s)).
Proof.
  split.
  - exists (Shield.mkGroup (mkVector3 1 1 1)%R true), 1%R.
    repeat split; lra.
  - apply (run_invariant_all scale_uniform).
    clear. intros [results | | t] s (g & a & Hg & Hs & Ha); simpl.
    + exists g, a. rewrite shield_onFrame. auto.
    + exists g, a. auto.
    + destruct (@useFrame_scale R _ _ (visibleProp s) (elapsedTime t)
                  (delta t) (shield s) g Hg) as (vis & Hg' & _).
      unfold scale_uniform. simpl. rewrite Hg'. rewrite Hs.
      eexists _, (a + ((if visibleProp s then 1 else 0) - a) * (1 / 10))%R.
      split; [reflexivity | split].
      * unfold Vector3_lerp. simpl. js_unfold.
        destruct (visibleProp s); reflexivity.
      * destruct (visibleProp s); lra.
Qed.

(** X12 on the run: open hand, render, tick, tick. *)
Lemma scale_stays_uniform_witness :
  scale_uniform
    (run [CameraFrame frame_open_right; Rerender; AnimationFrame tick0;
          AnimationFrame tick0] mounted_state).
Proof.
  apply (proj2 (@scale_stays_uniform
                  [CameraFrame frame_open_right; Rerender;
                   AnimationFrame tick0; AnimationFrame tick0] mounted_state)).
  apply (proj1 (@scale_stays_uniform [] mounted_state)).
Defined.

(** ** The shield between two renders *)

Section ShieldReal.
Local Open Scope R_scope.

Lemma activation_onFrame (results : Results R) (s : State R) :
  activation (onFrame results s) = activation s.
Proof. unfold activation. rewrite shield_onFrame. reflexivity. Qed.

Lemma activation_tick (t : Tick R) (s : State R) (a : R) :
  activation s = Some a ->
  activation (tick t s)
  = Some (a + ((if visibleProp s then 1 else 0) - a) * (1 / 10)).
Proof.
  unfold activation. intros Ha.
  destruct (Shield.groupRef (shield s)) as [g | ] eqn:Hg; [ | discriminate].
  injection Ha as Ha.
  destruct (@useFrame_scale R _ _ (visibleProp s) (elapsedTime t) (delta t)
              (shield s) g Hg) as (vis & Hg' & _).
  simpl shield. rewrite Hg'. simpl. rewrite Ha. reflexivity.
Qed.
End ShieldReal.

(** X13. Between two renders of [CreateRig] the shield's [visible] prop is
    frozen, whatever frames arrive: after a run of frames and ticks without a
    render, the prop is what it was and an activation [a] has become
    1 - 0.9^n (1 - a) if the prop is true and 0.9^n a if it is false, n being
    the number of ticks.  In particular an open hand that appears after the
    last render does not bring the shield up. *)
Theorem activation_between_renders (es : list (Event R)) :
  forall (s : State R) (a : R),
  no_rerender es -> activation s = Some a ->
  visibleProp (run es s) = visibleProp s /\
  activation (run es s)
  = Some (if visibleProp s
          then 1 - (9 / 10) ^ ticks_in es * (1 - a)
          else (9 / 10) ^ ticks_in es * a)%R.
Proof.
  unfold no_rerender.
  induction es as [ | [results | | t] es IH]; intros s a Hes Ha; simpl in Hes.
  - simpl. split; [reflexivity | ]. rewrite Ha. apply f_equal.
    destruct (visibleProp s); lra.
  - simpl. rewrite <- (activation_onFrame results s) in Ha.
    destruct (IH _ _ Hes Ha) as [Hv Hact].
    rewrite Hv, Hact, visibleProp_onFrame. split; reflexivity.
  - discriminate.
  - pose proof (activation_tick t s Ha) as Ha'.
    destruct (IH _ _ Hes Ha') as [Hv Hact].
    change (run (AnimationFrame t :: es) s) with (run es (tick t s)).
    rewrite Hv, Hact. split; [reflexivity | ].
    change (visibleProp (tick t s)) with (visibleProp s).
    simpl ticks_in. simpl pow. apply f_equal.
    destruct (visibleProp s); field.
Qed.

(** X13 on the run: tick, open hand, tick, from the mounted application:
    the activation falls from 1 to 0.81 although an open hand is in the
    slot. *)
Lemma activation_between_renders_witness :
  activation (run [AnimationFrame tick0; CameraFrame frame_open_right;
                   AnimationFrame tick0] state_mounted)
  = Some ((9 / 10) ^ 2 * 1)%R.
Proof.
  refine (proj2 (@activation_between_renders
                   [AnimationFrame tick0; CameraFrame frame_open_right;
                    AnimationFrame tick0] state_mounted 1%R _ _)).
  - reflexivity.
  - reflexivity.
Defined.

(** X14. A hidden shield is frozen: when the [visible] prop is false and
    the scale is below 0.01, then through any run of frames and ticks without
    a render the three particle rings keep their rotation exactly, the scale
    stays below 0.01, and after the first tick the shield's group is marked
    invisible and stays so. *)
Theorem hidden_shield_is_frozen (es : list (Event R)) :
  forall (s : State R) (g : Shield.Group R),
  no_rerender es -> visibleProp s = false ->
  Shield.groupRef (shield s) = Some g ->
  (THREE.x (Shield.scale g) < 1 / 100)%R ->
  Shield.innerRef (shield (run es s)) = Shield.innerRef (shield s) /\
  Shield.middleRef (shield (run es s)) = Shield.middleRef (shield s) /\
  Shield.outerRef (shield (run es s)) = Shield.outerRef (shield s) /\
  exists g', Shield.groupRef (shield (run es s)) = Some g' /\
    (THREE.x (Shield.scale g') < 1 / 100)%R /\
    ((0 < ticks_in es)%nat -> Shield.visible g' = false).
Proof.
  unfold no_rerender.
  induction es as [ | [results | | t] es IH]; intros s g Hes Hv Hg Hx;
    simpl in Hes.
  - simpl. repeat split. exists g. repeat split; auto. simpl. lia.
  - simpl. rewrite <- (shield_onFrame results s) in Hg.
    rewrite <- (visibleProp_onFrame results s) in Hv.
    destruct (IH _ _ Hes Hv Hg Hx) as (Hi & Hm & Ho & g' & Hg' & Hx' & Hvis).
    rewrite Hi, Hm, Ho, shield_onFrame. repeat split.
    exists g'. auto.
  - discriminate.
  - change (run (AnimationFrame t :: es) s) with (run es (tick t s)).
    assert (Hcut : Shield.useFrame false (elapsedTime t) (delta t) (shield s)
              = Shield.mkRefs
                  (Some (Shield.mkGroup
                     (Vector3_lerp (Shield.scale g) (mkVector3 zero zero zero)
                                   (decimal 1 1)) false))
                  (Shield.innerRef (shield s)) (Shield.middleRef (shield s))
                  (Shield.outerRef (shield s))).
    { apply (@useFrame_cutoff R _ _ (elapsedTime t) (delta t) (shield s) g Hg).
      simpl. unfold Shield.CUTOFF. js_unfold. apply Rltb_true. lra. }
    assert (Hs' : shield (tick t s)
              = Shield.mkRefs
                  (Some (Shield.mkGroup
                     (Vector3_lerp (Shield.scale g) (mkVector3 zero zero zero)
                                   (decimal 1 1)) false))
                  (Shield.innerRef (shield s)) (Shield.middleRef (shield s))
                  (Shield.outerRef (shield s))).
    { simpl. rewrite Hv. exact Hcut. }
    assert (Hx' : (THREE.x (Vector3_lerp (Shield.scale g)
                              (mkVector3 zero zero zero) (decimal 1 1))
                   < 1 / 100)%R).
    { simpl. js_unfold. lra. }
    destruct (IH (tick t s) _ Hes Hv ltac:(rewrite Hs'; reflexivity) Hx')
      as (Hi & Hm & Ho & g' & Hg' & Hxg' & Hvis).
    rewrite Hi, Hm, Ho, Hs'. repeat split.
    exists g'. split; [exact Hg' | split; [exact Hxg' | ]].
    intros _. destruct (ticks_in es) as [ | n] eqn:Hn.
    + assert (Hrun : shield (run es (tick t s)) = shield (tick t s)).
      { clear - Hn Hes. revert Hn Hes. generalize (tick t s).
        induction es as [ | [results | | t'] es IH']; intros s0 Hn Hes;
          simpl in *; try discriminate; try reflexivity.
        rewrite IH' by assumption. apply shield_onFrame. }
      rewrite Hrun, Hs' in Hg'. injection Hg' as <-. reflexivity.
    + apply Hvis. lia.
Qed.

(** X14 on the shield shrunk to 1/200, through a tick, an open hand and
    another tick. *)
Lemma hidden_shield_is_frozen_witness :
  let s := mkState None false (rig state_mounted) refs_tiny in
  let es := [AnimationFrame tick0; CameraFrame frame_open_right;
             AnimationFrame tick0] in
  Shield.innerRef (shield (run es s)) = Shield.innerRef (shield s) /\
  Shield.middleRef (shield (run es s)) = Shield.middleRef (shield s) /\
  Shield.outerRef (shield (run es s)) = Shield.outerRef (shield s) /\
  exists g', Shield.groupRef (shield (run es s)) = Some g' /\
    (THREE.x (Shield.scale g') < 1 / 100)%R /\
    ((0 < ticks_in es)%nat -> Shield.visible g' = false).
Proof.
  intros s es.
  refine (@hidden_shield_is_frozen es s _ eq_refl eq_refl eq_refl _).
  simpl. lra.
Defined.

(** ** The rotation of the particle rings *)

Section RingFacts.
Local Open Scope R_scope.

Lemma useFrame_shown (elapsedTime delta : R) (refs : Shield.Refs R)
    (g : Shield.Group R) :
  Shield.groupRef refs = Some g ->
  exists g',
    Shield.useFrame true elapsedTime delta refs
    = Shield.mkRefs (Some g')
        (option_map (fun p => Shield.set_z p (fun r => r - delta * (5 / 10)))
                    (Shield.innerRef refs))
        (option_map (fun p => Shield.set_z p (fun r => r + delta * (3 / 10)))
                    (Shield.middleRef refs))
        (option_map
           (fun p => Shield.set_x
                       (Shield.set_z p (fun r => r - delta * (1 / 10)))
                       (sin elapsedTime * (1 / 10)))
           (Shield.outerRef refs)) /\
    Shield.visible g' = true.
Proof.
  intros Hg. unfold Shield.useFrame. rewrite Hg, andb_false_r.
  eexists. split; [reflexivity | reflexivity].
Qed.
End RingFacts.

(** X15. The rings turn with the time that passed, not with the number of
    ticks: while the [visible] prop is true, after any run of ticks the
    inner ring has turned about z by -0.5 times the sum of the ticks'
    deltas, the middle ring by +0.3 times it and the outer ring by -0.1
    times it; the outer ring's tilt about x is sin(elapsedTime)/10 of the
    last tick, at most 0.1 in size; and the group is drawn. *)
Theorem rings_turn_with_time (ts : list (Tick R)) :
  forall (s : State R) (g : Shield.Group R) (pi pm po : Shield.Points R),
  visibleProp s = true ->
  Shield.groupRef (shield s) = Some g ->
  Shield.innerRef (shield s) = Some pi ->
  Shield.middleRef (shield s) = Some pm ->
  Shield.outerRef (shield s) = Some po ->
  ts <> [] ->
  exists g' pi' pm' po',
    Shield.groupRef (shield (ticks ts s)) = Some g' /\
    Shield.visible g' = true /\
    Shield.innerRef (shield (ticks ts s)) = Some pi' /\
    Shield.middleRef (shield (ticks ts s)) = Some pm' /\
    Shield.outerRef (shield (ticks ts s)) = Some po' /\
    turned (- (elapsed ts * (5 / 10)))%R pi pi' /\
    turned (elapsed ts * (3 / 10))%R pm pm' /\
    THREE.y (Shield.rotation po') = THREE.y (Shield.rotation po) /\
    THREE.z (Shield.rotation po')
    = (THREE.z (Shield.rotation po) - elapsed ts * (1 / 10))%R /\
    (forall d, THREE.x (Shield.rotation po')
               = (sin (elapsedTime (last ts d)) * (1 / 10))%R) /\
    (Rabs (THREE.x (Shield.rotation po')) <= 1 / 10)%R.
Proof.
  induction ts as [ | t ts IH]; intros s g pi pm po Hv Hg Hi Hm Ho Hne;
    [congruence | ].
  destruct (useFrame_shown (elapsedTime t) (delta t) (shield s) Hg)
    as (g1 & Hs1 & Hvis1).
  rewrite Hi, Hm, Ho in Hs1. simpl option_map in Hs1.
  assert (Hshield : shield (tick t s) = _) by (simpl; rewrite Hv; exact Hs1).
  destruct ts as [ | t' ts].
  - simpl ticks. rewrite Hshield. simpl.
    pose proof (SIN_bound (elapsedTime t)) as [Hlo Hhi].
    eexists _, _, _, _. repeat split;
      try reflexivity; try exact Hvis1; simpl; js_unfold; try lra.
    apply Rabs_le. lra.
  - destruct (IH (tick t s) g1 _ _ _ Hv
                ltac:(rewrite Hshield; reflexivity)
                ltac:(rewrite Hshield; reflexivity)
                ltac:(rewrite Hshield; reflexivity)
                ltac:(rewrite Hshield; reflexivity)
                ltac:(discriminate))
      as (g' & pi' & pm' & po' & Hg' & Hvis & Hi' & Hm' & Ho'
          & (Hix & Hiy & Hiz) & (Hmx & Hmy & Hmz) & Hoy & Hoz & Hox & Habs).
    change (ticks (t :: t' :: ts) s) with (ticks (t' :: ts) (tick t s)).
    exists g', pi', pm', po'.
    change (elapsed (t :: t' :: ts)) with (delta t + elapsed (t' :: ts))%R.
    remember (elapsed (t' :: ts)) as e eqn:He. clear He.
    simpl in Hix, Hiy, Hiz, Hmx, Hmy, Hmz, Hoy, Hoz.
    repeat split; try assumption.
    + rewrite Hiz. js_unfold. lra.
    + rewrite Hmz. js_unfold. lra.
    + rewrite Hoz. js_unfold. lra.
Qed.

(** X15 on two ticks of 16 ms and 33 ms from the mounted shield. *)
Lemma rings_turn_with_time_witness :
  let ts := [mkTick (viewport tick0) (16 / 1000)%R (16 / 1000)%R;
             mkTick (viewport tick0) (49 / 1000)%R (33 / 1000)%R] in
  let s := mkState None true (rig state_mounted) Shield.Refs_mounted in
  exists g' pi' pm' po',
    Shield.groupRef (shield (ticks ts s)) = Some g' /\
    Shield.visible g' = true /\
    Shield.innerRef (shield (ticks ts s)) = Some pi' /\
    Shield.middleRef (shield (ticks ts s)) = Some pm' /\
    Shield.outerRef (shield (ticks ts s)) = Some po' /\
    turned (- (elapsed ts * (5 / 10)))%R Shield.Points_new pi' /\
    turned (elapsed ts * (3 / 10))%R Shield.Points_new pm' /\
    THREE.y (Shield.rotation po') = THREE.y (Shield.rotation Shield.Points_new) /\
    THREE.z (Shield.rotation po')
    = (THREE.z (Shield.rotation Shield.Points_new) - elapsed ts * (1 / 10))%R /\
    (forall d, THREE.x (Shield.rotation po')
               = (sin (elapsedTime (last ts d)) * (1 / 10))%R) /\
    (Rabs (THREE.x (Shield.rotation po')) <= 1 / 10)%R.
Proof.
  intros ts s.
  refine (@rings_turn_with_time ts s _ _ _ _ eq_refl eq_refl eq_refl eq_refl
            eq_refl _).
  discriminate.
Defined.

(** ** The particle geometries *)

Import ShieldGeometry.

Section GeometryFacts.
Local Open Scope R_scope.

Lemma counter_Forall (n : nat) (P : R -> Prop) :
  (forall i : R, 0 <= i <= IZR (Z.of_nat n) - 1 -> P i) ->
  Forall P (@counter R _ n).
Proof.
  intros HP. unfold counter. apply Forall_forall. intros r Hr.
  apply in_map_iff in Hr. destruct Hr as (i & <- & Hi).
  apply in_seq in Hi. apply HP. js_unfold.
  split.
  - apply IZR_le. lia.
  - replace (IZR (Z.of_nat n) - 1) with (IZR (Z.of_nat n - 1))
      by (rewrite minus_IZR; reflexivity).
    apply IZR_le. lia.
Qed.

Lemma Forall_flat_map_intro (A B : Type) (P : B -> Prop) (f : A -> list B)
    (l : list A) :
  Forall (fun a => Forall P (f a)) l -> Forall P (flat_map f l).
Proof.
  induction 1 as [ | a l Ha _ IH]; simpl; [constructor | ].
  apply Forall_app. split; assumption.
Qed.

Lemma length_flat_map_const (A B : Type) (f : A -> list B) (k : nat)
    (l : list A) :
  (forall a, length (f a) = k) -> length (flat_map f l) = (length l * k)%nat.
Proof.
  intros Hf. induction l as [ | a l IH]; simpl; [reflexivity | ].
  rewrite length_app, Hf, IH. reflexivity.
Qed.

Lemma length_counter (n : nat) : length (@counter R _ n) = n.
Proof. unfold counter. rewrite length_map, length_seq. reflexivity. Qed.

Lemma radiusSq_polar (theta r z : R) :
  radiusSq (mkVector3 (cos theta * r) (sin theta * r) z) = r * r.
Proof.
  unfold radiusSq. simpl.
  pose proof (sin2_cos2 theta) as Hsc. unfold Rsqr in Hsc.
  transitivity ((sin theta * sin theta + cos theta * cos theta) * (r * r));
    [ring | rewrite Hsc; ring].
Qed.
End GeometryFacts.

(** X16. The inner geometry is a rune of 700 particles: all on the plane
    z = 0, on a side or on a diagonal of the square of half side 0.5; and the
    square is open at one corner: the loop parameter [t] stops short of 1, so
    no particle sits on the corner (0.5, 0.5). *)
Theorem innerGeometry_rune :
  length (@innerGeometry R _) = 700%nat /\
  Forall on_rune (@innerGeometry R _).
Proof.
  unfold innerGeometry. split.
  - rewrite length_app.
    rewrite (@length_flat_map_const _ _ _ 4) by reflexivity.
    rewrite (@length_flat_map_const _ _ _ 2) by reflexivity.
    rewrite !length_counter. reflexivity.
  - apply Forall_app. split; apply Forall_flat_map_intro, counter_Forall;
      intros i Hi; simpl in Hi; js_unfold.
    + assert (Ht : (-1 <= i / 100 * 2 - 1 <= 98 / 100)%R) by lra.
      remember (i / 100 * 2 - 1)%R as t eqn:Et. clear Et Hi.
      repeat apply Forall_cons; try apply Forall_nil;
        unfold on_rune; simpl; js_unfold;
        (split; [reflexivity | ]);
        (split; [apply Rabs_le; lra | ]);
        (split; [apply Rabs_le; lra | ]);
        (split; [ | lra]).
      * right. left. rewrite Rabs_pos_eq; lra.
      * right. left. rewrite Rabs_left; lra.
      * left. rewrite Rabs_left; lra.
      * left. rewrite Rabs_pos_eq; lra.
    + assert (Ht : (-1 <= i / (100 * (15 / 10)) * 2 - 1 <= 148 / 150)%R) by lra.
      remember (i / (100 * (15 / 10)) * 2 - 1)%R as t eqn:Et. clear Et Hi.
      repeat apply Forall_cons; try apply Forall_nil;
        unfold on_rune; simpl; js_unfold;
        (split; [reflexivity | ]);
        (split; [apply Rabs_le; lra | ]);
        (split; [apply Rabs_le; lra | ]);
        (split; [ | lra]).
      * right. right. reflexivity.
      * right. right. replace (- t * (5 / 10))%R with (- (t * (5 / 10)))%R by ring.
        rewrite Rabs_Ropp. reflexivity.
Qed.

(** X17. The middle geometry is a mandala of 1800 particles, all on the
    plane z = 0 and in the annulus between the inner circle of radius 0.4 and
    the main circle of radius 0.8: the six-lobed pattern never leaves it. *)
Theorem middleGeometry_annulus :
  length (@middleGeometry R _ _ _) = 1800%nat /\
  Forall (in_annulus (4 / 10) (8 / 10))%R (@middleGeometry R _ _ _).
Proof.
  unfold middleGeometry. split.
  - rewrite (@length_flat_map_const _ _ _ 3) by reflexivity.
    rewrite length_counter. reflexivity.
  - apply Forall_flat_map_intro, counter_Forall. intros i _.
    js_unfold. change (@Math_cos R R_Circle) with cos.
    remember (i / 600 * @Math_PI R R_Circle * 2)%R as theta eqn:Et. clear Et.
    pose proof (COS_bound (theta * 6)%R) as [Hlo Hhi].
    remember (cos (theta * 6)%R) as k eqn:Ek. clear Ek.
    repeat apply Forall_cons; try apply Forall_nil;
      unfold in_annulus; (split; [reflexivity | ]);
      rewrite radiusSq_polar; nra.
Qed.

(** X18. In exact arithmetic, whatever [Math.random] returns in [0, 1),
    the outer geometry is a ring of 400 sparks, each at a distance from the
    z axis of at least 1.15 and less than 1.25, and within 0.05 of the
    plane z = 0.  On doubles the outer bound is reached: the largest draw
    below 1 gives the distance 1.25 itself. *)
Theorem outerGeometry_ring :
  (forall random : nat -> R,
     is_random random ->
     length (outerGeometry random) = 400%nat /\
     Forall is_spark (outerGeometry random)) /\
  (PrimFloat.ltb 0x1.fffffffffffffp-1%float 1%float = true /\
   spark_r 0x1.fffffffffffffp-1%float = decimal 125 2).
Proof.
  split; [ | split; reflexivity].
  intros random Hrandom. unfold outerGeometry. split.
  - rewrite length_map, length_seq. reflexivity.
  - apply Forall_map, Forall_forall. intros i _.
    unfold spark, spark_r, is_spark. js_unfold.
    change (@Math_cos R R_Circle) with cos.
    rewrite radiusSq_polar. cbv [THREE.z].
    pose proof (Hrandom (3 * i + 1)%nat) as Hu.
    pose proof (Hrandom (3 * i + 2)%nat) as Hv.
    remember (random (3 * i + 1)%nat) as u eqn:Eu. clear Eu.
    remember (random (3 * i + 2)%nat) as v eqn:Ev. clear Ev.
    assert (Hr : (115 / 100 <= 12 / 10 + (u - 5 / 10) * (1 / 10) < 125 / 100)%R)
      by lra.
    remember (12 / 10 + (u - 5 / 10) * (1 / 10))%R as r eqn:Er. clear Er.
    split; [nra | lra].
Qed.

(** X18 when every draw is 0.5. *)
Lemma outerGeometry_ring_witness :
  length (outerGeometry (fun _ => 1 / 2)%R) = 400%nat /\
  Forall is_spark (outerGeometry (fun _ => 1 / 2)%R).
Proof.
  apply (proj1 outerGeometry_ring (fun _ => 1 / 2)%R).
  intros k. simpl. lra.
Defined.
